(** * Event handlers of the subgraph mapping, and their invariants

    The mapping consumes contract events one at a time and maintains a
    store of entities keyed by string ids.  This file embeds the handlers
    of the mapping (the variant that keeps the historical lists) as
    state-passing functions over that store and proves the properties the
    specification states about them. *)

From stdpp Require Import gmap strings pretty list.
From Stdlib Require Import ZArith Lia Ascii.

Local Open Scope Z_scope.
Local Open Scope string_scope.

(** ** Scalars

    [BigInt] is graph-ts' arbitrary-precision signed integer.  Addresses and
    transaction hashes are carried by their 0x-hex rendering, the only form
    in which the mapping ever uses them, so [toHex]/[toHexString] are the
    identity on that rendering, and [toString] on a [BigInt] is the decimal
    printer. *)

Definition BigInt := Z.
Definition Address := string.
Definition Bytes := string.

Definition toString (x : BigInt) : string := pretty x.
Definition toHex (b : Bytes) : string := b.
Definition toHexString (a : Address) : string := a.

(** ** Entities of the schema

    The generated schema classes are not part of the sources at hand; each
    record lists the fields the handlers read or write, with the types the
    handlers use them at.  A nullable reference is an [option]. *)

Module GlobalState.
Record t := mk {
    artistSecondSalePercentage : BigInt;
    platformFirstSalePercentage : BigInt;
    platformSecondSalePercentage : BigInt;
    platformAddress : Address;
    latestMasterTokenId : BigInt;
    currentExpectedTokenSupply : BigInt;
    totalSaleAmount : BigInt }.
Definition set_artistSecondSalePercentage v g :=
    mk v (platformFirstSalePercentage g) (platformSecondSalePercentage g)
       (platformAddress g) (latestMasterTokenId g)
       (currentExpectedTokenSupply g) (totalSaleAmount g).
Definition set_platformAddress v g :=
    mk (artistSecondSalePercentage g) (platformFirstSalePercentage g)
       (platformSecondSalePercentage g) v (latestMasterTokenId g)
       (currentExpectedTokenSupply g) (totalSaleAmount g).
Definition set_latestMasterTokenId v g :=
    mk (artistSecondSalePercentage g) (platformFirstSalePercentage g)
       (platformSecondSalePercentage g) (platformAddress g) v
       (currentExpectedTokenSupply g) (totalSaleAmount g).
Definition set_currentExpectedTokenSupply v g :=
    mk (artistSecondSalePercentage g) (platformFirstSalePercentage g)
       (platformSecondSalePercentage g) (platformAddress g)
       (latestMasterTokenId g) v (totalSaleAmount g).
Definition set_totalSaleAmount v g :=
    mk (artistSecondSalePercentage g) (platformFirstSalePercentage g)
       (platformSecondSalePercentage g) (platformAddress g)
       (latestMasterTokenId g) (currentExpectedTokenSupply g) v.
End GlobalState.

Module User.
Record t := mk {
    id : string;
    bids : list string;
    buys : list string;
    sells : list string;
    ownedMasters : list string;
    ownerControllers : list string }.
Definition set_bids v u :=
    mk (id u) v (buys u) (sells u) (ownedMasters u) (ownerControllers u).
Definition set_buys v u :=
    mk (id u) (bids u) v (sells u) (ownedMasters u) (ownerControllers u).
Definition set_sells v u :=
    mk (id u) (bids u) (buys u) v (ownedMasters u) (ownerControllers u).
Definition set_ownedMasters v u :=
    mk (id u) (bids u) (buys u) (sells u) v (ownerControllers u).
Definition set_ownerControllers v u :=
    mk (id u) (bids u) (buys u) (sells u) (ownedMasters u) v.
End User.

Module Token.
Record t := mk {
    id : string;
    owner : string;
    currentBuyPrice : BigInt;
    currentBid : option string;
    permissionedAddress : option Address;
    numberOfSales : BigInt;
    tokenDidHaveFirstSale : bool;
    isMaster : bool;
    platformFirstSalePercentage : BigInt;
    platformSecondSalePercentage : BigInt;
    pastBids : list string;
    pastOwners : list string;
    lastTransfer : option string;
    allTransfers : list string;
    lastSale : option string;
    allSales : list string }.
Definition set_owner v k :=
    mk (id k) v (currentBuyPrice k) (currentBid k) (permissionedAddress k)
       (numberOfSales k) (tokenDidHaveFirstSale k) (isMaster k)
       (platformFirstSalePercentage k) (platformSecondSalePercentage k)
       (pastBids k) (pastOwners k) (lastTransfer k) (allTransfers k)
       (lastSale k) (allSales k).
Definition set_currentBuyPrice v k :=
    mk (id k) (owner k) v (currentBid k) (permissionedAddress k)
       (numberOfSales k) (tokenDidHaveFirstSale k) (isMaster k)
       (platformFirstSalePercentage k) (platformSecondSalePercentage k)
       (pastBids k) (pastOwners k) (lastTransfer k) (allTransfers k)
       (lastSale k) (allSales k).
Definition set_currentBid v k :=
    mk (id k) (owner k) (currentBuyPrice k) v (permissionedAddress k)
       (numberOfSales k) (tokenDidHaveFirstSale k) (isMaster k)
       (platformFirstSalePercentage k) (platformSecondSalePercentage k)
       (pastBids k) (pastOwners k) (lastTransfer k) (allTransfers k)
       (lastSale k) (allSales k).
Definition set_permissionedAddress v k :=
    mk (id k) (owner k) (currentBuyPrice k) (currentBid k) v
       (numberOfSales k) (tokenDidHaveFirstSale k) (isMaster k)
       (platformFirstSalePercentage k) (platformSecondSalePercentage k)
       (pastBids k) (pastOwners k) (lastTransfer k) (allTransfers k)
       (lastSale k) (allSales k).
Definition set_numberOfSales v k :=
    mk (id k) (owner k) (currentBuyPrice k) (currentBid k)
       (permissionedAddress k) v (tokenDidHaveFirstSale k) (isMaster k)
       (platformFirstSalePercentage k) (platformSecondSalePercentage k)
       (pastBids k) (pastOwners k) (lastTransfer k) (allTransfers k)
       (lastSale k) (allSales k).
Definition set_tokenDidHaveFirstSale v k :=
    mk (id k) (owner k) (currentBuyPrice k) (currentBid k)
       (permissionedAddress k) (numberOfSales k) v (isMaster k)
       (platformFirstSalePercentage k) (platformSecondSalePercentage k)
       (pastBids k) (pastOwners k) (lastTransfer k) (allTransfers k)
       (lastSale k) (allSales k).
Definition set_platformFirstSalePercentage v k :=
    mk (id k) (owner k) (currentBuyPrice k) (currentBid k)
       (permissionedAddress k) (numberOfSales k) (tokenDidHaveFirstSale k)
       (isMaster k) v (platformSecondSalePercentage k)
       (pastBids k) (pastOwners k) (lastTransfer k) (allTransfers k)
       (lastSale k) (allSales k).
Definition set_platformSecondSalePercentage v k :=
    mk (id k) (owner k) (currentBuyPrice k) (currentBid k)
       (permissionedAddress k) (numberOfSales k) (tokenDidHaveFirstSale k)
       (isMaster k) (platformFirstSalePercentage k) v
       (pastBids k) (pastOwners k) (lastTransfer k) (allTransfers k)
       (lastSale k) (allSales k).
Definition set_pastBids v k :=
    mk (id k) (owner k) (currentBuyPrice k) (currentBid k)
       (permissionedAddress k) (numberOfSales k) (tokenDidHaveFirstSale k)
       (isMaster k) (platformFirstSalePercentage k)
       (platformSecondSalePercentage k)
       v (pastOwners k) (lastTransfer k) (allTransfers k)
       (lastSale k) (allSales k).
Definition set_pastOwners v k :=
    mk (id k) (owner k) (currentBuyPrice k) (currentBid k)
       (permissionedAddress k) (numberOfSales k) (tokenDidHaveFirstSale k)
       (isMaster k) (platformFirstSalePercentage k)
       (platformSecondSalePercentage k)
       (pastBids k) v (lastTransfer k) (allTransfers k)
       (lastSale k) (allSales k).
Definition set_lastTransfer v k :=
    mk (id k) (owner k) (currentBuyPrice k) (currentBid k)
       (permissionedAddress k) (numberOfSales k) (tokenDidHaveFirstSale k)
       (isMaster k) (platformFirstSalePercentage k)
       (platformSecondSalePercentage k)
       (pastBids k) (pastOwners k) v (allTransfers k)
       (lastSale k) (allSales k).
Definition set_allTransfers v k :=
    mk (id k) (owner k) (currentBuyPrice k) (currentBid k)
       (permissionedAddress k) (numberOfSales k) (tokenDidHaveFirstSale k)
       (isMaster k) (platformFirstSalePercentage k)
       (platformSecondSalePercentage k)
       (pastBids k) (pastOwners k) (lastTransfer k) v
       (lastSale k) (allSales k).
Definition set_lastSale v k :=
    mk (id k) (owner k) (currentBuyPrice k) (currentBid k)
       (permissionedAddress k) (numberOfSales k) (tokenDidHaveFirstSale k)
       (isMaster k) (platformFirstSalePercentage k)
       (platformSecondSalePercentage k)
       (pastBids k) (pastOwners k) (lastTransfer k) (allTransfers k)
       v (allSales k).
Definition set_allSales v k :=
    mk (id k) (owner k) (currentBuyPrice k) (currentBid k)
       (permissionedAddress k) (numberOfSales k) (tokenDidHaveFirstSale k)
       (isMaster k) (platformFirstSalePercentage k)
       (platformSecondSalePercentage k)
       (pastBids k) (pastOwners k) (lastTransfer k) (allTransfers k)
       (lastSale k) v.
End Token.

Module TokenController.
Record t := mk {
    id : string;
    numberOfUpdates : BigInt;
    numRemainingUpdates : BigInt;
    averageUpdateCost : BigInt;
    lastUpdate : option string;
    allUpdates : list string }.
Definition set_numberOfUpdates v c :=
    mk (id c) v (numRemainingUpdates c) (averageUpdateCost c) (lastUpdate c)
       (allUpdates c).
Definition set_numRemainingUpdates v c :=
    mk (id c) (numberOfUpdates c) v (averageUpdateCost c) (lastUpdate c)
       (allUpdates c).
Definition set_averageUpdateCost v c :=
    mk (id c) (numberOfUpdates c) (numRemainingUpdates c) v (lastUpdate c)
       (allUpdates c).
Definition set_lastUpdate v c :=
    mk (id c) (numberOfUpdates c) (numRemainingUpdates c)
       (averageUpdateCost c) v (allUpdates c).
Definition set_allUpdates v c :=
    mk (id c) (numberOfUpdates c) (numRemainingUpdates c)
       (averageUpdateCost c) (lastUpdate c) v.
End TokenController.

Module TokenControlLever.
Record t := mk {
    id : string;
    previousValue : BigInt;
    currentValue : BigInt;
    numberOfUpdates : BigInt;
    latestUpdate : option string }.
End TokenControlLever.

Module LayerUpdate.
Record t := mk {
    id : string;
    updateNumber : BigInt;
    gasPrice : BigInt;
    gasUsed : BigInt;
    costInWei : BigInt;
    priorityTip : BigInt;
    layer : string;
    leversUpdated : list string }.
Definition set_leversUpdated v u :=
    mk (id u) (updateNumber u) (gasPrice u) (gasUsed u) (costInWei u)
       (priorityTip u) (layer u) v.
End LayerUpdate.

Module Bid.
Record t := mk {
    id : string;
    tokenDetails : string;
    bidAmount : BigInt;
    bidder : string;
    bidTimestamp : BigInt;
    bidActive : bool;
    bidAccepted : bool;
    BidWithdrawnTimestamp : option BigInt }.
Definition set_bidActive v b :=
    mk (id b) (tokenDetails b) (bidAmount b) (bidder b) (bidTimestamp b) v
       (bidAccepted b) (BidWithdrawnTimestamp b).
Definition set_bidAccepted v b :=
    mk (id b) (tokenDetails b) (bidAmount b) (bidder b) (bidTimestamp b)
       (bidActive b) v (BidWithdrawnTimestamp b).
Definition set_BidWithdrawnTimestamp v b :=
    mk (id b) (tokenDetails b) (bidAmount b) (bidder b) (bidTimestamp b)
       (bidActive b) (bidAccepted b) v.
End Bid.

Module Sale.
Record t := mk {
    id : string;
    tokenDetails : string;
    buyer : string;
    seller : string;
    salePrice : BigInt;
    saleTimestamp : BigInt;
    tokenSaleNumber : BigInt;
    isBidSale : bool;
    bidDetails : option string }.
Definition set_isBidSale v s :=
    mk (id s) (tokenDetails s) (buyer s) (seller s) (salePrice s)
       (saleTimestamp s) (tokenSaleNumber s) v (bidDetails s).
Definition set_bidDetails v s :=
    mk (id s) (tokenDetails s) (buyer s) (seller s) (salePrice s)
       (saleTimestamp s) (tokenSaleNumber s) (isBidSale s) v.
End Sale.

Module TokenTransfer.
Record t := mk {
    id : string;
    tokenDetails : string;
    to : string;
    from : string;
    timestamp : BigInt }.
End TokenTransfer.

(** ** The entity store

    One finite map per entity type, keyed by the entity id; [GlobalState] is
    a singleton.  The last two components hold the derived master/controller
    linkage that the reconciler maintains. *)

Record Store := mkStore {
  globalState : option GlobalState.t;
  users : gmap string User.t;
  tokens : gmap string Token.t;
  tokenControllers : gmap string TokenController.t;
  tokenControlLevers : gmap string TokenControlLever.t;
  layerUpdates : gmap string LayerUpdate.t;
  bids : gmap string Bid.t;
  sales : gmap string Sale.t;
  tokenTransfers : gmap string TokenTransfer.t;
  masterLayers : gmap string (list string);
  controllerMaster : gmap string string }.

Definition emptyStore : Store :=
  mkStore None ∅ ∅ ∅ ∅ ∅ ∅ ∅ ∅ ∅ ∅.

(** A store write: the entity saved, under its own id. *)
Inductive Write :=
  | WGlobalState (g : GlobalState.t)
  | WUser (u : User.t)
  | WToken (k : Token.t)
  | WTokenController (c : TokenController.t)
  | WTokenControlLever (l : TokenControlLever.t)
  | WLayerUpdate (u : LayerUpdate.t)
  | WBid (b : Bid.t)
  | WSale (x : Sale.t)
  | WTokenTransfer (x : TokenTransfer.t)
  | WMasterLayers (id : string) (layers : list string)
  | WControllerMaster (id : string) (master : string).

Inductive LogLevel := LInfo | LWarning.

(** Everything a handler can change: the persisted store, the journal of
    store writes in the order they were issued, and the log. *)
Record World := mkWorld {
  store : Store;
  journal : list Write;
  logs : list (LogLevel * string) }.

Definition emptyWorld : World := mkWorld emptyStore [] [].

(** ** Outcomes

    [log.critical] terminates the subgraph; reading a field of a [null]
    entity, indexing an array out of range and dividing by zero trap. *)

Inductive Abort :=
  | Critical (msg : string)
  | NullReference
  | IndexOutOfRange
  | DivisionByZero.

Inductive Result (A : Type) :=
  | Ok (a : A)
  | Err (e : Abort).
Arguments Ok {A} a.
Arguments Err {A} e.

Definition M (A : Type) : Type := World → Result (A * World).

Definition M_ret {A} (a : A) : M A := λ w, Ok (a, w).
Definition M_bind {A B} (f : A → M B) (m : M A) : M B :=
  λ w, match m w with
       | Ok (a, w') => f a w'
       | Err e => Err e
       end.
#[global] Instance M_mret : MRet M := @M_ret.
#[global] Instance M_mbind : MBind M := @M_bind.

Definition abort {A} (e : Abort) : M A := λ _, Err e.
Definition log_info (msg : string) : M unit :=
  λ w, Ok (tt, mkWorld (store w) (journal w) (logs w ++ [(LInfo, msg)])).
Definition log_warning (msg : string) : M unit :=
  λ w, Ok (tt, mkWorld (store w) (journal w) (logs w ++ [(LWarning, msg)])).
Definition log_critical {A} (msg : string) : M A := abort (Critical msg).

(** Field access through a possibly-null reference. *)
Definition deref {A} (o : option A) : M A :=
  match o with
  | Some a => mret a
  | None => abort NullReference
  end.

(** *** Typed load and save *)

Definition with_globalState v (s : Store) :=
  mkStore v (users s) (tokens s) (tokenControllers s) (tokenControlLevers s)
    (layerUpdates s) (bids s) (sales s) (tokenTransfers s) (masterLayers s)
    (controllerMaster s).
Definition with_users v (s : Store) :=
  mkStore (globalState s) v (tokens s) (tokenControllers s)
    (tokenControlLevers s) (layerUpdates s) (bids s) (sales s)
    (tokenTransfers s) (masterLayers s) (controllerMaster s).
Definition with_tokens v (s : Store) :=
  mkStore (globalState s) (users s) v (tokenControllers s)
    (tokenControlLevers s) (layerUpdates s) (bids s) (sales s)
    (tokenTransfers s) (masterLayers s) (controllerMaster s).
Definition with_tokenControllers v (s : Store) :=
  mkStore (globalState s) (users s) (tokens s) v (tokenControlLevers s)
    (layerUpdates s) (bids s) (sales s) (tokenTransfers s) (masterLayers s)
    (controllerMaster s).
Definition with_tokenControlLevers v (s : Store) :=
  mkStore (globalState s) (users s) (tokens s) (tokenControllers s) v
    (layerUpdates s) (bids s) (sales s) (tokenTransfers s) (masterLayers s)
    (controllerMaster s).
Definition with_layerUpdates v (s : Store) :=
  mkStore (globalState s) (users s) (tokens s) (tokenControllers s)
    (tokenControlLevers s) v (bids s) (sales s) (tokenTransfers s)
    (masterLayers s) (controllerMaster s).
Definition with_bids v (s : Store) :=
  mkStore (globalState s) (users s) (tokens s) (tokenControllers s)
    (tokenControlLevers s) (layerUpdates s) v (sales s) (tokenTransfers s)
    (masterLayers s) (controllerMaster s).
Definition with_sales v (s : Store) :=
  mkStore (globalState s) (users s) (tokens s) (tokenControllers s)
    (tokenControlLevers s) (layerUpdates s) (bids s) v (tokenTransfers s)
    (masterLayers s) (controllerMaster s).
Definition with_tokenTransfers v (s : Store) :=
  mkStore (globalState s) (users s) (tokens s) (tokenControllers s)
    (tokenControlLevers s) (layerUpdates s) (bids s) (sales s) v
    (masterLayers s) (controllerMaster s).
Definition with_masterLayers v (s : Store) :=
  mkStore (globalState s) (users s) (tokens s) (tokenControllers s)
    (tokenControlLevers s) (layerUpdates s) (bids s) (sales s)
    (tokenTransfers s) v (controllerMaster s).
Definition with_controllerMaster v (s : Store) :=
  mkStore (globalState s) (users s) (tokens s) (tokenControllers s)
    (tokenControlLevers s) (layerUpdates s) (bids s) (sales s)
    (tokenTransfers s) (masterLayers s) v.

Definition get_store : M Store := λ w, Ok (store w, w).

(** [entity.save()]: the store keeps the entity under its id. *)
Definition applyWrite (wr : Write) (s : Store) : Store :=
  match wr with
  | WGlobalState g => with_globalState (Some g) s
  | WUser u => with_users (<[User.id u := u]> (users s)) s
  | WToken k => with_tokens (<[Token.id k := k]> (tokens s)) s
  | WTokenController c =>
      with_tokenControllers
        (<[TokenController.id c := c]> (tokenControllers s)) s
  | WTokenControlLever l =>
      with_tokenControlLevers
        (<[TokenControlLever.id l := l]> (tokenControlLevers s)) s
  | WLayerUpdate u =>
      with_layerUpdates (<[LayerUpdate.id u := u]> (layerUpdates s)) s
  | WBid b => with_bids (<[Bid.id b := b]> (bids s)) s
  | WSale x => with_sales (<[Sale.id x := x]> (sales s)) s
  | WTokenTransfer x =>
      with_tokenTransfers
        (<[TokenTransfer.id x := x]> (tokenTransfers s)) s
  | WMasterLayers id layers =>
      with_masterLayers (<[id := layers]> (masterLayers s)) s
  | WControllerMaster id master =>
      with_controllerMaster (<[id := master]> (controllerMaster s)) s
  end.

Definition write (wr : Write) : M unit :=
  λ w, Ok (tt, mkWorld (applyWrite wr (store w)) (journal w ++ [wr])
                 (logs w)).

(** [X.load(id)]: absent-or-value; a [null] id loads as absent. *)
Definition load {A} (proj : Store → gmap string A) (id : option string)
  : M (option A) :=
  s ← get_store; mret (id ≫= λ k, proj s !! k).

Definition GlobalState_load : M (option GlobalState.t) :=
  s ← get_store; mret (globalState s).
Definition GlobalState_save (g : GlobalState.t) : M unit :=
  write (WGlobalState g).

Definition User_load (id : string) := load users (Some id).
Definition User_save (u : User.t) : M unit := write (WUser u).

Definition Token_load (id : string) := load tokens (Some id).
Definition Token_save (k : Token.t) : M unit := write (WToken k).

Definition TokenController_load (id : string) :=
  load tokenControllers (Some id).
Definition TokenController_save (c : TokenController.t) : M unit :=
  write (WTokenController c).

Definition TokenControlLever_load (id : string) :=
  load tokenControlLevers (Some id).
Definition TokenControlLever_save (l : TokenControlLever.t) : M unit :=
  write (WTokenControlLever l).

Definition LayerUpdate_save (u : LayerUpdate.t) : M unit :=
  write (WLayerUpdate u).

Definition Bid_load (id : option string) := load bids id.
Definition Bid_save (b : Bid.t) : M unit := write (WBid b).

Definition Sale_save (x : Sale.t) : M unit := write (WSale x).

Definition TokenTransfer_save (x : TokenTransfer.t) : M unit :=
  write (WTokenTransfer x).

Definition BigInt_div (a b : BigInt) : M BigInt :=
  if decide (b = 0) then abort DivisionByZero else mret (Z.quot a b).

(** ** The contract binding and the events

    [Contract.bind(event.address)] gives read-only access to the chain state
    at the triggering transaction.  The generated binding is not part of the
    sources at hand: [Contract] lists the read-only queries the utility
    module needs (the source query capability of the specification), and the
    event records list the parameters the handlers read. *)

Record Contract := mkContract {
  call_artistSecondSalePercentage : BigInt;
  call_defaultPlatformFirstSalePercentage : BigInt;
  call_defaultPlatformSecondSalePercentage : BigInt;
  call_platformAddress : Address;
  call_ownerOf : BigInt → Address;
  call_permissionedControllers : BigInt → Address → option Address;
  call_controlLevers : BigInt → list (BigInt * BigInt) }.

Record Block := mkBlock { timestamp : BigInt; number : BigInt }.
Record Transaction := mkTransaction {
  hash : Bytes; gasPrice : BigInt; gasUsed : BigInt }.

Record Event (P : Type) := mkEvent {
  address : Contract;
  block : Block;
  transaction : Transaction;
  params : P }.
Arguments mkEvent {P} _ _ _ _.
Arguments address {P} _.
Arguments block {P} _.
Arguments transaction {P} _.
Arguments params {P} _.

Module ArtistSecondSalePercentUpdated.
Record t := mk { artistSecondPercentage : BigInt }.
End ArtistSecondSalePercentUpdated.

Module BidProposed.
Record t := mk { tokenId : BigInt; bidAmount : BigInt; bidder : Address }.
End BidProposed.

Module BidWithdrawn.
Record t := mk { tokenId : BigInt }.
End BidWithdrawn.

Module BuyPriceSet.
Record t := mk { tokenId : BigInt; price : BigInt }.
End BuyPriceSet.

Module ControlLeverUpdated.
Record t := mk {
  tokenId : BigInt;
  priorityTip : BigInt;
  numRemainingUpdates : BigInt;
  leverIds : list BigInt;
  previousValues : list BigInt;
  updatedValues : list BigInt }.
End ControlLeverUpdated.

Module CreatorWhitelisted.
Record t := mk { tokenId : BigInt; layerCount : BigInt; creator : Address }.
End CreatorWhitelisted.

Module PermissionUpdated.
Record t := mk {
  tokenId : BigInt; tokenOwner : Address; permissioned : Address }.
End PermissionUpdated.

Module PlatformAddressUpdated.
Record t := mk { platformAddress : Address }.
End PlatformAddressUpdated.

Module PlatformSalePercentageUpdated.
Record t := mk {
  tokenId : BigInt;
  platformFirstPercentage : BigInt;
  platformSecondPercentage : BigInt }.
End PlatformSalePercentageUpdated.

Module TokenSale.
Record t := mk { tokenId : BigInt; salePrice : BigInt; buyer : Address }.
End TokenSale.

Module Transfer.
Record t := mk { from : Address; to : Address; tokenId : BigInt }.
End Transfer.

(** ** Helpers of the mapping's utility module *)

(** Modelled from the spec: [getOrInitialiseGlobalState] of the utility
    module, which is not part of the sources at hand.  It "returns the
    singleton, creating it (pulling initial percentages and the platform
    address from the authoritative source) if absent". *)
Definition getOrInitialiseGlobalState (c : Contract) : M GlobalState.t :=
  g ← GlobalState_load;
  match g with
  | Some g => mret g
  | None =>
      mret (GlobalState.mk (call_artistSecondSalePercentage c)
              (call_defaultPlatformFirstSalePercentage c)
              (call_defaultPlatformSecondSalePercentage c)
              (call_platformAddress c) 0 0 0)
  end.

(** Modelled from the spec: [refreshGlobalState] of the utility module; it
    "re-pulls the same fields unconditionally and persists". *)
Definition refreshGlobalState (c : Contract) : M unit :=
  g ← getOrInitialiseGlobalState c;
  GlobalState_save
    (GlobalState.mk (call_artistSecondSalePercentage c)
       (call_defaultPlatformFirstSalePercentage c)
       (call_defaultPlatformSecondSalePercentage c)
       (call_platformAddress c) (GlobalState.latestMasterTokenId g)
       (GlobalState.currentExpectedTokenSupply g)
       (GlobalState.totalSaleAmount g)).

(** Modelled from the spec: [createOrFetchUserString] of the utility module.
    "If a record with that normalized address exists, return it; otherwise
    create it with empty relationship lists and persist before returning." *)
Definition createOrFetchUserString (a : string) : M User.t :=
  u ← User_load a;
  match u with
  | Some u => mret u
  | None =>
      let u := User.mk a [] [] [] [] [] in
      User_save u;; mret u
  end.

(** Modelled from the spec: [getOrInitialiseToken] of the utility module.
    For a non-creation event it "loads an existing Token".  What it does
    for a token that is not stored cannot be read off the sources at hand:
    the spec asks for a fatal consistency error, a comment in
    [handleTokenSale] has the routine initialise such a token, and the
    handlers test its result for [null].  That result is modelled as
    [null], which leaves the decision to the handlers' own tests. *)
Definition getOrInitialiseToken (c : Contract) (tokenId : BigInt)
  : M (option Token.t) :=
  Token_load (toString tokenId).

(** Modelled from the spec: [getPermissionedAddress] of the utility module,
    the source query [queryCurrentPermission(tokenId, actorAddress)]. *)
Definition getPermissionedAddress (c : Contract) (tokenId : BigInt)
  (actor : Address) : option Address :=
  call_permissionedControllers c tokenId actor.

(** *** Linkage reconciliation *)

(** Modelled from the spec: the child token ids of the latest master, as
    the reconciler of the utility module rederives them "from token ids
    alone (contiguous id range)": everything strictly between the master id
    and the expected total supply. *)
Definition childTokenIds (g : GlobalState.t) : list BigInt :=
  let m := GlobalState.latestMasterTokenId g in
  (λ i : nat, m + 1 + Z.of_nat i) <$>
    seq 0 (Z.to_nat (GlobalState.currentExpectedTokenSupply g - m - 1)).

(** The key of a token's controller, [<tokenId>-Controller]. *)
Definition controllerId (tokenId : BigInt) : string :=
  toString tokenId ++ "-Controller".

(** Modelled from the spec: [trySetMasterLayers] of the utility module, the
    parent-to-children half of the linkage reconciler.  It recomputes the
    list of controllers of the latest master, is "safe to call even when
    some referenced entities are absent (logs and skips)" and is
    "side-effect-only-if-changed". *)
Definition trySetMasterLayers : M unit :=
  g ← GlobalState_load;
  match g with
  | None => log_info "No global state"
  | Some g =>
      master ← Token_load (toString (GlobalState.latestMasterTokenId g));
      match master with
      | None => log_info "No master token"
      | Some master =>
          s ← get_store;
          let layers :=
            filter (λ cid, is_Some (tokenControllers s !! cid))
                   (controllerId <$> childTokenIds g) in
          if decide (masterLayers s !! Token.id master = Some layers)
          then mret tt
          else write (WMasterLayers (Token.id master) layers)
      end
  end.

(** Modelled from the spec: one step of [linkMasterAndControllers], linking
    one child's controller to the master; an absent controller is logged
    and skipped, and nothing is written when the link is already there. *)
Definition linkController (masterId : string) (tokenId : BigInt) : M unit :=
  controller ← TokenController_load (controllerId tokenId);
  match controller with
  | None => log_info "No controller"
  | Some controller =>
      s ← get_store;
      if decide (controllerMaster s !! TokenController.id controller
                 = Some masterId)
      then mret tt
      else write (WControllerMaster (TokenController.id controller)
                    masterId)
  end.

Fixpoint forEach {A} (f : A → M unit) (l : list A) : M unit :=
  match l with
  | [] => mret tt
  | x :: l => f x;; forEach f l
  end.

(** Modelled from the spec: [linkMasterAndControllers] of the utility
    module, the children-to-parent half of the linkage reconciler, under
    the same contract as [trySetMasterLayers]. *)
Definition linkMasterAndControllers : M unit :=
  g ← GlobalState_load;
  match g with
  | None => log_info "No global state"
  | Some g =>
      forEach (linkController (toString (GlobalState.latestMasterTokenId g)))
              (childTokenIds g)
  end.

(** Modelled from the spec: [reconcile()], the two calls with which the
    handlers close. *)
Definition reconcile : M unit :=
  trySetMasterLayers;; linkMasterAndControllers.

(** *** Token creation *)

(** The key of a lever, [<tokenId>-<leverId>]. *)
Definition leverId (tokenId leverNo : BigInt) : string :=
  toString tokenId ++ "-" ++ toString leverNo.

(** Modelled from the spec: the Token record creation stores, owned by
    whoever the contract reports as owner, with no sale, bid or history
    yet. *)
Definition newToken (c : Contract) (tokenId : BigInt) (master : bool)
  : Token.t :=
  Token.mk (toString tokenId) (toHexString (call_ownerOf c tokenId)) 0 None
    None 0 false master (call_defaultPlatformFirstSalePercentage c)
    (call_defaultPlatformSecondSalePercentage c) [] [] None [] None [].

(** Modelled from the spec: one TokenControlLever of a child, starting at
    the value the contract reports, with no update yet. *)
Definition createLever (tokenId : BigInt) (l : BigInt * BigInt) : M unit :=
  TokenControlLever_save
    (TokenControlLever.mk (leverId tokenId l.1) l.2 l.2 0 None).

(** Modelled from the spec: one child Token with its TokenController (no
    update yet, average cost zero) and its levers. *)
Definition createChild (c : Contract) (tokenId : BigInt) : M unit :=
  createOrFetchUserString (toHexString (call_ownerOf c tokenId));;
  Token_save (newToken c tokenId false);;
  TokenController_save
    (TokenController.mk (controllerId tokenId) 0 0 0 None []);;
  forEach (createLever tokenId) (call_controlLevers c tokenId).

(** Modelled from the spec: [createTokensFromMasterTokenId] of the utility
    module.  "On a creation event carrying a master id and a child count N,
    create one master Token (isMaster=true) and N child Tokens
    (isMaster=false) with deterministic sequential ids, plus one
    TokenController and its fixed set of TokenControlLever records per
    child."  The lever set of a child is what the contract reports for it;
    creation is not checked against re-delivery. *)
Definition createTokensFromMasterTokenId (c : Contract)
  (tokenId layerCount : BigInt) : M unit :=
  createOrFetchUserString (toHexString (call_ownerOf c tokenId));;
  Token_save (newToken c tokenId true);;
  forEach (createChild c)
    ((λ i : nat, tokenId + 1 + Z.of_nat i) <$> seq 0 (Z.to_nat layerCount)).

(** ** The handlers *)

Definition handleArtistSecondSalePercentUpdated
  (event : Event ArtistSecondSalePercentUpdated.t) : M unit :=
  let newSecondPercentage :=
    ArtistSecondSalePercentUpdated.artistSecondPercentage (params event) in
  let asyncContract := address event in
  globalState ← getOrInitialiseGlobalState asyncContract;
  let globalState :=
    GlobalState.set_artistSecondSalePercentage newSecondPercentage
      globalState in
  GlobalState_save globalState.

Definition handleBidProposed (event : Event BidProposed.t) : M unit :=
  let txTimestamp := timestamp (block event) in
  let txHash := hash (transaction event) in
  let tokenId := BidProposed.tokenId (params event) in
  let bidAmount := BidProposed.bidAmount (params event) in
  let bidder := BidProposed.bidder (params event) in
  let asyncContract := address event in
  globalState ← getOrInitialiseGlobalState asyncContract;
  GlobalState_save globalState;;
  token ← getOrInitialiseToken asyncContract tokenId;
  user ← createOrFetchUserString (toHexString bidder);
  match token with
  | None => log_warning "Bid on token that doesn't exist"
  | Some token =>
      let bid :=
        Bid.mk (toString tokenId ++ "-" ++ toHex txHash) (toString tokenId)
          bidAmount (User.id user) txTimestamp true false None in
      oldBid ← Bid_load (Token.currentBid token);
      token ←
        match oldBid with
        | Some oldBid =>
            let oldBid := Bid.set_bidActive false oldBid in
            let token :=
              Token.set_pastBids (Token.pastBids token ++ [Bid.id oldBid])
                token in
            Bid_save oldBid;; mret token
        | None => mret token
        end;
      let user := User.set_bids (User.bids user ++ [Bid.id bid]) user in
      let token := Token.set_currentBid (Some (Bid.id bid)) token in
      User_save user;;
      Token_save token;;
      Bid_save bid;;
      trySetMasterLayers;;
      linkMasterAndControllers
  end.

Definition handleBidWithdrawn (event : Event BidWithdrawn.t) : M unit :=
  let txTimestamp := timestamp (block event) in
  let tokenId := BidWithdrawn.tokenId (params event) in
  let asyncContract := address event in
  refreshGlobalState asyncContract;;
  token ← getOrInitialiseToken asyncContract tokenId;
  match token with
  | None => log_critical "Token should be defined"
  | Some token =>
      bid ← Bid_load (Token.currentBid token);
      match bid with
      | None => log_warning "Bid should be defined"
      | Some bid =>
          let bid := Bid.set_bidActive false bid in
          let bid := Bid.set_BidWithdrawnTimestamp (Some txTimestamp) bid in
          let token :=
            Token.set_pastBids (Token.pastBids token ++ [Bid.id bid]) token in
          Bid_save bid;;
          Token_save token
      end
  end.

Definition handleBuyPriceSet (event : Event BuyPriceSet.t) : M unit :=
  let tokenId := BuyPriceSet.tokenId (params event) in
  let buyPrice := BuyPriceSet.price (params event) in
  let asyncContract := address event in
  refreshGlobalState asyncContract;;
  token ← getOrInitialiseToken asyncContract tokenId;
  match token with
  | None => log_warning "Token should be defined"
  | Some token =>
      let token := Token.set_currentBuyPrice buyPrice token in
      Token_save token;;
      trySetMasterLayers;;
      linkMasterAndControllers
  end.

(** The running average of the update cost, as the handler computes it from
    the controller's stored average and count. *)
Definition nextAverageUpdateCost (controllerToken : TokenController.t)
  (updateCost : BigInt) : M BigInt :=
  let newNumberOfUpdates :=
    TokenController.numberOfUpdates controllerToken + 1 in
  if decide (TokenController.numberOfUpdates controllerToken = 0)
  then mret updateCost
  else
    let numerator :=
      TokenController.averageUpdateCost controllerToken
      * TokenController.numberOfUpdates controllerToken + updateCost in
    BigInt_div numerator newNumberOfUpdates.

(** Array read [a[i]]; out of range traps. *)
Definition index {A} (a : list A) (i : nat) : M A :=
  match a !! i with
  | Some x => mret x
  | None => abort IndexOutOfRange
  end.

(** One iteration of the lever loop, threading the layer update being
    built. *)
Definition updateLever (tokenId : BigInt)
  (leverIds previousValues updatedValues : list BigInt)
  (layerUpdate : LayerUpdate.t) (i : nat) : M LayerUpdate.t :=
  leverNo ← index leverIds i;
  lever ← TokenControlLever_load (leverId tokenId leverNo);
  previousValue ← index previousValues i;
  lever ← deref lever;
  updatedValue ← index updatedValues i;
  let lever :=
    TokenControlLever.mk (TokenControlLever.id lever) previousValue
      updatedValue (TokenControlLever.numberOfUpdates lever + 1)
      (Some (LayerUpdate.id layerUpdate)) in
  TokenControlLever_save lever;;
  mret (LayerUpdate.set_leversUpdated
          (LayerUpdate.leversUpdated layerUpdate
           ++ [TokenControlLever.id lever]) layerUpdate).

Fixpoint foldM {A B} (f : B → A → M B) (b : B) (l : list A) : M B :=
  match l with
  | [] => mret b
  | x :: l => b' ← f b x; foldM f b' l
  end.

Definition handleControlLeverUpdated (event : Event ControlLeverUpdated.t)
  : M unit :=
  let gasPrice := gasPrice (transaction event) in
  let gasUsed := gasUsed (transaction event) in
  let tokenId := ControlLeverUpdated.tokenId (params event) in
  let priorityTip := ControlLeverUpdated.priorityTip (params event) in
  let numRemainingUpdates :=
    ControlLeverUpdated.numRemainingUpdates (params event) in
  let leverIds := ControlLeverUpdated.leverIds (params event) in
  let previousValues := ControlLeverUpdated.previousValues (params event) in
  let updatedValues := ControlLeverUpdated.updatedValues (params event) in
  let updateCost := gasUsed * gasPrice in
  let asyncContract := address event in
  refreshGlobalState asyncContract;;
  token ← getOrInitialiseToken asyncContract tokenId;
  (if token is None then log_critical "Token should be defined"
   else mret tt);;
  controllerToken ← TokenController_load (toString tokenId ++ "-Controller");
  controllerToken ← deref controllerToken;
  let newNumberOfUpdates :=
    TokenController.numberOfUpdates controllerToken + 1 in
  averageUpdateCost ← nextAverageUpdateCost controllerToken updateCost;
  let controllerToken :=
    TokenController.set_averageUpdateCost averageUpdateCost controllerToken in
  let controllerToken :=
    TokenController.set_numberOfUpdates newNumberOfUpdates controllerToken in
  let controllerToken :=
    TokenController.set_numRemainingUpdates numRemainingUpdates
      controllerToken in
  let layerUpdate :=
    LayerUpdate.mk (toString tokenId ++ "-" ++ toString newNumberOfUpdates)
      newNumberOfUpdates gasPrice gasUsed updateCost priorityTip
      (TokenController.id controllerToken) [] in
  layerUpdate ←
    foldM (updateLever tokenId leverIds previousValues updatedValues)
      layerUpdate (seq 0 (length previousValues));
  let controllerToken :=
    TokenController.set_allUpdates
      (TokenController.allUpdates controllerToken
       ++ [LayerUpdate.id layerUpdate]) controllerToken in
  let controllerToken :=
    TokenController.set_lastUpdate (Some (LayerUpdate.id layerUpdate))
      controllerToken in
  LayerUpdate_save layerUpdate;;
  TokenController_save controllerToken;;
  token ← deref token;
  Token_save token.

Definition handleCreatorWhitelisted (event : Event CreatorWhitelisted.t)
  : M unit :=
  let tokenId := CreatorWhitelisted.tokenId (params event) in
  let layerCount := CreatorWhitelisted.layerCount (params event) in
  let asyncContract := address event in
  globalState ← getOrInitialiseGlobalState asyncContract;
  let globalState := GlobalState.set_latestMasterTokenId tokenId globalState in
  let globalState :=
    GlobalState.set_currentExpectedTokenSupply (tokenId + layerCount + 1)
      globalState in
  GlobalState_save globalState;;
  createTokensFromMasterTokenId asyncContract tokenId layerCount.

Definition handlePermissionUpdated (event : Event PermissionUpdated.t)
  : M unit :=
  let tokenId := PermissionUpdated.tokenId (params event) in
  let addressOfGranter := PermissionUpdated.tokenOwner (params event) in
  let permissioned := PermissionUpdated.permissioned (params event) in
  let asyncContract := address event in
  globalState ← getOrInitialiseGlobalState asyncContract;
  GlobalState_save globalState;;
  token ← getOrInitialiseToken asyncContract tokenId;
  (if token is None then log_critical "Token should be defined"
   else mret tt);;
  token ← deref token;
  (if decide (toHex addressOfGranter = Token.owner token)
   then
     let token := Token.set_permissionedAddress (Some permissioned) token in
     Token_save token
   else mret tt);;
  trySetMasterLayers;;
  linkMasterAndControllers.

Definition handlePlatformAddressUpdated
  (event : Event PlatformAddressUpdated.t) : M unit :=
  let newPlatformAddress :=
    PlatformAddressUpdated.platformAddress (params event) in
  let asyncContract := address event in
  globalState ← getOrInitialiseGlobalState asyncContract;
  let globalState :=
    GlobalState.set_platformAddress newPlatformAddress globalState in
  GlobalState_save globalState.

Definition handlePlatformSalePercentageUpdated
  (event : Event PlatformSalePercentageUpdated.t) : M unit :=
  let tokenId := PlatformSalePercentageUpdated.tokenId (params event) in
  let platformFirstPercentage :=
    PlatformSalePercentageUpdated.platformFirstPercentage (params event) in
  let platformSecondPercentage :=
    PlatformSalePercentageUpdated.platformSecondPercentage (params event) in
  let asyncContract := address event in
  refreshGlobalState asyncContract;;
  token ← getOrInitialiseToken asyncContract tokenId;
  (if token is None then log_critical "Token should be defined"
   else mret tt);;
  token ← deref token;
  let token :=
    Token.set_platformFirstSalePercentage platformFirstPercentage token in
  let token :=
    Token.set_platformSecondSalePercentage platformSecondPercentage token in
  Token_save token;;
  trySetMasterLayers;;
  linkMasterAndControllers.

(** Whether the current bid is the one this sale accepts. *)
Definition bidMatchesSale (bid : Bid.t) (salePrice : BigInt)
  (_buyer : Address) : bool :=
  bool_decide (Bid.bidAmount bid = salePrice)
  && bool_decide (toHexString _buyer = Bid.bidder bid).

Definition handleTokenSale (event : Event TokenSale.t) : M unit :=
  let txTimestamp := timestamp (block event) in
  let tokenId := TokenSale.tokenId (params event) in
  let salePrice := TokenSale.salePrice (params event) in
  let _buyer := TokenSale.buyer (params event) in
  let asyncContract := address event in
  globalState ← getOrInitialiseGlobalState asyncContract;
  let globalState :=
    GlobalState.set_totalSaleAmount
      (GlobalState.totalSaleAmount globalState + salePrice) globalState in
  buyer ← createOrFetchUserString (toHexString _buyer);
  token' ← getOrInitialiseToken asyncContract tokenId;
  token ← deref token';
  seller ← User_load (Token.owner token);
  (if token' is None then log_critical "Token should be defined"
   else mret tt);;
  let tokenSaleNumber := Token.numberOfSales token + 1 in
  seller ← deref seller;
  let sale :=
    Sale.mk (toString tokenId ++ "-" ++ toString tokenSaleNumber)
      (Token.id token) (User.id buyer) (User.id seller) salePrice txTimestamp
      tokenSaleNumber false None in
  bid ← Bid_load (Token.currentBid token);
  '(sale, token) ←
    match bid with
    | None => log_info "No bid exists";; mret (sale, token)
    | Some bid =>
        let '(bid, sale) :=
          if bidMatchesSale bid salePrice _buyer
          then (Bid.set_bidAccepted true bid,
                Sale.set_bidDetails (Some (Bid.id bid))
                  (Sale.set_isBidSale true sale))
          else (bid, sale) in
        let bid := Bid.set_bidActive false bid in
        let token :=
          Token.set_pastBids (Token.pastBids token ++ [Bid.id bid]) token in
        Bid_save bid;; mret (sale, token)
    end;
  let token := Token.set_owner (User.id buyer) token in
  let token := Token.set_lastSale (Some (Sale.id sale)) token in
  let token := Token.set_currentBuyPrice 0 token in
  let token := Token.set_numberOfSales (Token.numberOfSales token + 1) token in
  let token := Token.set_tokenDidHaveFirstSale true token in
  let token :=
    Token.set_allSales (Token.allSales token ++ [Sale.id sale]) token in
  let token := Token.set_currentBid None token in
  let possiblePermissionedAddress :=
    getPermissionedAddress asyncContract tokenId _buyer in
  let token :=
    Token.set_permissionedAddress possiblePermissionedAddress token in
  let buyer := User.set_buys (User.buys buyer ++ [Sale.id sale]) buyer in
  let seller := User.set_sells (User.sells seller ++ [Sale.id sale]) seller in
  User_save buyer;;
  User_save seller;;
  Sale_save sale;;
  Token_save token;;
  GlobalState_save globalState;;
  trySetMasterLayers;;
  linkMasterAndControllers.

(** [l.indexOf(x) === -1 ? l.concat([x]) : l] *)
Definition addIfMissing (x : string) (l : list string) : list string :=
  if decide (x ∈ l) then l else l ++ [x].

Definition handleTransfer (event : Event Transfer.t) : M unit :=
  let txTimestamp := timestamp (block event) in
  let txHash := hash (transaction event) in
  let tokenId := Transfer.tokenId (params event) in
  let _from := Transfer.from (params event) in
  let _to := Transfer.to (params event) in
  let asyncContract := address event in
  refreshGlobalState asyncContract;;
  to ← createOrFetchUserString (toHexString _to);
  token ← getOrInitialiseToken asyncContract tokenId;
  from ← createOrFetchUserString (toHexString _from);
  (if token is None then log_critical "Token should be defined"
   else mret tt);;
  token ← deref token;
  let transfer :=
    TokenTransfer.mk (toString tokenId ++ "-" ++ toHexString txHash)
      (Token.id token) (User.id to) (User.id from) txTimestamp in
  let possiblePermissionedAddress :=
    getPermissionedAddress asyncContract tokenId _to in
  let token :=
    Token.set_permissionedAddress possiblePermissionedAddress token in
  let token := Token.set_owner (User.id to) token in
  let token := Token.set_currentBuyPrice 0 token in
  let token :=
    Token.set_lastTransfer (Some (TokenTransfer.id transfer)) token in
  let token :=
    Token.set_allTransfers
      (Token.allTransfers token ++ [TokenTransfer.id transfer]) token in
  let token :=
    Token.set_pastOwners (addIfMissing (User.id from) (Token.pastOwners token))
      token in
  let to :=
    if Token.isMaster token
    then User.set_ownedMasters
           (addIfMissing (Token.id token ++ "-Master") (User.ownedMasters to))
           to
    else User.set_ownerControllers
           (addIfMissing (Token.id token ++ "-Controller")
              (User.ownerControllers to)) to in
  User_save to;;
  User_save from;;
  TokenTransfer_save transfer;;
  Token_save token;;
  trySetMasterLayers;;
  linkMasterAndControllers.

(** ** The event stream

    Each event kind dispatches to exactly one handler; a run stops at the
    first event whose handler aborts. *)

Inductive AnyEvent :=
  | EArtistSecondSalePercentUpdated (e : Event ArtistSecondSalePercentUpdated.t)
  | EBidProposed (e : Event BidProposed.t)
  | EBidWithdrawn (e : Event BidWithdrawn.t)
  | EBuyPriceSet (e : Event BuyPriceSet.t)
  | EControlLeverUpdated (e : Event ControlLeverUpdated.t)
  | ECreatorWhitelisted (e : Event CreatorWhitelisted.t)
  | EPermissionUpdated (e : Event PermissionUpdated.t)
  | EPlatformAddressUpdated (e : Event PlatformAddressUpdated.t)
  | EPlatformSalePercentageUpdated (e : Event PlatformSalePercentageUpdated.t)
  | ETokenSale (e : Event TokenSale.t)
  | ETransfer (e : Event Transfer.t).

Definition handle (ev : AnyEvent) : M unit :=
  match ev with
  | EArtistSecondSalePercentUpdated e => handleArtistSecondSalePercentUpdated e
  | EBidProposed e => handleBidProposed e
  | EBidWithdrawn e => handleBidWithdrawn e
  | EBuyPriceSet e => handleBuyPriceSet e
  | EControlLeverUpdated e => handleControlLeverUpdated e
  | ECreatorWhitelisted e => handleCreatorWhitelisted e
  | EPermissionUpdated e => handlePermissionUpdated e
  | EPlatformAddressUpdated e => handlePlatformAddressUpdated e
  | EPlatformSalePercentageUpdated e => handlePlatformSalePercentageUpdated e
  | ETokenSale e => handleTokenSale e
  | ETransfer e => handleTransfer e
  end.

Definition exec (m : M unit) (w : World) : Result World :=
  match m w with
  | Ok (_, w') => Ok w'
  | Err e => Err e
  end.

Fixpoint run (evs : list AnyEvent) (w : World) : Result World :=
  match evs with
  | [] => Ok w
  | ev :: evs =>
      match exec (handle ev) w with
      | Ok w' => run evs w'
      | Err e => Err e
      end
  end.

Definition isCreation (ev : AnyEvent) : bool :=
  match ev with ECreatorWhitelisted _ => true | _ => false end.

(** ** Predicates used in the statements *)

(** The list of controllers the reconciler derives for the latest master. *)
Definition derivedLayers (s : Store) (g : GlobalState.t) : list string :=
  filter (λ cid, is_Some (tokenControllers s !! cid))
         (controllerId <$> childTokenIds g).

Definition layersSettled (s : Store) : Prop :=
  match globalState s with
  | None => True
  | Some g =>
      match tokens s !! toString (GlobalState.latestMasterTokenId g) with
      | None => True
      | Some master =>
          masterLayers s !! Token.id master = Some (derivedLayers s g)
      end
  end.

Definition linksSettled (s : Store) : Prop :=
  match globalState s with
  | None => True
  | Some g =>
      ∀ x c, x ∈ childTokenIds g →
        tokenControllers s !! controllerId x = Some c →
        controllerMaster s !! TokenController.id c
        = Some (toString (GlobalState.latestMasterTokenId g))
  end.

(** The user record [createOrFetchUserString] hands back. *)
Definition fetchedUser (a : string) (s : Store) : User.t :=
  default (User.mk a [] [] [] [] []) (users s !! a).

Definition bidKey (tokenId : BigInt) (txHash : Bytes) : string :=
  toString tokenId ++ "-" ++ toHex txHash.

Definition saleKey (tokenId n : BigInt) : string :=
  toString tokenId ++ "-" ++ toString n.

(** The bid record a proposal event creates. *)
Definition proposedBid (e : Event BidProposed.t) (s : Store) : Bid.t :=
  Bid.mk (bidKey (BidProposed.tokenId (params e)) (hash (transaction e)))
    (toString (BidProposed.tokenId (params e)))
    (BidProposed.bidAmount (params e))
    (User.id (fetchedUser (toHexString (BidProposed.bidder (params e))) s))
    (timestamp (block e)) true false None.

(** The bid a token's [currentBid] reference loads to. *)
Definition loadedBid (s : Store) (token : Token.t) : option Bid.t :=
  Token.currentBid token ≫= λ k, bids s !! k.

(** The users map once [createOrFetchUserString a] has run. *)
Definition usersWith (a : string) (s : Store) : gmap string User.t :=
  match users s !! a with
  | Some _ => users s
  | None => <[a := User.mk a [] [] [] [] []]> (users s)
  end.

(** The value the running-average update stores, when it does not trap. *)
Definition averageAfter (avg count cost : BigInt) : BigInt :=
  if decide (count = 0) then cost
  else Z.quot (avg * count + cost) (count + 1).

(** ** A small concrete run, used to exercise the statements

    Master token 5 with three controller tokens 6, 7, 8 (scenario D of the
    specification), then bids on token 6 (scenarios A and B). *)

Definition demoContract : Contract :=
  mkContract 5 10 1 "0xplatform" (λ _, "0xartist") (λ _ _, None)
    (λ _, [(0, 7); (1, 9)]).

Definition demoEvent {P} (ts : BigInt) (txHash : Bytes) (price used : BigInt)
  (p : P) : Event P :=
  mkEvent demoContract (mkBlock ts 1) (mkTransaction txHash price used) p.

Definition demoCreate : Event CreatorWhitelisted.t :=
  demoEvent 1 "0xc0" 1 1 (CreatorWhitelisted.mk 5 3 "0xartist").
Definition demoBid1 : Event BidProposed.t :=
  demoEvent 2 "0xb1" 1 1 (BidProposed.mk 6 100 "0xu1").
Definition demoBid2 : Event BidProposed.t :=
  demoEvent 3 "0xb2" 1 1 (BidProposed.mk 6 150 "0xu2").
Definition demoWithdraw : Event BidWithdrawn.t :=
  demoEvent 4 "0xd1" 1 1 (BidWithdrawn.mk 6).
Definition demoSale (buyer : Address) (price : BigInt) : Event TokenSale.t :=
  demoEvent 5 "0xe1" 1 1 (TokenSale.mk 6 price buyer).
Definition demoTransfer : Event Transfer.t :=
  demoEvent 6 "0xf1" 1 1 (Transfer.mk "0xartist" "0xu3" 6).
Definition demoPermission (granter : Address)
  : Event PermissionUpdated.t :=
  demoEvent 7 "0xa1" 1 1 (PermissionUpdated.mk 6 granter "0xfriend").
Definition demoLeverUpdate (cost : BigInt) : Event ControlLeverUpdated.t :=
  demoEvent 8 "0xa2" 1 cost (ControlLeverUpdated.mk 6 0 3 [0] [7] [8]).

Definition worldAfter (evs : list AnyEvent) : World :=
  match run evs emptyWorld with
  | Ok w => w
  | Err _ => emptyWorld
  end.

Definition demoWorld : World := worldAfter [ECreatorWhitelisted demoCreate].
Definition demoWorldBid : World :=
  worldAfter [ECreatorWhitelisted demoCreate; EBidProposed demoBid1].
Definition demoToken6 : Token.t := newToken demoContract 6 false.

(** Store well-formedness: an entity is kept under its own id. *)
Definition wfTokens (s : Store) : Prop :=
  map_Forall (λ k t, Token.id t = k) (tokens s).
Definition wfBids (s : Store) : Prop :=
  map_Forall (λ k b, Bid.id b = k) (bids s).
Definition wfControllers (s : Store) : Prop :=
  map_Forall (λ k c, TokenController.id c = k) (tokenControllers s).

(** Every active bid is the current bid of the token it was placed on. *)
Definition activeIsCurrent (s : Store) : Prop :=
  map_Forall
    (λ k b, Bid.bidActive b = true →
            tokens s !! Bid.tokenDetails b ≫= Token.currentBid = Some k)
    (bids s).

Definition bidInv (s : Store) : Prop :=
  wfTokens s ∧ wfBids s ∧ activeIsCurrent s.


(** Decimal renderings of unsigned integers contain no dash, which is what
    makes the composite keys [<tokenId>-<n>] unambiguous. *)
Fixpoint noDash (s : string) : bool :=
  match s with
  | EmptyString => true
  | String c s => negb (Ascii.eqb c "-"%char) && noDash s
  end.

Definition eventTokenId (ev : AnyEvent) : option BigInt :=
  match ev with
  | EArtistSecondSalePercentUpdated _ | EPlatformAddressUpdated _ => None
  | EBidProposed e => Some (BidProposed.tokenId (params e))
  | EBidWithdrawn e => Some (BidWithdrawn.tokenId (params e))
  | EBuyPriceSet e => Some (BuyPriceSet.tokenId (params e))
  | EControlLeverUpdated e => Some (ControlLeverUpdated.tokenId (params e))
  | ECreatorWhitelisted e => Some (CreatorWhitelisted.tokenId (params e))
  | EPermissionUpdated e => Some (PermissionUpdated.tokenId (params e))
  | EPlatformSalePercentageUpdated e =>
      Some (PlatformSalePercentageUpdated.tokenId (params e))
  | ETokenSale e => Some (TokenSale.tokenId (params e))
  | ETransfer e => Some (Transfer.tokenId (params e))
  end.

(** Events as the contract can emit them after creation: token ids are
    unsigned. *)
Definition validEvent (ev : AnyEvent) : Prop :=
  isCreation ev = false ∧
  match eventTokenId ev with
  | Some t => (0 ≤ t)%Z
  | None => True
  end.

Definition isSaleOn (tid : BigInt) (ev : AnyEvent) : bool :=
  match ev with
  | ETokenSale e => bool_decide (TokenSale.tokenId (params e) = tid)
  | _ => false
  end.

(** The number of sale events of a token in a list of events. *)
Definition salesOn (tid : BigInt) (evs : list AnyEvent) : nat :=
  length (List.filter (isSaleOn tid) evs).

(** The Sale records of a token. *)
Definition salesOf (s : Store) (tid : BigInt) : gmap string Sale.t :=
  filter (λ kx, Sale.tokenDetails kx.2 = toString tid) (sales s).

(** Every Sale record sits under the key of its token and number, and the
    number is within the token's sale count. *)
Definition salesKeyed (s : Store) : Prop :=
  map_Forall
    (λ k x, ∃ tid tok,
       (0 ≤ tid)%Z ∧ Sale.tokenDetails x = toString tid ∧
       tokens s !! toString tid = Some tok ∧
       (1 ≤ Sale.tokenSaleNumber x ≤ Token.numberOfSales tok)%Z ∧
       k = saleKey tid (Sale.tokenSaleNumber x))
    (sales s).

(** Every number up to a token's sale count is taken by a Sale record of
    that token, and the count is the number of its Sale records. *)
Definition salesComplete (s : Store) : Prop :=
  ∀ tid tok, (0 ≤ tid)%Z → tokens s !! toString tid = Some tok →
    (0 ≤ Token.numberOfSales tok)%Z ∧
    (∀ n, (1 ≤ n ≤ Token.numberOfSales tok)%Z →
       ∃ x, sales s !! saleKey tid n = Some x ∧
            Sale.tokenDetails x = toString tid ∧
            Sale.tokenSaleNumber x = n) ∧
    size (salesOf s tid) = Z.to_nat (Token.numberOfSales tok).

Definition saleInv (s : Store) : Prop :=
  wfTokens s ∧ salesKeyed s ∧ salesComplete s.

(** The batch costs, in order, of the lever-update events of a token. *)
Definition leverCost (tid : BigInt) (ev : AnyEvent) : option BigInt :=
  match ev with
  | EControlLeverUpdated e =>
      if bool_decide (ControlLeverUpdated.tokenId (params e) = tid)
      then Some (gasUsed (transaction e) * gasPrice (transaction e))
      else None
  | _ => None
  end.

Definition leverCosts (tid : BigInt) (evs : list AnyEvent) : list BigInt :=
  omap (leverCost tid) evs.

(** The stored (average, count) pair after a list of costs. *)
Definition averageOver (start : BigInt * BigInt) (costs : list BigInt)
  : BigInt * BigInt :=
  foldl (λ ac cost, (averageAfter ac.1 ac.2 cost, ac.2 + 1)) start costs.

Definition sumZ (l : list BigInt) : BigInt := foldr Z.add 0 l.

(** Replaying a list of writes on a store. *)
Definition replay (j : list Write) (s : Store) : Store :=
  foldl (λ s wr, applyWrite wr s) s j.

(** A computation changes the store only through the writes it appends to
    the journal. *)
Definition journaled {A} (m : M A) : Prop :=
  ∀ w a w', m w = Ok (a, w') →
    ∃ j, journal w' = (journal w ++ j)%list ∧ store w' = replay j (store w).

(** [I] holds of the store before the writes of [j] and after each of
    them. *)
Fixpoint stepsKeep (I : Store → Prop) (j : list Write) (s : Store) : Prop :=
  I s ∧
  match j with
  | [] => True
  | wr :: j => stepsKeep I j (applyWrite wr s)
  end.

(** Started where [I] holds, a computation that returns has changed the
    store only through journaled writes, [I] held after every one of them,
    and the result satisfies [Q]. *)
Definition keeps (I : Store → Prop) {A} (m : M A) (Q : A → World → Prop)
  (w : World) : Prop :=
  I (store w) →
  match m w with
  | Ok (a, w') =>
      ∃ j, journal w' = (journal w ++ j)%list ∧
           store w' = replay j (store w) ∧
           stepsKeep I j (store w) ∧ Q a w'
  | Err _ => True
  end.

(** ** What every stored record satisfies

    Properties of a single record that each handler re-establishes at
    every save. *)

(** A token's sale history: the count is the length of the list of sales,
    the last sale is the last entry and the first-sale flag says whether
    there is one. *)
Definition saleHistoryOk (t : Token.t) : Prop :=
  Z.of_nat (length (Token.allSales t)) = Token.numberOfSales t ∧
  Token.lastSale t = last (Token.allSales t) ∧
  Token.tokenDidHaveFirstSale t = bool_decide (0 < Token.numberOfSales t)%Z.

(** A token's transfer history: the last transfer is the last entry of the
    list of transfers, and no past owner is listed twice. *)
Definition transferHistoryOk (t : Token.t) : Prop :=
  Token.lastTransfer t = last (Token.allTransfers t) ∧
  NoDup (Token.pastOwners t).

(** A user's lists of owned masters and controllers hold no duplicate. *)
Definition ownershipListsOk (u : User.t) : Prop :=
  NoDup (User.ownedMasters u) ∧ NoDup (User.ownerControllers u).

(** An active bid has neither been accepted nor withdrawn. *)
Definition bidFlagsOk (b : Bid.t) : Prop :=
  Bid.bidActive b = true →
  Bid.bidAccepted b = false ∧ Bid.BidWithdrawnTimestamp b = None.

(** A sale is keyed by its token and its number, numbers start at one, and
    it is flagged as a bid sale exactly when it references a bid. *)
Definition saleRecordOk (x : Sale.t) : Prop :=
  Sale.id x = Sale.tokenDetails x ++ "-" ++ toString (Sale.tokenSaleNumber x) ∧
  (1 ≤ Sale.tokenSaleNumber x)%Z ∧
  (Sale.isBidSale x = true ↔ is_Some (Sale.bidDetails x)).

(** A controller's update history: the count is the length of the list of
    updates and the last update is its last entry. *)
Definition updateHistoryOk (c : TokenController.t) : Prop :=
  Z.of_nat (length (TokenController.allUpdates c))
  = TokenController.numberOfUpdates c ∧
  TokenController.lastUpdate c = last (TokenController.allUpdates c).

(** A layer update records the cost of its transaction, is numbered from
    one, and its key and controller are those of one token. *)
Definition layerUpdateOk (u : LayerUpdate.t) : Prop :=
  LayerUpdate.costInWei u = LayerUpdate.gasUsed u * LayerUpdate.gasPrice u ∧
  (1 ≤ LayerUpdate.updateNumber u)%Z ∧
  ∃ tokenId : BigInt,
    LayerUpdate.id u
    = toString tokenId ++ "-" ++ toString (LayerUpdate.updateNumber u) ∧
    LayerUpdate.layer u = controllerId tokenId.

(** A lever names its latest update exactly when it has been updated. *)
Definition leverOk (l : TokenControlLever.t) : Prop :=
  (0 ≤ TokenControlLever.numberOfUpdates l)%Z ∧
  (TokenControlLever.latestUpdate l = None
   ↔ TokenControlLever.numberOfUpdates l = 0).

(** What a store write must satisfy. *)
Definition recordOk (wr : Write) : Prop :=
  match wr with
  | WToken t => saleHistoryOk t ∧ transferHistoryOk t
  | WUser u => ownershipListsOk u
  | WBid b => bidFlagsOk b
  | WSale x => saleRecordOk x
  | WTokenController c => updateHistoryOk c
  | WLayerUpdate u => layerUpdateOk u
  | WTokenControlLever l => leverOk l
  | _ => True
  end.

(** Every record of the store satisfies its property, and tokens and
    controllers sit under their own ids. *)
Definition consistent (s : Store) : Prop :=
  wfTokens s ∧ wfControllers s ∧
  map_Forall (λ _ t, saleHistoryOk t ∧ transferHistoryOk t) (tokens s) ∧
  map_Forall (λ _, ownershipListsOk) (users s) ∧
  map_Forall (λ _, bidFlagsOk) (bids s) ∧
  map_Forall (λ _, saleRecordOk) (sales s) ∧
  map_Forall (λ _, updateHistoryOk) (tokenControllers s) ∧
  map_Forall (λ _, layerUpdateOk) (layerUpdates s) ∧
  map_Forall (λ _, leverOk) (tokenControlLevers s).

(** ** Outcomes of a computation

    [wp m Q E w]: started in [w], the computation [m] either returns a
    result and a world that satisfy [Q], or aborts with an error that
    satisfies [E]. *)
Definition wp {A} (m : M A) (Q : A → World → Prop) (E : Abort → Prop)
  (w : World) : Prop :=
  match m w with
  | Ok (a, w') => Q a w'
  | Err e => E e
  end.

(** The running total of sale prices; nothing has been sold while the
    singleton is absent. *)
Definition totalSales (s : Store) : BigInt :=
  from_option GlobalState.totalSaleAmount 0 (globalState s).

(** The sale price an event carries, zero for every other kind of event. *)
Definition salePriceOf (ev : AnyEvent) : BigInt :=
  match ev with
  | ETokenSale e => TokenSale.salePrice (params e)
  | _ => 0
  end.

Definition wfUsers (s : Store) : Prop :=
  map_Forall (λ k u, User.id u = k) (users s).

(** Levers sit under their own ids. *)
Definition wfLevers (s : Store) : Prop :=
  map_Forall (λ k l, TokenControlLever.id l = k) (tokenControlLevers s).

(** What the lever loop of an update event needs to run through: at every
    index of [previousValues] there is a lever id and an updated value, and
    the lever of that id is stored. *)
Definition leversPresent (tokenId : BigInt)
  (leverIds previousValues updatedValues : list BigInt) (s : Store) : Prop :=
  ∀ i : nat, (i < length previousValues)%nat →
    ∃ leverNo, leverIds !! i = Some leverNo ∧
               is_Some (updatedValues !! i) ∧
               is_Some (tokenControlLevers s !! leverId tokenId leverNo).

(** The lever record one iteration of the loop stores. *)
Definition leverAfter (layerUpdateId : string) (previousValue
  updatedValue : BigInt) (lever : TokenControlLever.t)
  : TokenControlLever.t :=
  TokenControlLever.mk (TokenControlLever.id lever) previousValue
    updatedValue (TokenControlLever.numberOfUpdates lever + 1)
    (Some layerUpdateId).

(** ** References between records

    A reference is the id of another record; it resolves in a store when
    a record is stored under it. *)
Definition resolves {A} (m : gmap string A) (k : string) : Prop :=
  is_Some (m !! k).

(** The references each kind of record carries, resolved in the store
    [d]. *)
Definition tokenRefsOk (d : Store) (t : Token.t) : Prop :=
  resolves (users d) (Token.owner t) ∧
  Forall (resolves (users d)) (Token.pastOwners t) ∧
  (∀ k, Token.currentBid t = Some k → resolves (bids d) k) ∧
  Forall (resolves (bids d)) (Token.pastBids t) ∧
  (∀ k, Token.lastSale t = Some k → resolves (sales d) k) ∧
  Forall (resolves (sales d)) (Token.allSales t) ∧
  (∀ k, Token.lastTransfer t = Some k → resolves (tokenTransfers d) k) ∧
  Forall (resolves (tokenTransfers d)) (Token.allTransfers t).

Definition userRefsOk (d : Store) (u : User.t) : Prop :=
  Forall (resolves (bids d)) (User.bids u) ∧
  Forall (resolves (sales d)) (User.buys u) ∧
  Forall (resolves (sales d)) (User.sells u).

Definition bidRefsOk (d : Store) (b : Bid.t) : Prop :=
  resolves (users d) (Bid.bidder b) ∧
  resolves (tokens d) (Bid.tokenDetails b).

Definition saleRefsOk (d : Store) (x : Sale.t) : Prop :=
  resolves (users d) (Sale.buyer x) ∧
  resolves (users d) (Sale.seller x) ∧
  resolves (tokens d) (Sale.tokenDetails x) ∧
  (∀ k, Sale.bidDetails x = Some k → resolves (bids d) k).

Definition transferRefsOk (d : Store) (x : TokenTransfer.t) : Prop :=
  resolves (users d) (TokenTransfer.to x) ∧
  resolves (users d) (TokenTransfer.from x) ∧
  resolves (tokens d) (TokenTransfer.tokenDetails x).

Definition controllerRefsOk (d : Store) (c : TokenController.t) : Prop :=
  (∀ k, TokenController.lastUpdate c = Some k →
        resolves (layerUpdates d) k) ∧
  Forall (resolves (layerUpdates d)) (TokenController.allUpdates c).

Definition layerUpdateRefsOk (d : Store) (u : LayerUpdate.t) : Prop :=
  resolves (tokenControllers d) (LayerUpdate.layer u) ∧
  Forall (resolves (tokenControlLevers d)) (LayerUpdate.leversUpdated u).

Definition leverRefsOk (d : Store) (l : TokenControlLever.t) : Prop :=
  ∀ k, TokenControlLever.latestUpdate l = Some k →
       resolves (layerUpdates d) k.

(** The references of the record a write stores resolve in [d]. *)
Definition writeRefsOk (d : Store) (wr : Write) : Prop :=
  match wr with
  | WToken t => tokenRefsOk d t
  | WUser u => userRefsOk d u
  | WBid b => bidRefsOk d b
  | WSale x => saleRefsOk d x
  | WTokenTransfer x => transferRefsOk d x
  | WTokenController c => controllerRefsOk d c
  | WLayerUpdate u => layerUpdateRefsOk d u
  | WTokenControlLever l => leverRefsOk d l
  | _ => True
  end.

(** Every reference of every record of [s] resolves in [d]. *)
Definition refsIn (d s : Store) : Prop :=
  map_Forall (λ _, tokenRefsOk d) (tokens s) ∧
  map_Forall (λ _, userRefsOk d) (users s) ∧
  map_Forall (λ _, bidRefsOk d) (bids s) ∧
  map_Forall (λ _, saleRefsOk d) (sales s) ∧
  map_Forall (λ _, transferRefsOk d) (tokenTransfers s) ∧
  map_Forall (λ _, controllerRefsOk d) (tokenControllers s) ∧
  map_Forall (λ _, layerUpdateRefsOk d) (layerUpdates s) ∧
  map_Forall (λ _, leverRefsOk d) (tokenControlLevers s).

(** No record of the store carries a dangling reference. *)
Definition noDangling (s : Store) : Prop := refsIn s s.

(** Whatever is stored in [s] is stored in [d]. *)
Definition grows (s d : Store) : Prop :=
  (∀ k, resolves (users s) k → resolves (users d) k) ∧
  (∀ k, resolves (tokens s) k → resolves (tokens d) k) ∧
  (∀ k, resolves (bids s) k → resolves (bids d) k) ∧
  (∀ k, resolves (sales s) k → resolves (sales d) k) ∧
  (∀ k, resolves (tokenTransfers s) k → resolves (tokenTransfers d) k) ∧
  (∀ k, resolves (tokenControllers s) k → resolves (tokenControllers d) k) ∧
  (∀ k, resolves (layerUpdates s) k → resolves (layerUpdates d) k) ∧
  (∀ k, resolves (tokenControlLevers s) k →
        resolves (tokenControlLevers d) k).

(** * The earlier handler set

    [src/mapping.ts] holds an earlier set of handlers for the same events.
    Its schema has no historical lists: a token carries the price of its
    last sale instead of the sale itself, and a controller carries its
    update count only.  Users, bids, sales, layer updates and levers have
    the fields they have above.  The handlers of this set that differ from
    the later ones are embedded here, over a store of their own. *)

Module Legacy.

Module Token.
Record t := mk {
    id : string;
    owner : string;
    currentBuyPrice : BigInt;
    currentBid : option string;
    permissionedAddress : option Address;
    lastSalePrice : BigInt;
    numberOfSales : BigInt;
    tokenDidHaveFirstSale : bool;
    isMaster : bool;
    platformFirstSalePercentage : BigInt;
    platformSecondSalePercentage : BigInt }.
Definition set_owner v k :=
    mk (id k) v (currentBuyPrice k) (currentBid k) (permissionedAddress k)
       (lastSalePrice k) (numberOfSales k) (tokenDidHaveFirstSale k)
       (isMaster k) (platformFirstSalePercentage k)
       (platformSecondSalePercentage k).
Definition set_currentBuyPrice v k :=
    mk (id k) (owner k) v (currentBid k) (permissionedAddress k)
       (lastSalePrice k) (numberOfSales k) (tokenDidHaveFirstSale k)
       (isMaster k) (platformFirstSalePercentage k)
       (platformSecondSalePercentage k).
Definition set_currentBid v k :=
    mk (id k) (owner k) (currentBuyPrice k) v (permissionedAddress k)
       (lastSalePrice k) (numberOfSales k) (tokenDidHaveFirstSale k)
       (isMaster k) (platformFirstSalePercentage k)
       (platformSecondSalePercentage k).
Definition set_permissionedAddress v k :=
    mk (id k) (owner k) (currentBuyPrice k) (currentBid k) v
       (lastSalePrice k) (numberOfSales k) (tokenDidHaveFirstSale k)
       (isMaster k) (platformFirstSalePercentage k)
       (platformSecondSalePercentage k).
Definition set_lastSalePrice v k :=
    mk (id k) (owner k) (currentBuyPrice k) (currentBid k)
       (permissionedAddress k) v (numberOfSales k) (tokenDidHaveFirstSale k)
       (isMaster k) (platformFirstSalePercentage k)
       (platformSecondSalePercentage k).
Definition set_numberOfSales v k :=
    mk (id k) (owner k) (currentBuyPrice k) (currentBid k)
       (permissionedAddress k) (lastSalePrice k) v (tokenDidHaveFirstSale k)
       (isMaster k) (platformFirstSalePercentage k)
       (platformSecondSalePercentage k).
Definition set_tokenDidHaveFirstSale v k :=
    mk (id k) (owner k) (currentBuyPrice k) (currentBid k)
       (permissionedAddress k) (lastSalePrice k) (numberOfSales k) v
       (isMaster k) (platformFirstSalePercentage k)
       (platformSecondSalePercentage k).
End Token.

Module TokenController.
Record t := mk {
    id : string;
    numberOfUpdates : BigInt;
    numRemainingUpdates : BigInt }.
Definition set_numberOfUpdates v c := mk (id c) v (numRemainingUpdates c).
Definition set_numRemainingUpdates v c := mk (id c) (numberOfUpdates c) v.
End TokenController.

(** ** Store, world and monad *)

Record Store := mkStore {
  globalState : option GlobalState.t;
  users : gmap string User.t;
  tokens : gmap string Token.t;
  tokenControllers : gmap string TokenController.t;
  tokenControlLevers : gmap string TokenControlLever.t;
  layerUpdates : gmap string LayerUpdate.t;
  bids : gmap string Bid.t;
  sales : gmap string Sale.t }.

(** What a handler can change: the persisted store and the log. *)
Record World := mkWorld {
  store : Store;
  logs : list (LogLevel * string) }.

Definition M (A : Type) : Type := World → Result (A * World).

Definition M_ret {A} (a : A) : M A := λ w, Ok (a, w).
Definition M_bind {A B} (f : A → M B) (m : M A) : M B :=
  λ w, match m w with
       | Ok (a, w') => f a w'
       | Err e => Err e
       end.
#[local] Instance M_mret : MRet M := @M_ret.
#[local] Instance M_mbind : MBind M := @M_bind.

Definition abort {A} (e : Abort) : M A := λ _, Err e.
Definition log_info (msg : string) : M unit :=
  λ w, Ok (tt, mkWorld (store w) (logs w ++ [(LInfo, msg)])).
Definition log_warning (msg : string) : M unit :=
  λ w, Ok (tt, mkWorld (store w) (logs w ++ [(LWarning, msg)])).
Definition log_critical {A} (msg : string) : M A := abort (Critical msg).

Definition deref {A} (o : option A) : M A :=
  match o with
  | Some a => mret a
  | None => abort NullReference
  end.

Definition index {A} (a : list A) (i : nat) : M A :=
  match a !! i with
  | Some x => mret x
  | None => abort IndexOutOfRange
  end.

Definition get_store : M Store := λ w, Ok (store w, w).
Definition modify (f : Store → Store) : M unit :=
  λ w, Ok (tt, mkWorld (f (store w)) (logs w)).

Definition load {A} (proj : Store → gmap string A) (id : option string)
  : M (option A) :=
  s ← get_store; mret (id ≫= λ k, proj s !! k).

Definition GlobalState_load : M (option GlobalState.t) :=
  s ← get_store; mret (globalState s).
Definition GlobalState_save (g : GlobalState.t) : M unit :=
  modify (λ s, mkStore (Some g) (users s) (tokens s) (tokenControllers s)
                 (tokenControlLevers s) (layerUpdates s) (bids s) (sales s)).

Definition User_load (id : string) := load users (Some id).
Definition User_save (u : User.t) : M unit :=
  modify (λ s, mkStore (globalState s) (<[User.id u := u]> (users s))
                 (tokens s) (tokenControllers s) (tokenControlLevers s)
                 (layerUpdates s) (bids s) (sales s)).

Definition Token_load (id : string) := load tokens (Some id).
Definition Token_save (k : Token.t) : M unit :=
  modify (λ s, mkStore (globalState s) (users s)
                 (<[Token.id k := k]> (tokens s)) (tokenControllers s)
                 (tokenControlLevers s) (layerUpdates s) (bids s) (sales s)).

Definition TokenController_load (id : string) :=
  load tokenControllers (Some id).
Definition TokenController_save (c : TokenController.t) : M unit :=
  modify (λ s, mkStore (globalState s) (users s) (tokens s)
                 (<[TokenController.id c := c]> (tokenControllers s))
                 (tokenControlLevers s) (layerUpdates s) (bids s) (sales s)).

Definition TokenControlLever_load (id : string) :=
  load tokenControlLevers (Some id).
Definition TokenControlLever_save (l : TokenControlLever.t) : M unit :=
  modify (λ s, mkStore (globalState s) (users s) (tokens s)
                 (tokenControllers s)
                 (<[TokenControlLever.id l := l]> (tokenControlLevers s))
                 (layerUpdates s) (bids s) (sales s)).

Definition LayerUpdate_save (u : LayerUpdate.t) : M unit :=
  modify (λ s, mkStore (globalState s) (users s) (tokens s)
                 (tokenControllers s) (tokenControlLevers s)
                 (<[LayerUpdate.id u := u]> (layerUpdates s)) (bids s)
                 (sales s)).

Definition Bid_load (id : option string) := load bids id.
Definition Bid_save (b : Bid.t) : M unit :=
  modify (λ s, mkStore (globalState s) (users s) (tokens s)
                 (tokenControllers s) (tokenControlLevers s) (layerUpdates s)
                 (<[Bid.id b := b]> (bids s)) (sales s)).

Definition Sale_save (x : Sale.t) : M unit :=
  modify (λ s, mkStore (globalState s) (users s) (tokens s)
                 (tokenControllers s) (tokenControlLevers s) (layerUpdates s)
                 (bids s) (<[Sale.id x := x]> (sales s))).

(** ** Helpers of the utility module *)

(** Modelled from the spec: [getOrInitialiseGlobalState], as above. *)
Definition getOrInitialiseGlobalState (c : Contract) : M GlobalState.t :=
  g ← GlobalState_load;
  match g with
  | Some g => mret g
  | None =>
      mret (GlobalState.mk (call_artistSecondSalePercentage c)
              (call_defaultPlatformFirstSalePercentage c)
              (call_defaultPlatformSecondSalePercentage c)
              (call_platformAddress c) 0 0 0)
  end.

(** Modelled from the spec: [refreshGlobalState], as above. *)
Definition refreshGlobalState (c : Contract) : M unit :=
  g ← getOrInitialiseGlobalState c;
  GlobalState_save
    (GlobalState.mk (call_artistSecondSalePercentage c)
       (call_defaultPlatformFirstSalePercentage c)
       (call_defaultPlatformSecondSalePercentage c)
       (call_platformAddress c) (GlobalState.latestMasterTokenId g)
       (GlobalState.currentExpectedTokenSupply g)
       (GlobalState.totalSaleAmount g)).

(** Modelled from the spec: [createOrFetchUserString], as above. *)
Definition createOrFetchUserString (a : string) : M User.t :=
  u ← User_load a;
  match u with
  | Some u => mret u
  | None =>
      let u := User.mk a [] [] [] [] [] in
      User_save u;; mret u
  end.

(** Modelled from the spec: [getOrInitialiseToken], as above. *)
Definition getOrInitialiseToken (c : Contract) (tokenId : BigInt)
  : M (option Token.t) :=
  Token_load (toString tokenId).

(** ** The handlers

    This set closes its handlers with [linkMasterAndControllers(tokenId)],
    a routine of the utility module that is neither part of the sources at
    hand nor described; the handlers take it as a parameter and the
    statements below hold whatever it does. *)

Section Handlers.

Variable linkMasterAndControllers : BigInt → M unit.

Definition handleBidProposed (event : Event BidProposed.t) : M unit :=
  let txTimestamp := timestamp (block event) in
  let txHash := hash (transaction event) in
  let tokenId := BidProposed.tokenId (params event) in
  let bidAmount := BidProposed.bidAmount (params event) in
  let bidder := BidProposed.bidder (params event) in
  let asyncContract := address event in
  globalState ← getOrInitialiseGlobalState asyncContract;
  GlobalState_save globalState;;
  token ← getOrInitialiseToken asyncContract tokenId;
  user ← createOrFetchUserString (toHexString bidder);
  match token with
  | None => log_warning "Bid on token that doesn't exist"
  | Some token =>
      let bid :=
        Bid.mk (toString tokenId ++ "-" ++ toHex txHash) (toString tokenId)
          bidAmount (User.id user) txTimestamp true false None in
      oldBid ← Bid_load (Token.currentBid token);
      match oldBid with
      | Some oldBid =>
          let oldBid := Bid.set_bidActive false oldBid in
          Bid_save oldBid
      | None => mret tt
      end;;
      let user := User.set_bids (User.bids user ++ [Bid.id bid]) user in
      let token := Token.set_currentBid (Some (Bid.id bid)) token in
      User_save user;;
      Token_save token;;
      Bid_save bid;;
      linkMasterAndControllers tokenId
  end.

Definition handleBidWithdrawn (event : Event BidWithdrawn.t) : M unit :=
  let txTimestamp := timestamp (block event) in
  let tokenId := BidWithdrawn.tokenId (params event) in
  let asyncContract := address event in
  refreshGlobalState asyncContract;;
  token ← getOrInitialiseToken asyncContract tokenId;
  match token with
  | None => log_critical "Token should be defined"
  | Some token =>
      bid ← Bid_load (Token.currentBid token);
      match bid with
      | None => log_warning "Bid should be defined"
      | Some bid =>
          let bid := Bid.set_bidActive false bid in
          let bid := Bid.set_BidWithdrawnTimestamp (Some txTimestamp) bid in
          Bid_save bid
      end
  end.

(** One iteration of the lever loop, threading the layer update being
    built. *)
Definition updateLever (tokenId : BigInt)
  (leverIds previousValues updatedValues : list BigInt)
  (layerUpdate : LayerUpdate.t) (i : nat) : M LayerUpdate.t :=
  leverNo ← index leverIds i;
  lever ← TokenControlLever_load (leverId tokenId leverNo);
  previousValue ← index previousValues i;
  lever ← deref lever;
  updatedValue ← index updatedValues i;
  let lever :=
    TokenControlLever.mk (TokenControlLever.id lever) previousValue
      updatedValue (TokenControlLever.numberOfUpdates lever + 1)
      (Some (LayerUpdate.id layerUpdate)) in
  TokenControlLever_save lever;;
  mret (LayerUpdate.set_leversUpdated
          (LayerUpdate.leversUpdated layerUpdate
           ++ [TokenControlLever.id lever]) layerUpdate).

Fixpoint foldM {A B} (f : B → A → M B) (b : B) (l : list A) : M B :=
  match l with
  | [] => mret b
  | x :: l => b' ← f b x; foldM f b' l
  end.

Definition handleControlLeverUpdated (event : Event ControlLeverUpdated.t)
  : M unit :=
  let gasPrice := gasPrice (transaction event) in
  let gasUsed := gasUsed (transaction event) in
  let tokenId := ControlLeverUpdated.tokenId (params event) in
  let priorityTip := ControlLeverUpdated.priorityTip (params event) in
  let numRemainingUpdates :=
    ControlLeverUpdated.numRemainingUpdates (params event) in
  let leverIds := ControlLeverUpdated.leverIds (params event) in
  let previousValues := ControlLeverUpdated.previousValues (params event) in
  let updatedValues := ControlLeverUpdated.updatedValues (params event) in
  let asyncContract := address event in
  refreshGlobalState asyncContract;;
  token ← getOrInitialiseToken asyncContract tokenId;
  (if token is None then log_critical "Token should be defined"
   else mret tt);;
  controllerToken ← TokenController_load (toString tokenId ++ "-Controller");
  controllerToken ← deref controllerToken;
  let newNumberOfUpdates :=
    TokenController.numberOfUpdates controllerToken + 1 in
  let controllerToken :=
    TokenController.set_numberOfUpdates newNumberOfUpdates controllerToken in
  let controllerToken :=
    TokenController.set_numRemainingUpdates numRemainingUpdates
      controllerToken in
  let layerUpdate :=
    LayerUpdate.mk (toString tokenId ++ "-" ++ toString newNumberOfUpdates)
      newNumberOfUpdates gasPrice gasUsed (gasPrice * gasUsed) priorityTip
      (TokenController.id controllerToken) [] in
  layerUpdate ←
    foldM (updateLever tokenId leverIds previousValues updatedValues)
      layerUpdate (seq 0 (length previousValues));
  LayerUpdate_save layerUpdate;;
  TokenController_save controllerToken.

Definition handleTokenSale (event : Event TokenSale.t) : M unit :=
  let txTimestamp := timestamp (block event) in
  let tokenId := TokenSale.tokenId (params event) in
  let salePrice := TokenSale.salePrice (params event) in
  let _buyer := TokenSale.buyer (params event) in
  let asyncContract := address event in
  refreshGlobalState asyncContract;;
  buyer ← createOrFetchUserString (toHexString _buyer);
  token' ← getOrInitialiseToken asyncContract tokenId;
  token ← deref token';
  seller ← User_load (Token.owner token);
  (if token' is None then log_critical "Token should be defined"
   else mret tt);;
  let tokenSaleNumber := Token.numberOfSales token + 1 in
  seller ← deref seller;
  let sale :=
    Sale.mk (toString tokenId ++ "-" ++ toString tokenSaleNumber)
      (Token.id token) (User.id buyer) (User.id seller) salePrice txTimestamp
      tokenSaleNumber false None in
  bid ← Bid_load (Token.currentBid token);
  sale ←
    match bid with
    | None => log_info "No bid exists";; mret sale
    | Some bid =>
        let '(bid, sale) :=
          if bidMatchesSale bid salePrice _buyer
          then (Bid.set_bidAccepted true bid,
                Sale.set_bidDetails (Some (Bid.id bid))
                  (Sale.set_isBidSale true sale))
          else (bid, sale) in
        let bid := Bid.set_bidActive false bid in
        Bid_save bid;; mret sale
    end;
  let token := Token.set_owner (User.id buyer) token in
  let token := Token.set_lastSalePrice salePrice token in
  let token := Token.set_currentBuyPrice 0 token in
  let token := Token.set_numberOfSales (Token.numberOfSales token + 1) token in
  let token := Token.set_tokenDidHaveFirstSale true token in
  let token := Token.set_currentBid None token in
  let possiblePermissionedAddress :=
    getPermissionedAddress asyncContract tokenId _buyer in
  let token :=
    Token.set_permissionedAddress possiblePermissionedAddress token in
  let buyer :=
    if Token.isMaster token
    then User.set_ownedMasters
           (User.ownedMasters buyer ++ [Token.id token ++ "-Master"]) buyer
    else User.set_ownerControllers
           (User.ownerControllers buyer ++ [Token.id token ++ "-Controller"])
           buyer in
  let buyer := User.set_buys (User.buys buyer ++ [Sale.id sale]) buyer in
  let seller := User.set_sells (User.sells seller ++ [Sale.id sale]) seller in
  User_save buyer;;
  User_save seller;;
  Sale_save sale;;
  Token_save token;;
  linkMasterAndControllers tokenId.

End Handlers.

(** ** Predicates and sample data used in the statements *)

(** Users and tokens sit under their own ids. *)
Definition wfUsers (s : Store) : Prop :=
  map_Forall (λ k u, User.id u = k) (users s).
Definition wfTokens (s : Store) : Prop :=
  map_Forall (λ k t, Token.id t = k) (tokens s).

(** Token 6, first owned by 0xu1 and sold once to 0xu2, with a bid of
    0xu1 to buy it back. *)
Definition demoToken : Token.t :=
  Token.mk "6" "0xu2" 0 (Some "6-0xb1") None 100 1 true false 10 1.
Definition demoSeller : User.t :=
  User.mk "0xu2" [] ["6-1"] [] [] ["6-Controller"].
Definition demoBid : Bid.t :=
  Bid.mk "6-0xb1" "6" 120 "0xu1" 2 true false None.
Definition demoWorld : World :=
  mkWorld
    (mkStore None
       (<["0xu1" := User.mk "0xu1" ["6-0xb1"] [] ["6-1"] [] ["6-Controller"]]>
          (<["0xu2" := demoSeller]> ∅))
       (<["6" := demoToken]> ∅)
       ∅ ∅ ∅
       (<["6-0xb1" := demoBid]> ∅)
       (<["6-1" := Sale.mk "6-1" "6" "0xu2" "0xu1" 100 5 1 false None]> ∅))
    [].

End Legacy.

(** * Proofs *)

Local Open Scope list_scope.

(** ** Stepping through monadic code *)

Ltac munfold :=
  unfold exec, refreshGlobalState, getOrInitialiseGlobalState,
    getOrInitialiseToken, createOrFetchUserString, getPermissionedAddress,
    Token_load, User_load, Bid_load, TokenController_load,
    TokenControlLever_load, load, GlobalState_load, GlobalState_save,
    Token_save, User_save, Bid_save, Sale_save, TokenTransfer_save,
    TokenController_save, TokenControlLever_save, LayerUpdate_save,
    write, applyWrite, get_store, log_warning, log_info, log_critical, abort, deref,
    index, BigInt_div,
    mbind, M_mbind, M_bind, mret, M_mret, M_ret in *; cbn in *.

Lemma Store_eta (s : Store) :
  s = mkStore (globalState s) (users s) (tokens s) (tokenControllers s)
        (tokenControlLevers s) (layerUpdates s) (bids s) (sales s)
        (tokenTransfers s) (masterLayers s) (controllerMaster s).
Proof. by destruct s. Qed.

(** ** The journal accounts for every change of the store *)

Lemma journaled_ret {A} (a : A) : journaled (mret a).
Proof.
  intros w ? ? [= <- <-]. exists []. by rewrite app_nil_r.
Qed.

Lemma journaled_bind {A B} (m : M A) (f : A → M B) :
  journaled m → (∀ a, journaled (f a)) → journaled (m ≫= f).
Proof.
  intros Hm Hf w b w'. unfold mbind, M_mbind, M_bind.
  destruct (m w) as [[a w1]|] eqn:H1; [|done]. intros H2.
  destruct (Hm _ _ _ H1) as (j1 & Hj1 & Hs1).
  destruct (Hf a _ _ _ H2) as (j2 & Hj2 & Hs2).
  exists (j1 ++ j2). rewrite Hj2, Hj1, Hs2, Hs1, app_assoc.
  split; [done|]. unfold replay. by rewrite foldl_app.
Qed.

Lemma journaled_write wr : journaled (write wr).
Proof. intros w ? ? [= <- <-]. by exists [wr]. Qed.

Lemma journaled_pure {A} (m : M A) :
  (∀ w a w', m w = Ok (a, w') →
     store w' = store w ∧ journal w' = journal w) →
  journaled m.
Proof.
  intros H w a w' Hrun. destruct (H _ _ _ Hrun) as [-> ->].
  exists []. by rewrite app_nil_r.
Qed.

Lemma journaled_abort {A} e : journaled (@abort A e).
Proof. by intros w a w'. Qed.

Lemma journaled_get_store : journaled get_store.
Proof. apply journaled_pure. by intros w ? ? [= <- <-]. Qed.

Lemma journaled_log_info msg : journaled (log_info msg).
Proof. apply journaled_pure. by intros w ? ? [= <- <-]. Qed.

Lemma journaled_log_warning msg : journaled (log_warning msg).
Proof. apply journaled_pure. by intros w ? ? [= <- <-]. Qed.

Lemma journaled_forEach {A} (f : A → M unit) l :
  (∀ x, journaled (f x)) → journaled (forEach f l).
Proof.
  intros Hf. induction l as [|x l IH]; cbn.
  - apply journaled_ret.
  - apply journaled_bind; [apply Hf|by intros _].
Qed.

Lemma journaled_foldM {A B} (f : B → A → M B) l : ∀ b,
  (∀ b x, journaled (f b x)) → journaled (foldM f b l).
Proof.
  induction l as [|x l IH]; intros b Hf; cbn.
  - apply journaled_ret.
  - apply journaled_bind; [apply Hf|]. intros b'. by apply IH.
Qed.

Ltac journaled_step :=
  first
    [ apply journaled_ret
    | apply journaled_write
    | apply journaled_abort
    | apply journaled_get_store
    | apply journaled_log_info
    | apply journaled_log_warning
    | apply journaled_forEach; intros
    | apply journaled_foldM; intros
    | apply journaled_bind; [|intros]
    | match goal with
      | |- journaled (match ?x with _ => _ end) => destruct x
      | |- journaled (let _ := _ in _) => cbv zeta
      end ].

Ltac journaled_tac :=
  unfold refreshGlobalState, getOrInitialiseGlobalState,
    getOrInitialiseToken, createOrFetchUserString, trySetMasterLayers,
    linkMasterAndControllers, linkController, createTokensFromMasterTokenId,
    createChild, createLever, updateLever, nextAverageUpdateCost,
    Token_load, User_load, Bid_load, TokenController_load,
    TokenControlLever_load, load, GlobalState_load, GlobalState_save,
    Token_save, User_save, Bid_save, Sale_save, TokenTransfer_save,
    TokenController_save, TokenControlLever_save, LayerUpdate_save,
    log_critical, deref, index, BigInt_div;
  repeat journaled_step.

Lemma handle_journaled ev : journaled (handle ev).
Proof.
  destruct ev; cbn;
    unfold handleArtistSecondSalePercentUpdated, handleBidProposed,
      handleBidWithdrawn, handleBuyPriceSet, handleControlLeverUpdated,
      handleCreatorWhitelisted, handlePermissionUpdated,
      handlePlatformAddressUpdated, handlePlatformSalePercentageUpdated,
      handleTokenSale, handleTransfer;
    journaled_tac.
Qed.

Lemma run_journaled evs : ∀ w w',
  run evs w = Ok w' →
  ∃ j, journal w' = journal w ++ j ∧ store w' = replay j (store w).
Proof.
  induction evs as [|ev evs IH]; intros w w'; cbn.
  - intros [= <-]. exists []. by rewrite app_nil_r.
  - unfold exec. destruct (handle ev w) as [[[] w1]|] eqn:H1; [|done].
    intros H2. destruct (handle_journaled ev _ _ _ H1) as (j1 & Hj1 & Hs1).
    destruct (IH _ _ H2) as (j2 & Hj2 & Hs2).
    exists (j1 ++ j2). rewrite Hj2, Hj1, Hs2, Hs1, app_assoc.
    split; [done|]. unfold replay. by rewrite foldl_app.
Qed.

(** ** Invariants at every single write *)

Lemma stepsKeep_first I j s : stepsKeep I j s → I s.
Proof. destruct j; by intros [? _]. Qed.

Lemma stepsKeep_last I j : ∀ s, stepsKeep I j s → I (replay j s).
Proof.
  induction j as [|wr j IH]; intros s [Hs Hj]; [done|]. by apply IH.
Qed.

Lemma stepsKeep_app I j1 : ∀ j2 s,
  stepsKeep I j1 s → stepsKeep I j2 (replay j1 s) → stepsKeep I (j1 ++ j2) s.
Proof.
  induction j1 as [|wr j1 IH]; intros j2 s [Hs H1] H2; [done|].
  split; [done|]. by apply IH.
Qed.

Lemma stepsKeep_prefix I j1 : ∀ j2 s,
  stepsKeep I (j1 ++ j2) s → I (replay j1 s).
Proof.
  induction j1 as [|wr j1 IH]; intros j2 s H.
  - by apply stepsKeep_first in H.
  - destruct H as [_ H]. by apply (IH j2).
Qed.

Lemma keeps_ret I {A} (a : A) (Q : A → World → Prop) w :
  Q a w → keeps I (mret a) Q w.
Proof.
  intros HQ HI. exists []. by rewrite app_nil_r.
Qed.

Lemma keeps_bind I {A B} (m : M A) (f : A → M B) (Q : B → World → Prop) w :
  keeps I m (λ a w1, keeps I (f a) Q w1) w → keeps I (m ≫= f) Q w.
Proof.
  unfold keeps, mbind, M_mbind, M_bind. intros Hm HI. specialize (Hm HI).
  destruct (m w) as [[a w1]|]; [|done].
  destruct Hm as (j1 & Hj1 & Hs1 & Hk1 & Hf).
  assert (I (store w1)) as HI1 by (rewrite Hs1; by apply stepsKeep_last).
  specialize (Hf HI1). destruct (f a w1) as [[b w2]|]; [|done].
  destruct Hf as (j2 & Hj2 & Hs2 & Hk2 & HQ).
  exists (j1 ++ j2). rewrite Hj2, Hj1, Hs2, Hs1, app_assoc.
  split; [done|]. split; [unfold replay; by rewrite foldl_app|].
  split; [|done]. apply stepsKeep_app; [done|]. by rewrite <- Hs1.
Qed.

Lemma keeps_write I wr (Q : unit → World → Prop) w :
  (I (store w) → I (applyWrite wr (store w))) →
  Q tt (mkWorld (applyWrite wr (store w)) (journal w ++ [wr]) (logs w)) →
  keeps I (write wr) Q w.
Proof.
  intros Hwr HQ HI. exists [wr]. cbn.
  split; [done|]. split; [done|]. split; [|done].
  split; [done|]. split; [by apply Hwr|done].
Qed.

Lemma keeps_abort I {A} e (Q : A → World → Prop) w : keeps I (abort e) Q w.
Proof. by intros HI. Qed.

Lemma keeps_get_store I (Q : Store → World → Prop) w :
  Q (store w) w → keeps I get_store Q w.
Proof. intros HQ HI. exists []. by rewrite app_nil_r. Qed.

Lemma keeps_log_info I msg (Q : unit → World → Prop) w :
  Q tt (mkWorld (store w) (journal w) (logs w ++ [(LInfo, msg)])) →
  keeps I (log_info msg) Q w.
Proof. intros HQ HI. exists []. by rewrite app_nil_r. Qed.

Lemma keeps_log_warning I msg (Q : unit → World → Prop) w :
  Q tt (mkWorld (store w) (journal w) (logs w ++ [(LWarning, msg)])) →
  keeps I (log_warning msg) Q w.
Proof. intros HQ HI. exists []. by rewrite app_nil_r. Qed.

Lemma keeps_mono I {A} (m : M A) (Q Q' : A → World → Prop) w :
  (∀ a w', Q a w' → Q' a w') → keeps I m Q w → keeps I m Q' w.
Proof.
  intros HQ Hm HI. specialize (Hm HI). destruct (m w) as [[a w']|]; [|done].
  destruct Hm as (j & ? & ? & ? & ?). exists j. by auto.
Qed.

(** Loops whose body keeps [I] keep [I]. *)
Lemma keeps_forEach I {A} (f : A → M unit) l :
  (∀ x w, keeps I (f x) (λ _ _, True) w) →
  ∀ w, keeps I (forEach f l) (λ _ _, True) w.
Proof.
  intros Hf. induction l as [|x l IH]; intros w; cbn.
  - by apply keeps_ret.
  - apply keeps_bind. eapply keeps_mono; [|apply Hf]. intros _ w1 _. apply IH.
Qed.

Lemma keeps_foldM I {A B} (f : B → A → M B) l :
  (∀ b x w, keeps I (f b x) (λ _ _, True) w) →
  ∀ b w, keeps I (foldM f b l) (λ _ _, True) w.
Proof.
  intros Hf. induction l as [|x l IH]; intros b w; cbn.
  - by apply keeps_ret.
  - apply keeps_bind. eapply keeps_mono; [|apply Hf]. intros b1 w1 _. apply IH.
Qed.


Lemma keeps_frame I {A} (m : M A) (Q : A → World → Prop) w :
  keeps I m (λ _ _, True) w →
  (∀ a w1, m w = Ok (a, w1) → Q a w1) → keeps I m Q w.
Proof.
  intros Hm HQ HI. specialize (Hm HI).
  destruct (m w) as [[a w1]|] eqn:E; [|done].
  destruct Hm as (j & ? & ? & ? & _). exists j. by auto.
Qed.

(** ** The linkage reconciler *)

Lemma trySetMasterLayers_spec w :
  ∃ w', trySetMasterLayers w = Ok (tt, w') ∧
    ∃ ml j, store w' = with_masterLayers ml (store w) ∧
      journal w' = journal w ++ j ∧ layersSettled (store w').
Proof.
  unfold trySetMasterLayers, layersSettled. munfold.
  destruct (globalState (store w)) as [g|] eqn:Hg; cbn.
  - destruct (tokens (store w) !! _) as [master|] eqn:Hm; cbn.
    + fold (derivedLayers (store w) g). case_decide as Hd; cbn.
      * eexists; split; [done|]. exists (masterLayers (store w)), []. cbn.
        rewrite app_nil_r, Hg, Hm.
        split; [by destruct (store w)|done].
      * eexists; split; [done|]. eexists _, _. cbn.
        split; [done|]. split; [done|].
        rewrite Hg, Hm. by rewrite lookup_insert_eq.
    + eexists; split; [done|]. exists (masterLayers (store w)), []. cbn.
      rewrite app_nil_r, Hg, Hm. split; [by destruct (store w)|done].
  - eexists; split; [done|]. exists (masterLayers (store w)), []. cbn.
    rewrite app_nil_r, Hg. split; [by destruct (store w)|done].
Qed.

Lemma trySetMasterLayers_settled w :
  layersSettled (store w) →
  ∃ w', trySetMasterLayers w = Ok (tt, w') ∧
    store w' = store w ∧ journal w' = journal w.
Proof.
  unfold trySetMasterLayers, layersSettled. munfold.
  destruct (globalState (store w)) as [g|]; cbn; [|by eauto].
  destruct (tokens (store w) !! _) as [master|]; cbn; [|by eauto].
  fold (derivedLayers (store w) g). intros H.
  rewrite decide_True by done. by eauto.
Qed.

Lemma linkController_spec m x w :
  ∃ w', linkController m x w = Ok (tt, w') ∧
    ∃ cm j, store w' = with_controllerMaster cm (store w) ∧
      journal w' = journal w ++ j ∧
      (∀ k, cm !! k = controllerMaster (store w) !! k ∨ cm !! k = Some m) ∧
      (∀ c, tokenControllers (store w) !! controllerId x = Some c →
            cm !! TokenController.id c = Some m).
Proof.
  unfold linkController. munfold.
  destruct (tokenControllers (store w) !! controllerId x) as [c|]; cbn.
  - case_decide as Hd; cbn.
    + eexists; split; [done|]. exists (controllerMaster (store w)), []. cbn.
      rewrite app_nil_r. split; [by destruct (store w)|].
      split; [done|]. split; [by left|]. by intros ? [= <-].
    + eexists; split; [done|]. eexists _, _. cbn.
      split; [done|]. split; [done|]. split.
      * intros k. destruct (decide (TokenController.id c = k)) as [->|].
        -- right. by rewrite lookup_insert_eq.
        -- left. by rewrite lookup_insert_ne.
      * intros ? [= <-]. by rewrite lookup_insert_eq.
  - eexists; split; [done|]. exists (controllerMaster (store w)), []. cbn.
    rewrite app_nil_r. split; [by destruct (store w)|].
    split; [done|]. split; [by left|]. done.
Qed.

Lemma forEach_link_spec m l w :
  ∃ w', forEach (linkController m) l w = Ok (tt, w') ∧
    ∃ cm j, store w' = with_controllerMaster cm (store w) ∧
      journal w' = journal w ++ j ∧
      (∀ k, cm !! k = controllerMaster (store w) !! k ∨ cm !! k = Some m) ∧
      (∀ x c, x ∈ l →
         tokenControllers (store w) !! controllerId x = Some c →
         cm !! TokenController.id c = Some m).
Proof.
  revert w. induction l as [|x l IH]; intros w; cbn.
  - eexists; split; [done|]. exists (controllerMaster (store w)), [].
    rewrite app_nil_r. split; [by destruct (store w)|].
    split; [done|]. split; [by left|]. intros ?? Hin. by inversion Hin.
  - destruct (linkController_spec m x w)
      as (w1 & Hrun1 & cm1 & j1 & Hs1 & Hj1 & Hold1 & Hnew1).
    destruct (IH w1) as (w2 & Hrun2 & cm2 & j2 & Hs2 & Hj2 & Hold2 & Hnew2).
    exists w2. split.
    { unfold mbind, M_mbind, M_bind. by rewrite Hrun1. }
    exists cm2, (j1 ++ j2). rewrite Hs2, Hs1, Hj2, Hj1, app_assoc.
    rewrite Hs1 in Hold2, Hnew2. cbn in *.
    split; [done|]. split; [done|]. split.
    + intros k. destruct (Hold2 k) as [->|]; [apply Hold1|by right].
    + intros y c [->|Hin]%elem_of_cons Hc; [|by eapply Hnew2].
      destruct (Hold2 (TokenController.id c)) as [->|]; [by apply Hnew1|done].
Qed.

Lemma forEach_link_settled m l w :
  (∀ x c, x ∈ l →
     tokenControllers (store w) !! controllerId x = Some c →
     controllerMaster (store w) !! TokenController.id c = Some m) →
  ∃ w', forEach (linkController m) l w = Ok (tt, w') ∧
    store w' = store w ∧ journal w' = journal w.
Proof.
  revert w. induction l as [|x l IH]; intros w H; cbn; [by eauto|].
  assert (∃ w1, linkController m x w = Ok (tt, w1) ∧
            store w1 = store w ∧ journal w1 = journal w)
    as (w1 & Hrun1 & Hs1 & Hj1).
  { unfold linkController. munfold.
    destruct (tokenControllers (store w) !! controllerId x) as [c|] eqn:Hc;
      cbn; [|by eauto].
    rewrite decide_True; [by eauto|]. apply (H x); [left|done]. }
  destruct (IH w1) as (w2 & Hrun2 & Hs2 & Hj2).
  { rewrite Hs1. intros y c Hin. apply H. by right. }
  exists w2. unfold mbind, M_mbind, M_bind. rewrite Hrun1.
  split; [done|]. by rewrite Hs2, Hj2.
Qed.

Lemma linkMasterAndControllers_spec w :
  ∃ w', linkMasterAndControllers w = Ok (tt, w') ∧
    ∃ cm j, store w' = with_controllerMaster cm (store w) ∧
      journal w' = journal w ++ j ∧ linksSettled (store w').
Proof.
  unfold linkMasterAndControllers, linksSettled. munfold.
  destruct (globalState (store w)) as [g|] eqn:Hg; cbn.
  - destruct (forEach_link_spec
                (toString (GlobalState.latestMasterTokenId g))
                (childTokenIds g) w)
      as (w' & Hrun & cm & j & Hs & Hj & _ & Hnew).
    exists w'. split; [done|]. exists cm, j. rewrite Hs. cbn.
    rewrite Hg. eauto.
  - eexists; split; [done|]. exists (controllerMaster (store w)), []. cbn.
    rewrite app_nil_r, Hg. split; [by destruct (store w)|done].
Qed.

Lemma linkMasterAndControllers_settled w :
  linksSettled (store w) →
  ∃ w', linkMasterAndControllers w = Ok (tt, w') ∧
    store w' = store w ∧ journal w' = journal w.
Proof.
  unfold linkMasterAndControllers, linksSettled. munfold.
  destruct (globalState (store w)) as [g|]; cbn; [|by eauto].
  apply forEach_link_settled.
Qed.

(** What every handler's closing reconciliation amounts to: it always
    returns, and touches nothing but the derived linkage. *)
Lemma reconcile_tail w :
  ∃ w', match trySetMasterLayers w with
        | Ok (_, w1) => linkMasterAndControllers w1
        | Err e => Err e
        end = Ok (tt, w') ∧
    ∃ ml cm j,
      store w' = with_controllerMaster cm (with_masterLayers ml (store w)) ∧
      journal w' = journal w ++ j ∧
      layersSettled (store w') ∧ linksSettled (store w').
Proof.
  destruct (trySetMasterLayers_spec w)
    as (w1 & -> & ml & j1 & Hs1 & Hj1 & Hset1).
  destruct (linkMasterAndControllers_spec w1)
    as (w2 & -> & cm & j2 & Hs2 & Hj2 & Hset2).
  exists w2. split; [done|]. exists ml, cm, (j1 ++ j2).
  rewrite Hj2, Hj1, app_assoc. split; [by rewrite Hs2, Hs1|].
  split; [done|]. split; [|done]. rewrite Hs2. revert Hset1.
  unfold layersSettled, derivedLayers. by cbn.
Qed.

(** C8 (modelled reconciler): reconciliation is idempotent.  From every
    world the reconciler returns, and running it a second time right
    afterwards issues no store write and leaves the persisted store exactly
    as the first run left it. *)
Theorem reconcile_idempotent (w : World) :
  ∃ w1 w2,
    exec reconcile w = Ok w1 ∧ exec reconcile w1 = Ok w2 ∧
    store w2 = store w1 ∧ journal w2 = journal w1.
Proof.
  unfold exec, reconcile, mbind, M_mbind, M_bind.
  destruct (reconcile_tail w) as (w1 & -> & _ & _ & _ & _ & _ & Hl & Hc).
  exists w1.
  destruct (trySetMasterLayers_settled w1 Hl) as (w1' & -> & Hs1 & Hj1).
  destruct (linkMasterAndControllers_settled w1') as (w2 & -> & Hs2 & Hj2).
  { by rewrite Hs1. }
  exists w2. repeat split; congruence.
Qed.

(** ** What each handler does to the store *)

Ltac tail H :=
  match type of H with
  | context [trySetMasterLayers ?W] =>
      let wr := fresh "wr" in
      let Hr := fresh "Hr" in
      destruct (reconcile_tail W) as (wr & Hr & ? & ? & ? & ? & ? & _);
      rewrite Hr in H
  end.

Ltac tail_goal :=
  match goal with
  | |- context [trySetMasterLayers ?W] =>
      let wr := fresh "wr" in
      let Hr := fresh "Hr" in
      let Hs := fresh "Hs" in
      let Hj := fresh "Hj" in
      destruct (reconcile_tail W) as (wr & Hr & ? & ? & ? & Hs & Hj & _);
      rewrite Hr; cbn in Hs, Hj
  end.

Lemma handleBidProposed_effect (e : Event BidProposed.t) (w : World) :
  let tid := BidProposed.tokenId (params e) in
  let newid := bidKey tid (hash (transaction e)) in
  ∃ w', exec (handleBidProposed e) w = Ok w' ∧
    sales (store w') = sales (store w) ∧
    tokenControllers (store w') = tokenControllers (store w) ∧
    match tokens (store w) !! toString tid with
    | None =>
        tokens (store w') = tokens (store w) ∧
        bids (store w') = bids (store w) ∧
        logs w' = logs w ++ [(LWarning, "Bid on token that doesn't exist")]
    | Some token =>
        match loadedBid (store w) token with
        | Some old =>
            bids (store w')
            = <[newid := proposedBid e (store w)]>
                (<[Bid.id old := Bid.set_bidActive false old]>
                   (bids (store w))) ∧
            tokens (store w')
            = <[Token.id token :=
                  Token.set_currentBid (Some newid)
                    (Token.set_pastBids
                       (Token.pastBids token ++ [Bid.id old]) token)]>
                (tokens (store w)) ∧
            ∃ j1 j2 j3,
              journal w'
              = journal w ++ j1 ++ [WBid (Bid.set_bidActive false old)]
                ++ j2
                ++ [WToken
                      (Token.set_currentBid (Some newid)
                         (Token.set_pastBids
                            (Token.pastBids token ++ [Bid.id old]) token));
                    WBid (proposedBid e (store w))] ++ j3
        | None =>
            bids (store w')
            = <[newid := proposedBid e (store w)]> (bids (store w)) ∧
            tokens (store w')
            = <[Token.id token := Token.set_currentBid (Some newid) token]>
                (tokens (store w))
        end
    end.
Proof.
  intros tid newid. subst tid newid.
  unfold handleBidProposed, loadedBid, proposedBid, fetchedUser, bidKey.
  munfold.
  destruct (globalState (store w)) as [g|];
    destruct (users (store w) !! _) as [u|]; cbn;
    destruct (tokens (store w) !! _) as [token|]; cbn;
    try (eexists; split; [done|]; by cbn);
    destruct (option_bind _ _ _ _) as [old|]; cbn;
    tail_goal; (eexists; split; [done|]);
    rewrite Hs, ?Hj; cbn; (split; [done|]); (split; [done|]);
    (split; [done|]); try done; (split; [done|]);
    rewrite <- !app_assoc;
    first [ by eexists [_], [_], _ | by eexists [_; _], [_], _ ].
Qed.

Lemma handleBidWithdrawn_effect (e : Event BidWithdrawn.t) (w : World) :
  let tid := BidWithdrawn.tokenId (params e) in
  match tokens (store w) !! toString tid with
  | None =>
      exec (handleBidWithdrawn e) w = Err (Critical "Token should be defined")
  | Some token =>
      ∃ w', exec (handleBidWithdrawn e) w = Ok w' ∧
        sales (store w') = sales (store w) ∧
        tokenControllers (store w') = tokenControllers (store w) ∧
        match loadedBid (store w) token with
        | None =>
            tokens (store w') = tokens (store w) ∧
            bids (store w') = bids (store w) ∧
            logs w' = logs w ++ [(LWarning, "Bid should be defined")] ∧
            ∃ g, journal w' = journal w ++ [WGlobalState g]
        | Some bid =>
            bids (store w')
            = <[Bid.id bid :=
                  Bid.set_BidWithdrawnTimestamp (Some (timestamp (block e)))
                    (Bid.set_bidActive false bid)]> (bids (store w)) ∧
            tokens (store w')
            = <[Token.id token :=
                  Token.set_pastBids (Token.pastBids token ++ [Bid.id bid])
                    token]> (tokens (store w))
        end
  end.
Proof.
  intros tid. subst tid. unfold handleBidWithdrawn, loadedBid. munfold.
  destruct (globalState (store w)) as [g|]; cbn;
    destruct (tokens (store w) !! _) as [token|]; cbn; try done;
    destruct (option_bind _ _ _ _) as [old|]; cbn;
    (eexists; split; [done|]); cbn; repeat (split; [done|]);
    by eauto.
Qed.

Lemma handleBuyPriceSet_effect (e : Event BuyPriceSet.t) (w : World) :
  let tid := BuyPriceSet.tokenId (params e) in
  ∃ w', exec (handleBuyPriceSet e) w = Ok w' ∧
    bids (store w') = bids (store w) ∧
    sales (store w') = sales (store w) ∧
    tokenControllers (store w') = tokenControllers (store w) ∧
    match tokens (store w) !! toString tid with
    | None =>
        tokens (store w') = tokens (store w) ∧
        logs w' = logs w ++ [(LWarning, "Token should be defined")]
    | Some token =>
        tokens (store w')
        = <[Token.id token :=
              Token.set_currentBuyPrice (BuyPriceSet.price (params e)) token]>
            (tokens (store w))
    end.
Proof.
  intros tid. subst tid. unfold handleBuyPriceSet. munfold.
  destruct (globalState (store w)) as [g|]; cbn;
    destruct (tokens (store w) !! _) as [token|]; cbn;
    try (eexists; split; [done|]; by cbn);
    tail_goal; (eexists; split; [done|]); by rewrite Hs.
Qed.

Lemma handlePermissionUpdated_effect (e : Event PermissionUpdated.t)
  (w : World) :
  let tid := PermissionUpdated.tokenId (params e) in
  match tokens (store w) !! toString tid with
  | None =>
      exec (handlePermissionUpdated e) w
      = Err (Critical "Token should be defined")
  | Some token =>
      ∃ w', exec (handlePermissionUpdated e) w = Ok w' ∧
        bids (store w') = bids (store w) ∧
        sales (store w') = sales (store w) ∧
        tokenControllers (store w') = tokenControllers (store w) ∧
        tokens (store w')
        = if decide (toHex (PermissionUpdated.tokenOwner (params e))
                     = Token.owner token)
          then <[Token.id token :=
                   Token.set_permissionedAddress
                     (Some (PermissionUpdated.permissioned (params e)))
                     token]> (tokens (store w))
          else tokens (store w)
  end.
Proof.
  intros tid. subst tid. unfold handlePermissionUpdated. munfold.
  destruct (globalState (store w)) as [g|]; cbn;
    destruct (tokens (store w) !! _) as [token|]; cbn; try done;
    case_decide; cbn;
    tail_goal; (eexists; split; [done|]); by rewrite Hs.
Qed.

Lemma handlePlatformSalePercentageUpdated_effect
  (e : Event PlatformSalePercentageUpdated.t) (w : World) :
  let tid := PlatformSalePercentageUpdated.tokenId (params e) in
  match tokens (store w) !! toString tid with
  | None =>
      exec (handlePlatformSalePercentageUpdated e) w
      = Err (Critical "Token should be defined")
  | Some token =>
      ∃ w', exec (handlePlatformSalePercentageUpdated e) w = Ok w' ∧
        bids (store w') = bids (store w) ∧
        sales (store w') = sales (store w) ∧
        tokenControllers (store w') = tokenControllers (store w) ∧
        tokens (store w')
        = <[Token.id token :=
              Token.set_platformSecondSalePercentage
                (PlatformSalePercentageUpdated.platformSecondPercentage
                   (params e))
                (Token.set_platformFirstSalePercentage
                   (PlatformSalePercentageUpdated.platformFirstPercentage
                      (params e)) token)]> (tokens (store w))
  end.
Proof.
  intros tid. subst tid. unfold handlePlatformSalePercentageUpdated. munfold.
  destruct (globalState (store w)) as [g|]; cbn;
    destruct (tokens (store w) !! _) as [token|]; cbn; try done;
    tail_goal; (eexists; split; [done|]); by rewrite Hs.
Qed.

Lemma handleGlobalOnly_effect (ev : AnyEvent) (w : World) :
  match ev with
  | EArtistSecondSalePercentUpdated _ | EPlatformAddressUpdated _ => True
  | _ => False
  end →
  ∃ w', exec (handle ev) w = Ok w' ∧
    tokens (store w') = tokens (store w) ∧
    bids (store w') = bids (store w) ∧
    sales (store w') = sales (store w) ∧
    tokenControllers (store w') = tokenControllers (store w).
Proof.
  destruct ev; try done; intros _; cbn;
    unfold handleArtistSecondSalePercentUpdated,
      handlePlatformAddressUpdated; munfold;
    destruct (globalState (store w)); cbn;
    (eexists; split; [done|]); by cbn.
Qed.

Lemma handleTransfer_effect (e : Event Transfer.t) (w : World) :
  let tid := Transfer.tokenId (params e) in
  match tokens (store w) !! toString tid with
  | None =>
      exec (handleTransfer e) w = Err (Critical "Token should be defined")
  | Some token =>
      ∃ w' token', exec (handleTransfer e) w = Ok w' ∧
        bids (store w') = bids (store w) ∧
        sales (store w') = sales (store w) ∧
        tokenControllers (store w') = tokenControllers (store w) ∧
        tokens (store w') = <[Token.id token := token']> (tokens (store w)) ∧
        Token.id token' = Token.id token ∧
        Token.currentBuyPrice token' = 0 ∧
        Token.currentBid token' = Token.currentBid token ∧
        Token.pastBids token' = Token.pastBids token ∧
        Token.numberOfSales token' = Token.numberOfSales token ∧
        Token.allSales token' = Token.allSales token ∧
        Token.owner token'
        = User.id (fetchedUser (toHexString (Transfer.to (params e)))
                     (store w))
  end.
Proof.
  intros tid. subst tid. unfold handleTransfer, fetchedUser. munfold.
  destruct (globalState (store w)) as [g|]; cbn;
    destruct (users (store w) !! toHexString (Transfer.to (params e)))
      as [u|] eqn:Hu; cbn;
    destruct (tokens (store w) !! _) as [token|]; cbn;
    try (by destruct (_ !! toHexString (Transfer.from (params e))));
    destruct (_ !! toHexString (Transfer.from (params e))); cbn;
    tail_goal; (eexists _, _; split; [done|]); rewrite Hs; cbn;
    by repeat split.
Qed.

Lemma handleTokenSale_effect (e : Event TokenSale.t) (w : World) :
  let tid := TokenSale.tokenId (params e) in
  let price := TokenSale.salePrice (params e) in
  let _buyer := TokenSale.buyer (params e) in
  let s := store w in
  match tokens s !! toString tid with
  | None => exec (handleTokenSale e) w = Err NullReference
  | Some token =>
      match usersWith (toHexString _buyer) s !! Token.owner token with
      | None => exec (handleTokenSale e) w = Err NullReference
      | Some seller =>
          let key := saleKey tid (Token.numberOfSales token + 1) in
          ∃ w' sale token', exec (handleTokenSale e) w = Ok w' ∧
            tokenControllers (store w') = tokenControllers s ∧
            sales (store w') = <[key := sale]> (sales s) ∧
            tokens (store w') = <[Token.id token := token']> (tokens s) ∧
            Sale.id sale = key ∧
            Sale.tokenDetails sale = Token.id token ∧
            Sale.tokenSaleNumber sale = Token.numberOfSales token + 1 ∧
            Sale.salePrice sale = price ∧
            Sale.buyer sale = User.id (fetchedUser (toHexString _buyer) s) ∧
            Sale.seller sale = User.id seller ∧
            Token.id token' = Token.id token ∧
            Token.numberOfSales token' = Token.numberOfSales token + 1 ∧
            Token.allSales token' = Token.allSales token ++ [key] ∧
            Token.currentBid token' = None ∧
            Token.currentBuyPrice token' = 0 ∧
            Token.owner token'
            = User.id (fetchedUser (toHexString _buyer) s) ∧
            match loadedBid s token with
            | None =>
                bids (store w') = bids s ∧
                Sale.isBidSale sale = false ∧
                Sale.bidDetails sale = None ∧
                Token.pastBids token' = Token.pastBids token
            | Some bid =>
                bids (store w')
                = <[Bid.id bid :=
                      Bid.set_bidActive false
                        (if bidMatchesSale bid price _buyer
                         then Bid.set_bidAccepted true bid else bid)]>
                    (bids s) ∧
                Sale.isBidSale sale = bidMatchesSale bid price _buyer ∧
                Sale.bidDetails sale
                = (if bidMatchesSale bid price _buyer
                   then Some (Bid.id bid) else None) ∧
                Token.pastBids token' = Token.pastBids token ++ [Bid.id bid]
            end
      end
  end.
Proof.
  intros tid price _buyer s. subst tid price _buyer s.
  unfold handleTokenSale, fetchedUser, usersWith, loadedBid, saleKey.
  munfold.
  destruct (globalState (store w)) as [g|]; cbn;
    destruct (users (store w) !! toHexString (TokenSale.buyer (params e)))
      as [u|] eqn:Hu; cbn;
    destruct (tokens (store w) !! _) as [token|]; cbn; try done;
    destruct (_ !! Token.owner token) as [seller|]; cbn; try done;
    destruct (option_bind _ _ _ _) as [bid|]; cbn;
    try destruct (bidMatchesSale bid _ _); cbn;
    tail_goal; (eexists _, _, _; split; [done|]); rewrite Hs; cbn;
    by repeat split.
Qed.

Lemma updateLever_frame tid ls ps us lu i w lu' w' :
  updateLever tid ls ps us lu i w = Ok (lu', w') →
  ∃ lv, store w' = with_tokenControlLevers lv (store w) ∧
    LayerUpdate.id lu' = LayerUpdate.id lu ∧ logs w' = logs w.
Proof.
  unfold updateLever. munfold.
  destruct (ls !! i); cbn; [|done].
  destruct (ps !! i); cbn; [|done].
  destruct (tokenControlLevers (store w) !! _); cbn; [|done].
  destruct (us !! i); cbn; [|done].
  intros [= <- <-]. cbn. eauto.
Qed.

Lemma foldM_updateLever_frame tid ls ps us l lu w lu' w' :
  foldM (updateLever tid ls ps us) lu l w = Ok (lu', w') →
  ∃ lv, store w' = with_tokenControlLevers lv (store w) ∧
    LayerUpdate.id lu' = LayerUpdate.id lu ∧ logs w' = logs w.
Proof.
  revert lu w. induction l as [|i l IH]; intros lu w; cbn.
  - intros [= <- <-]. exists (tokenControlLevers (store w)).
    by destruct (store w).
  - unfold mbind, M_mbind, M_bind.
    destruct (updateLever _ _ _ _ _ _ _) as [[lu1 w1]|] eqn:H1; [|done].
    intros H2. apply updateLever_frame in H1 as (lv1 & Hs1 & Hi1 & Hl1).
    apply IH in H2 as (lv2 & Hs2 & Hi2 & Hl2).
    exists lv2. rewrite Hs2, Hs1, Hi2, Hi1, Hl2, Hl1. done.
Qed.

Lemma handleControlLeverUpdated_effect (e : Event ControlLeverUpdated.t)
  (w w' : World) :
  let tid := ControlLeverUpdated.tokenId (params e) in
  let cost := gasUsed (transaction e) * gasPrice (transaction e) in
  exec (handleControlLeverUpdated e) w = Ok w' →
  ∃ token c c',
    tokens (store w) !! toString tid = Some token ∧
    tokenControllers (store w) !! controllerId tid = Some c ∧
    bids (store w') = bids (store w) ∧
    sales (store w') = sales (store w) ∧
    tokens (store w') = <[Token.id token := token]> (tokens (store w)) ∧
    tokenControllers (store w')
    = <[TokenController.id c := c']> (tokenControllers (store w)) ∧
    TokenController.id c' = TokenController.id c ∧
    TokenController.numberOfUpdates c'
    = TokenController.numberOfUpdates c + 1 ∧
    TokenController.averageUpdateCost c'
    = averageAfter (TokenController.averageUpdateCost c)
        (TokenController.numberOfUpdates c) cost.
Proof.
  intros tid cost. subst tid cost.
  unfold handleControlLeverUpdated, nextAverageUpdateCost, averageAfter,
    controllerId.
  munfold.
  destruct (globalState (store w)) as [g|]; cbn;
    (destruct (tokens (store w) !! _) as [token|]; cbn; [|done]);
    (destruct (tokenControllers (store w) !! _) as [c|]; cbn; [|done]);
    (destruct (decide (TokenController.numberOfUpdates c = 0)); cbn;
     [|case_decide; cbn; [done|]]);
    (destruct (foldM _ _ _ _) as [[lu1 w1]|] eqn:Hloop; cbn; [|done]);
    apply foldM_updateLever_frame in Hloop as (lv & Hs & Hi & Hl);
    intros [= <-]; cbn; rewrite Hs; cbn;
    eexists _, _, _; repeat (split; [done|]); cbn;
    by rewrite ?decide_True, ?decide_False by done.
Qed.

(** ** Withdrawal *)

(** C7: withdrawing on a token whose current bid loads as absent is benign.
    The handler returns normally, logs a warning, and leaves every Bid and
    Token record as it was.  When the current bid does load, the withdrawal
    stores it inactive with the withdrawal timestamp and appends its id to
    the token's past bids. *)
Theorem withdraw_absent_bid_benign (e : Event BidWithdrawn.t) (w : World)
  (token : Token.t) :
  tokens (store w) !! toString (BidWithdrawn.tokenId (params e))
  = Some token →
  ∃ w', exec (handleBidWithdrawn e) w = Ok w' ∧
    match loadedBid (store w) token with
    | None =>
        bids (store w') = bids (store w) ∧
        tokens (store w') = tokens (store w) ∧
        logs w' = logs w ++ [(LWarning, "Bid should be defined")] ∧
        ∀ wr, wr ∈ drop (length (journal w)) (journal w') →
              ∃ g, wr = WGlobalState g
    | Some bid =>
        ∃ bid' token',
          bids (store w') = <[Bid.id bid := bid']> (bids (store w)) ∧
          tokens (store w') = <[Token.id token := token']> (tokens (store w)) ∧
          Bid.bidActive bid' = false ∧
          Bid.BidWithdrawnTimestamp bid' = Some (timestamp (block e)) ∧
          Bid.bidAccepted bid' = Bid.bidAccepted bid ∧
          Bid.bidAmount bid' = Bid.bidAmount bid ∧
          Bid.bidder bid' = Bid.bidder bid ∧
          Token.pastBids token' = Token.pastBids token ++ [Bid.id bid] ∧
          Token.currentBid token' = Token.currentBid token
    end.
Proof.
  intros Ht. pose proof (handleBidWithdrawn_effect e w) as H.
  cbn zeta in H. rewrite Ht in H.
  destruct H as (w' & Hrun & _ & _ & H). exists w'. split; [done|].
  destruct (loadedBid (store w) token) as [bid|].
  - destruct H as (Hb & Hk). eexists _, _.
    repeat (split; [eassumption || reflexivity|]). reflexivity.
  - destruct H as (Hk & Hb & Hl & g & Hj). repeat (split; [done|]).
    intros wr. rewrite Hj, drop_app_length. intros ->%list_elem_of_singleton.
    by eauto.
Qed.

Lemma withdraw_absent_bid_benign_witness :
  ∃ w', exec (handleBidWithdrawn demoWithdraw) demoWorld = Ok w' ∧
    bids (store w') = bids (store demoWorld) ∧
    tokens (store w') = tokens (store demoWorld) ∧
    logs w' = logs demoWorld ++ [(LWarning, "Bid should be defined")] ∧
    ∀ wr, wr ∈ drop (length (journal demoWorld)) (journal w') →
          ∃ g, wr = WGlobalState g.
Proof.
  destruct (withdraw_absent_bid_benign demoWithdraw demoWorld demoToken6)
    as (w' & Hrun & H); [by vm_compute|].
  assert (loadedBid (store demoWorld) demoToken6 = None) as Hnone
    by (by vm_compute).
  rewrite Hnone in H. exists w'. split; [exact Hrun|exact H].
Defined.

(** ** Permission updates *)

(** C10: a permission update on a stored token returns normally and
    changes the token's permissioned address only when the granter is the
    token's current owner; with any other granter the handler leaves every
    token record exactly as it was. *)
Theorem permission_update_only_by_owner (e : Event PermissionUpdated.t)
  (w : World) (token : Token.t) :
  tokens (store w) !! toString (PermissionUpdated.tokenId (params e))
  = Some token →
  ∃ w',
    exec (handlePermissionUpdated e) w = Ok w' ∧
    (toHex (PermissionUpdated.tokenOwner (params e)) ≠ Token.owner token →
     tokens (store w') = tokens (store w)) ∧
    (toHex (PermissionUpdated.tokenOwner (params e)) = Token.owner token →
     tokens (store w')
     = <[Token.id token :=
           Token.set_permissionedAddress
             (Some (PermissionUpdated.permissioned (params e))) token]>
         (tokens (store w))).
Proof.
  intros Hk. pose proof (handlePermissionUpdated_effect e w) as H.
  cbn zeta in H. rewrite Hk in H.
  destruct H as (w' & Hrun & _ & _ & _ & Ht).
  exists w'. split; [done|]. case_decide; by split.
Qed.

Lemma permission_update_only_by_owner_witness :
  ∃ w',
    exec (handlePermissionUpdated (demoPermission "0xstranger")) demoWorld
    = Ok w' ∧
    tokens (store w') = tokens (store demoWorld).
Proof.
  destruct (permission_update_only_by_owner (demoPermission "0xstranger")
              demoWorld demoToken6)
    as (w' & Hrun & Hne & _); [vm_compute; reflexivity|].
  exists w'. split; [exact Hrun|]. apply Hne. vm_compute. discriminate.
Defined.

(** ** Sales *)

(** C3: a sale of a stored token whose owner is a stored user returns
    normally, and is classified as a bid sale exactly when the token's
    current bid matches it in both amount and bidder.  In that case the
    stored Sale has [isBidSale = true] and references the bid, and the bid
    is stored accepted; when either differs the Sale has
    [isBidSale = false] and no bid reference, and the bid keeps its
    accepted flag.  In both cases the bid is stored inactive and archived
    in the token's past bids.  Without a current bid the Sale has
    [isBidSale = false] and no Bid record is written. *)
Theorem sale_is_bid_sale_iff_bid_matches (e : Event TokenSale.t)
  (w : World) (token : Token.t) (seller : User.t) :
  let tid := TokenSale.tokenId (params e) in
  let price := TokenSale.salePrice (params e) in
  let _buyer := TokenSale.buyer (params e) in
  tokens (store w) !! toString tid = Some token →
  usersWith (toHexString _buyer) (store w) !! Token.owner token
  = Some seller →
  ∃ w' token' sale,
    exec (handleTokenSale e) w = Ok w' ∧
    tokens (store w') !! Token.id token = Some token' ∧
    sales (store w') !! saleKey tid (Token.numberOfSales token + 1)
    = Some sale ∧
    match loadedBid (store w) token with
    | Some bid =>
        let matches :=
          Bid.bidAmount bid = price ∧ Bid.bidder bid = toHexString _buyer in
        (Sale.isBidSale sale = true ↔ matches) ∧
        (Sale.bidDetails sale = Some (Bid.id bid) ↔ matches) ∧
        (¬ matches → Sale.bidDetails sale = None) ∧
        ∃ bid',
          bids (store w') = <[Bid.id bid := bid']> (bids (store w)) ∧
          Bid.bidActive bid' = false ∧
          (matches → Bid.bidAccepted bid' = true) ∧
          (¬ matches → Bid.bidAccepted bid' = Bid.bidAccepted bid) ∧
          Token.pastBids token' = Token.pastBids token ++ [Bid.id bid]
    | None =>
        Sale.isBidSale sale = false ∧
        Sale.bidDetails sale = None ∧
        bids (store w') = bids (store w) ∧
        Token.pastBids token' = Token.pastBids token
    end.
Proof.
  intros tid price _buyer Hk Hseller.
  pose proof (handleTokenSale_effect e w) as H. cbn zeta in H.
  fold tid price _buyer in H. rewrite Hk, Hseller in H.
  destruct H as (w' & sale & token' & Hrun & _ & Hsales & Htokens & _ & _
                 & _ & _ & _ & _ & _ & _ & _ & _ & _ & _ & Hbid).
  exists w', token', sale. split; [done|].
  rewrite Htokens, Hsales, !lookup_insert_eq.
  split; [reflexivity|]. split; [reflexivity|].
  destruct (loadedBid (store w) token) as [bid|]; [|tauto].
  destruct Hbid as (Hbids & His & Hdet & Hpast).
  assert (bidMatchesSale bid price _buyer = true
          ↔ Bid.bidAmount bid = price ∧ Bid.bidder bid = toHexString _buyer)
    as Hm.
  { unfold bidMatchesSale.
    rewrite andb_true_iff, !bool_decide_eq_true.
    split; intros [? ?]; split; congruence. }
  rewrite His, Hdet. clear His Hdet. cbn zeta.
  destruct (bidMatchesSale bid price _buyer); cbn in Hbids.
  - assert (Bid.bidAmount bid = price
            ∧ Bid.bidder bid = toHexString _buyer) as Hy by (by apply Hm).
    split; [tauto|]. split; [tauto|]. split; [tauto|].
    eexists. split; [exact Hbids|]. cbn. tauto.
  - assert (¬ (Bid.bidAmount bid = price
               ∧ Bid.bidder bid = toHexString _buyer)) as Hn.
    { intros Hy. by apply Hm in Hy. }
    split; [split; [discriminate|tauto]|].
    split; [split; [discriminate|tauto]|]. split; [done|].
    eexists. split; [exact Hbids|]. cbn. tauto.
Qed.

(** Scenario B of the specification, first half: the bid of 100 by
    [0xu1] on token 6 is current and the sale is to [0xu1] at 100. *)
Lemma sale_is_bid_sale_iff_bid_matches_witness :
  ∃ w' sale bid,
    exec (handleTokenSale (demoSale "0xu1" 100)) demoWorldBid = Ok w' ∧
    sales (store w') !! saleKey 6 1 = Some sale ∧
    Sale.isBidSale sale = true ∧
    Sale.bidDetails sale = Some "6-0xb1" ∧
    bids (store w') !! "6-0xb1" = Some bid ∧
    Bid.bidAccepted bid = true ∧ Bid.bidActive bid = false.
Proof.
  edestruct (sale_is_bid_sale_iff_bid_matches (demoSale "0xu1" 100)
               demoWorldBid)
    as (w' & token' & sale & Hrun & _ & Hs & H);
    [vm_compute; reflexivity|vm_compute; reflexivity|].
  destruct (loadedBid _ _) as [bid|] eqn:Hl;
    vm_compute in Hl; [injection Hl as <-|discriminate Hl].
  destruct H as (His & Hdet & _ & bid' & Hb & Hact & Hacc & _).
  exists w', sale, bid'. split; [exact Hrun|]. split; [exact Hs|].
  split; [apply His; split; reflexivity|].
  split; [apply Hdet; split; reflexivity|].
  split; [rewrite Hb; apply lookup_insert_eq|].
  split; [apply Hacc; split; reflexivity|exact Hact].
Defined.

(** Scenario B, second half: the same bid, but the sale is to [0xu2]. *)
Example sale_to_other_buyer_is_not_bid_sale :
  let w' := worldAfter [ECreatorWhitelisted demoCreate; EBidProposed demoBid1;
                        ETokenSale (demoSale "0xu2" 100)] in
  exec (handleTokenSale (demoSale "0xu2" 100)) demoWorldBid = Ok w' ∧
  Sale.isBidSale <$> sales (store w') !! saleKey 6 1 = Some false ∧
  (λ b, (Bid.bidActive b, Bid.bidAccepted b)) <$> bids (store w') !! "6-0xb1"
  = Some (false, false) ∧
  Token.pastBids <$> tokens (store w') !! "6" = Some ["6-0xb1"].
Proof.
  cbn zeta. split; [vm_compute; reflexivity|].
  split; [vm_compute; reflexivity|].
  split; vm_compute; reflexivity.
Qed.

(** ** The single-active-bid invariant *)










(** ** The single-active-bid invariant at every write *)

Lemma bidInv_write_other wr s :
  match wr with WBid _ | WToken _ => False | _ => True end →
  bidInv s → bidInv (applyWrite wr s).
Proof. by destruct wr. Qed.




Ltac ksimpl_loads :=
  repeat match goal with
         | H : _ ≫= _ = _ |- _ => progress cbn in H
         end.


Ltac kunfold :=
  unfold refreshGlobalState, getOrInitialiseGlobalState,
    getOrInitialiseToken, createOrFetchUserString,
    Token_load, User_load, Bid_load, TokenController_load,
    TokenControlLever_load, load, GlobalState_load, GlobalState_save,
    Token_save, User_save, Bid_save, Sale_save, TokenTransfer_save,
    TokenController_save, TokenControlLever_save, LayerUpdate_save,
    log_critical, deref, index, BigInt_div, nextAverageUpdateCost.

























(** Scenario A of the specification: bid B1 of 100 then bid B2 of 150 on
    token 6 leave B1 inactive and archived, and B2 as the current bid. *)
Example supersede_scenario_A :
  let s := store (worldAfter [ECreatorWhitelisted demoCreate;
                              EBidProposed demoBid1; EBidProposed demoBid2]) in
  (Bid.bidActive <$> bids s !! "6-0xb1", Bid.bidActive <$> bids s !! "6-0xb2")
  = (Some false, Some true) ∧
  (λ t, (Token.currentBid t, Token.pastBids t)) <$> tokens s !! "6"
  = Some (Some "6-0xb2", ["6-0xb1"]).
Proof. cbn zeta. split; vm_compute; reflexivity. Qed.

(** ** Composite keys are unambiguous *)

Lemma pretty_N_go_noDash x s :
  noDash s = true → noDash (pretty_N_go x s) = true.
Proof.
  revert s. induction (N.lt_wf_0 x) as [x _ IH]; intros s Hs.
  assert (x = 0 ∨ 0 < x)%N as [->|?] by lia.
  - by rewrite pretty_N_go_0.
  - rewrite pretty_N_go_step by done. apply IH.
    { by apply N.div_lt. }
    cbn. rewrite Hs. unfold pretty_N_char. by repeat case_match.
Qed.

Lemma toString_noDash (t : BigInt) :
  (0 ≤ t)%Z → noDash (toString t) = true.
Proof.
  intros Ht. destruct t as [|p|p]; [done| |lia].
  unfold toString, pretty, pretty_Z, pretty, pretty_positive, pretty, pretty_N.
  case_decide; [done|]. by apply pretty_N_go_noDash.
Qed.

Lemma append_nil_l (x : string) : "" +:+ x = x.
Proof. reflexivity. Qed.

Lemma append_cons c (s x : string) : String c s +:+ x = String c (s +:+ x).
Proof. reflexivity. Qed.

Lemma dash_split s1 s2 r1 r2 :
  noDash s1 = true → noDash s2 = true →
  s1 +:+ "-" +:+ r1 = s2 +:+ "-" +:+ r2 → s1 = s2 ∧ r1 = r2.
Proof.
  revert s2. induction s1 as [|c s1 IH]; intros [|c2 s2] H1 H2 Heq;
    rewrite ?append_cons, ?append_nil_l in Heq; simpl in H1, H2.
  - by injection Heq as ->.
  - injection Heq as <- _. by apply andb_true_iff in H2 as [? _].
  - injection Heq as -> _. by apply andb_true_iff in H1 as [? _].
  - injection Heq as -> Heq.
    apply andb_true_iff in H1 as [_ H1]. apply andb_true_iff in H2 as [_ H2].
    destruct (IH s2 H1 H2 Heq) as [-> ->]. done.
Qed.

Lemma saleKey_inj t n t' n' :
  (0 ≤ t)%Z → (0 ≤ t')%Z → saleKey t n = saleKey t' n' → t = t' ∧ n = n'.
Proof.
  intros Ht Ht' Heq. unfold saleKey in Heq.
  apply dash_split in Heq as [Heq1 Heq2]; [|by apply toString_noDash..].
  split; by apply (inj pretty).
Qed.

(** ** What a non-creation event does to tokens and sales *)

Lemma handle_token_effect ev w w' :
  isCreation ev = false →
  exec (handle ev) w = Ok w' →
  (tokens (store w') = tokens (store w) ∧
   sales (store w') = sales (store w)) ∨
  ∃ tid token token',
    eventTokenId ev = Some tid ∧
    tokens (store w) !! toString tid = Some token ∧
    tokens (store w') = <[Token.id token := token']> (tokens (store w)) ∧
    Token.id token' = Token.id token ∧
    match ev with
    | ETokenSale e =>
        let key := saleKey tid (Token.numberOfSales token + 1) in
        ∃ sale,
          sales (store w') = <[key := sale]> (sales (store w)) ∧
          Sale.tokenDetails sale = Token.id token ∧
          Sale.tokenSaleNumber sale = Token.numberOfSales token + 1 ∧
          Token.numberOfSales token' = Token.numberOfSales token + 1 ∧
          Token.allSales token' = Token.allSales token ++ [key]
    | _ =>
        sales (store w') = sales (store w) ∧
        Token.numberOfSales token' = Token.numberOfSales token ∧
        Token.allSales token' = Token.allSales token
    end.
Proof.
  intros Hc Hrun. destruct ev as [e|e|e|e|e|e|e|e|e|e|e]; try done;
    cbn in Hrun.
  - destruct (handleGlobalOnly_effect (EArtistSecondSalePercentUpdated e) w)
      as (w1 & Hrun1 & Ht & _ & Hs & _); [done|].
    cbn in Hrun1. assert (w1 = w') as -> by congruence. by left.
  - pose proof (handleBidProposed_effect e w) as H. cbn zeta in H.
    destruct H as (w1 & Hrun1 & Hs & _ & H).
    assert (w1 = w') as -> by congruence.
    destruct (tokens (store w) !! _) as [token|] eqn:Hk.
    + right. exists (BidProposed.tokenId (params e)), token.
      destruct (loadedBid (store w) token);
        destruct H as (_ & Ht & _) || destruct H as (_ & Ht);
        eexists; (split; [done|]); (split; [done|]); (split; [exact Ht|]);
        done.
    + left. by destruct H as (Ht & _).
  - pose proof (handleBidWithdrawn_effect e w) as H. cbn zeta in H.
    destruct (tokens (store w) !! _) as [token|] eqn:Hk; [|congruence].
    destruct H as (w1 & Hrun1 & Hs & _ & H).
    assert (w1 = w') as -> by congruence.
    destruct (loadedBid (store w) token).
    + right. exists (BidWithdrawn.tokenId (params e)), token.
      destruct H as (_ & Ht).
      eexists; (split; [done|]); (split; [done|]); (split; [exact Ht|]);
        done.
    + left. by destruct H as (Ht & _).
  - pose proof (handleBuyPriceSet_effect e w) as H. cbn zeta in H.
    destruct H as (w1 & Hrun1 & _ & Hs & _ & H).
    assert (w1 = w') as -> by congruence.
    destruct (tokens (store w) !! _) as [token|] eqn:Hk.
    + right. exists (BuyPriceSet.tokenId (params e)), token.
      eexists; (split; [done|]); (split; [done|]); (split; [exact H|]);
        done.
    + left. by destruct H as (Ht & _).
  - apply handleControlLeverUpdated_effect in Hrun
      as (token & c & c' & Hk & _ & _ & Hs & Ht & _).
    right. exists (ControlLeverUpdated.tokenId (params e)), token, token.
    done.
  - pose proof (handlePermissionUpdated_effect e w) as H. cbn zeta in H.
    destruct (tokens (store w) !! _) as [token|] eqn:Hk; [|congruence].
    destruct H as (w1 & Hrun1 & _ & Hs & _ & Ht).
    assert (w1 = w') as -> by congruence.
    case_decide; [|by left].
    right. exists (PermissionUpdated.tokenId (params e)), token.
    eexists; (split; [done|]); (split; [done|]); (split; [exact Ht|]); done.
  - destruct (handleGlobalOnly_effect (EPlatformAddressUpdated e) w)
      as (w1 & Hrun1 & Ht & _ & Hs & _); [done|].
    cbn in Hrun1. assert (w1 = w') as -> by congruence. by left.
  - pose proof (handlePlatformSalePercentageUpdated_effect e w) as H.
    cbn zeta in H.
    destruct (tokens (store w) !! _) as [token|] eqn:Hk; [|congruence].
    destruct H as (w1 & Hrun1 & _ & Hs & _ & Ht).
    assert (w1 = w') as -> by congruence.
    right. exists (PlatformSalePercentageUpdated.tokenId (params e)), token.
    eexists; (split; [done|]); (split; [done|]); (split; [exact Ht|]); done.
  - pose proof (handleTokenSale_effect e w) as H. cbn zeta in H.
    destruct (tokens (store w) !! _) as [token|] eqn:Hk; [|congruence].
    destruct (usersWith _ _ !! _) as [seller|]; [|congruence].
    destruct H as (w1 & sale & token' & Hrun1 & _ & Hs & Ht & _ & Htd & Hnum
                   & _ & _ & _ & Hid & Hn & Hall & _).
    assert (w1 = w') as -> by congruence.
    right. exists (TokenSale.tokenId (params e)), token, token'.
    repeat (split; [done|]). by exists sale.
  - pose proof (handleTransfer_effect e w) as H. cbn zeta in H.
    destruct (tokens (store w) !! _) as [token|] eqn:Hk; [|congruence].
    destruct H as (w1 & token' & Hrun1 & _ & Hs & _ & Ht & Hid & _ & _
                   & _ & Hn & Hall & _).
    assert (w1 = w') as -> by congruence.
    right. exists (Transfer.tokenId (params e)), token, token'. done.
Qed.

(** ** Sale numbering *)

Lemma saleInv_frame s s' :
  saleInv s → tokens s' = tokens s → sales s' = sales s → saleInv s'.
Proof.
  unfold saleInv, wfTokens, salesKeyed, salesComplete, salesOf.
  by intros ? -> ->.
Qed.

Lemma saleInv_token_update s s' k token token' :
  saleInv s →
  tokens s !! k = Some token →
  Token.id token' = Token.id token →
  Token.numberOfSales token' = Token.numberOfSales token →
  tokens s' = <[Token.id token := token']> (tokens s) →
  sales s' = sales s →
  saleInv s'.
Proof.
  intros (Hwt & Hkeyed & Hcompl) Hk Hid Hn Ht Hs.
  pose proof (Hwt _ _ Hk) as Hidk. cbn in Hidk.
  unfold saleInv, wfTokens, salesKeyed, salesComplete, salesOf.
  rewrite Ht, Hs. split; [|split].
  - apply map_Forall_insert_2; [congruence|done].
  - intros kx x Hkx.
    destruct (Hkeyed _ _ Hkx) as (tid & tok & H0 & Htd & Htok & Hr & Hkey).
    destruct (decide (Token.id token = toString tid)) as [Heq|Hne].
    + exists tid, token'. rewrite <- Heq, lookup_insert_eq.
      rewrite <- Heq, Hidk, Hk in Htok. injection Htok as <-.
      rewrite Hn. repeat split; first [done|congruence|lia].
    + exists tid, tok. by rewrite lookup_insert_ne.
  - intros tid tok H0 Htok.
    destruct (decide (Token.id token = toString tid)) as [Heq|Hne].
    + rewrite <- Heq, lookup_insert_eq in Htok. injection Htok as <-.
      rewrite Hn. apply Hcompl; [done|]. by rewrite <- Heq, Hidk.
    + rewrite lookup_insert_ne in Htok by done. by apply Hcompl.
Qed.

Lemma saleInv_sale s s' tid token token' sale :
  saleInv s → (0 ≤ tid)%Z →
  tokens s !! toString tid = Some token →
  Token.id token' = Token.id token →
  Token.numberOfSales token' = Token.numberOfSales token + 1 →
  Sale.tokenDetails sale = Token.id token →
  Sale.tokenSaleNumber sale = Token.numberOfSales token + 1 →
  tokens s' = <[Token.id token := token']> (tokens s) →
  sales s'
  = <[saleKey tid (Token.numberOfSales token + 1) := sale]> (sales s) →
  saleInv s'.
Proof.
  intros (Hwt & Hkeyed & Hcompl) H0 Hk Hid Hn Htd Hnum Ht Hs.
  pose proof (Hwt _ _ Hk) as Hidk. cbn in Hidk.
  destruct (Hcompl _ _ H0 Hk) as (Hn0 & Hall & Hsize).
  set (key := saleKey tid (Token.numberOfSales token + 1)) in *.
  assert (sales s !! key = None) as Hfresh.
  { destruct (sales s !! key) as [x|] eqn:Hx; [|done].
    destruct (Hkeyed _ _ Hx) as (tid0 & tok0 & H00 & _ & Htok0 & Hr & Hkey).
    apply saleKey_inj in Hkey as [<- Hnx]; [|done..].
    rewrite Hk in Htok0. injection Htok0 as <-. lia. }
  unfold saleInv, wfTokens, salesKeyed, salesComplete, salesOf.
  rewrite Ht, Hs. split; [|split].
  - apply map_Forall_insert_2; [congruence|done].
  - apply map_Forall_insert_2.
    + exists tid, token'. rewrite Hidk, lookup_insert_eq, Htd, Hnum, Hn.
      repeat split; try done; lia.
    + intros kx x Hkx.
      destruct (Hkeyed _ _ Hkx) as (tid0 & tok0 & H00 & Htd0 & Htok0 & Hr
                                    & Hkey).
      destruct (decide (tid0 = tid)) as [->|Hne].
      * exists tid, token'. rewrite Hidk, lookup_insert_eq.
        rewrite Hk in Htok0. injection Htok0 as <-.
        repeat split; try done; lia.
      * exists tid0, tok0. rewrite lookup_insert_ne; [done|].
        rewrite Hidk. intros Heq. by apply (inj pretty) in Heq.
  - intros tid1 tok1 H01 Htok1.
    destruct (decide (tid1 = tid)) as [->|Hne].
    + rewrite Hidk, lookup_insert_eq in Htok1. injection Htok1 as <-.
      rewrite Hn. split; [lia|]. split.
      * intros n Hr. destruct (decide (n = Token.numberOfSales token + 1))
          as [->|Hnn].
        -- exists sale. fold key. rewrite lookup_insert_eq.
           by rewrite Htd, Hidk.
        -- destruct (Hall n) as (x & Hx & Hxtd & Hxn); [lia|].
           exists x. rewrite lookup_insert_ne; [done|].
           unfold key. intros Heq. apply saleKey_inj in Heq; [lia|done..].
      * rewrite map_filter_insert_True by (cbn; congruence).
        rewrite map_size_insert_None.
        -- fold (salesOf s tid). rewrite Hsize. lia.
        -- apply map_lookup_filter_None_2. by left.
    + assert (Token.id token ≠ toString tid1) as Hne'.
      { rewrite Hidk. intros Heq. by apply (inj pretty) in Heq. }
      rewrite lookup_insert_ne in Htok1 by done.
      destruct (Hcompl _ _ H01 Htok1) as (Hn1 & Hall1 & Hsize1).
      split; [done|]. split.
      * intros n Hr. destruct (Hall1 n Hr) as (x & Hx & Hxtd & Hxn).
        exists x. rewrite lookup_insert_ne; [done|].
        unfold key. intros Heq. apply saleKey_inj in Heq as [? _]; done.
      * rewrite map_filter_insert_not'; [done|..].
        -- cbn. congruence.
        -- intros y. rewrite Hfresh. done.
Qed.

Lemma saleInv_step ev w w' :
  validEvent ev →
  saleInv (store w) →
  exec (handle ev) w = Ok w' →
  saleInv (store w').
Proof.
  intros [Hc Hv] Hinv Hrun.
  destruct (handle_token_effect ev w w' Hc Hrun)
    as [[Ht Hs]|(tid & token & token' & Hev & Hk & Ht & Hid & H)].
  { by eapply saleInv_frame. }
  rewrite Hev in Hv.
  destruct ev; try (destruct H as (Hs & Hn & _);
                    by eapply saleInv_token_update).
  destruct H as (sale & Hs & Htd & Hnum & Hn & _).
  by eapply saleInv_sale.
Qed.

(** How one event moves the sale count and the sale list of a token. *)
Lemma sale_count_step ev w w' tid tok :
  validEvent ev →
  saleInv (store w) →
  exec (handle ev) w = Ok w' →
  tokens (store w) !! toString tid = Some tok →
  ∃ tok',
    tokens (store w') !! toString tid = Some tok' ∧
    Token.numberOfSales tok'
    = Token.numberOfSales tok + (if isSaleOn tid ev then 1 else 0) ∧
    Token.allSales tok'
    = Token.allSales tok
      ++ (if isSaleOn tid ev
          then [saleKey tid (Token.numberOfSales tok + 1)] else []).
Proof.
  intros [Hc Hv] (Hwt & _) Hrun Htok.
  destruct (handle_token_effect ev w w' Hc Hrun)
    as [[Ht Hs]|(tid0 & token & token' & Hev & Hk & Ht & Hid & H)].
  { exists tok. rewrite Ht. split; [done|].
    destruct ev; cbn; try (by rewrite Z.add_0_r, app_nil_r).
    exfalso. revert Hrun Ht. cbn. intros Hrun Ht.
    pose proof (handleTokenSale_effect e w) as H. cbn zeta in H.
    destruct (tokens (store w) !! toString (TokenSale.tokenId (params e)))
      as [token|] eqn:Hk; [|congruence].
    destruct (usersWith _ _ !! _) as [seller|]; [|congruence].
    destruct H as (w1 & sale & token' & Hrun1 & _ & _ & Ht' & _ & _ & _ & _
                   & _ & _ & Hid & Hn & _).
    assert (w1 = w') as -> by congruence.
    rewrite Ht in Ht'.
    assert (tokens (store w) !! Token.id token = Some token') as Hl
      by (by rewrite Ht', lookup_insert_eq).
    pose proof (Hwt _ _ Hk) as Hidk. cbn in Hidk.
    rewrite Hidk, Hk in Hl. injection Hl as <-. lia. }
  pose proof (Hwt _ _ Hk) as Hidk. cbn in Hidk. rewrite Ht.
  destruct (decide (tid0 = tid)) as [->|Hne].
  - rewrite Hk in Htok. injection Htok as <-.
    exists token'. rewrite Hidk, lookup_insert_eq. split; [done|].
    destruct ev; cbn in Hev; try done; injection Hev as Hev;
      try (destruct H as (_ & -> & ->); cbn;
           by rewrite Z.add_0_r, app_nil_r).
    destruct H as (sale & _ & _ & _ & -> & ->). cbn.
    by rewrite bool_decide_eq_true_2.
  - exists tok. rewrite lookup_insert_ne.
    2:{ rewrite Hidk. intros Heq. by apply (inj pretty) in Heq. }
    split; [done|].
    destruct ev; cbn in Hev |- *; try (by rewrite Z.add_0_r, app_nil_r).
    injection Hev as Hev. rewrite bool_decide_eq_false_2 by congruence.
    by rewrite Z.add_0_r, app_nil_r.
Qed.

Lemma run_sale_count tid evs : ∀ w w' tok,
  Forall validEvent evs →
  saleInv (store w) →
  tokens (store w) !! toString tid = Some tok →
  run evs w = Ok w' →
  saleInv (store w') ∧
  ∃ tok',
    tokens (store w') !! toString tid = Some tok' ∧
    Token.numberOfSales tok'
    = Token.numberOfSales tok + Z.of_nat (salesOn tid evs) ∧
    Token.allSales tok'
    = Token.allSales tok
      ++ ((λ i : nat, saleKey tid (Token.numberOfSales tok + 1 + Z.of_nat i))
            <$> seq 0 (salesOn tid evs)).
Proof.
  induction evs as [|ev evs IH]; intros w w' tok Hv Hinv Htok; cbn.
  - intros [= <-]. split; [done|]. exists tok.
    by rewrite Z.add_0_r, app_nil_r.
  - destruct (exec (handle ev) w) as [w1|] eqn:H1; [|done]. intros Hrun.
    apply Forall_cons in Hv as [Hev Hv].
    destruct (sale_count_step ev w w1 tid tok Hev Hinv H1 Htok)
      as (tok1 & Htok1 & Hn1 & Hall1).
    pose proof (saleInv_step ev w w1 Hev Hinv H1) as Hinv1.
    destruct (IH w1 w' tok1 Hv Hinv1 Htok1 Hrun)
      as (Hinv' & tok' & Htok' & Hn' & Hall').
    split; [done|]. exists tok'. split; [done|].
    unfold salesOn in *. cbn.
    destruct (isSaleOn tid ev); cbn.
    + rewrite Hn', Hn1, Hall', Hall1, <- app_assoc. split; [lia|].
      f_equal. cbn. f_equal; [f_equal; lia|].
      rewrite <- fmap_S_seq, <- list_fmap_compose.
      apply list_fmap_ext. intros i x _. cbn. f_equal. lia.
    + rewrite Hn', Hall', Hn1, Hall1, Z.add_0_r, app_nil_r. done.
Qed.

Lemma saleInv_fresh s :
  wfTokens s → sales s = ∅ →
  map_Forall (λ _ t, Token.numberOfSales t = 0) (tokens s) →
  saleInv s.
Proof.
  intros Hwt Hs H0. unfold saleInv, salesKeyed, salesComplete, salesOf.
  rewrite Hs. split; [done|]. split; [apply map_Forall_empty|].
  intros tid tok _ Htok. apply H0 in Htok. cbn in Htok. rewrite Htok.
  split; [done|]. split; [intros; lia|].
  by rewrite map_filter_empty, map_size_empty.
Qed.

(** C4: over any run of well-formed non-creation events, the K sale events
    of a token carry the sale numbers following the token's count, one
    after the other: the token's sale list grows by the keys
    [<tokenId>-<n+1>], ..., [<tokenId>-<n+K>] in that order, its
    [numberOfSales] grows by K, every number from 1 up to the count is the
    [tokenSaleNumber] of the Sale record stored under the key of the token
    id joined with that number, every Sale record of the token is one of
    these, and the count equals the number of Sale records of the token.
    For a token created with no sales (n = 0) the numbers are exactly
    1..K. *)
Theorem sale_numbering (tid : BigInt) (evs : list AnyEvent) (w w' : World)
  (tok : Token.t) :
  (0 ≤ tid)%Z →
  saleInv (store w) →
  Forall validEvent evs →
  tokens (store w) !! toString tid = Some tok →
  run evs w = Ok w' →
  ∃ tok',
    tokens (store w') !! toString tid = Some tok' ∧
    Token.numberOfSales tok'
    = Token.numberOfSales tok + Z.of_nat (salesOn tid evs) ∧
    Token.allSales tok'
    = Token.allSales tok
      ++ ((λ i : nat, saleKey tid (Token.numberOfSales tok + 1 + Z.of_nat i))
            <$> seq 0 (salesOn tid evs)) ∧
    (∀ n, (1 ≤ n ≤ Token.numberOfSales tok')%Z →
       ∃ x, sales (store w') !! saleKey tid n = Some x ∧
            Sale.tokenDetails x = toString tid ∧
            Sale.tokenSaleNumber x = n) ∧
    (∀ k x, sales (store w') !! k = Some x →
       Sale.tokenDetails x = toString tid →
       (1 ≤ Sale.tokenSaleNumber x ≤ Token.numberOfSales tok')%Z ∧
       k = saleKey tid (Sale.tokenSaleNumber x)) ∧
    size (salesOf (store w') tid) = Z.to_nat (Token.numberOfSales tok').
Proof.
  intros H0 Hinv Hv Htok Hrun.
  destruct (run_sale_count tid evs w w' tok Hv Hinv Htok Hrun)
    as ((Hwt & Hkeyed & Hcompl) & tok' & Htok' & Hn & Hall).
  exists tok'. repeat (split; [done|]).
  destruct (Hcompl tid tok' H0 Htok') as (_ & Hnums & Hsize).
  split; [done|]. split; [|done].
  intros k x Hk Htd.
  destruct (Hkeyed _ _ Hk) as (tid0 & tok0 & H00 & Htd0 & Htok0 & Hr & Hkey).
  assert (toString tid0 = toString tid) as Heq by congruence.
  apply (inj pretty) in Heq as ->.
  rewrite Htok' in Htok0. injection Htok0 as <-. done.
Qed.

Lemma demoWorld_saleInv : saleInv (store demoWorld).
Proof.
  apply saleInv_fresh; [|vm_compute; reflexivity|];
    apply (bool_decide_unpack _); vm_compute; reflexivity.
Qed.

Lemma sale_numbering_witness :
  ∃ tok',
    tokens (store (worldAfter
                     [ECreatorWhitelisted demoCreate;
                      ETokenSale (demoSale "0xu1" 100);
                      ETokenSale (demoSale "0xu2" 120)])) !! toString 6
    = Some tok' ∧
    Token.numberOfSales tok' = 2 ∧
    Token.allSales tok' = [saleKey 6 1; saleKey 6 2].
Proof.
  destruct (sale_numbering 6
              [ETokenSale (demoSale "0xu1" 100);
               ETokenSale (demoSale "0xu2" 120)]
              demoWorld
              (worldAfter
                 [ECreatorWhitelisted demoCreate;
                  ETokenSale (demoSale "0xu1" 100);
                  ETokenSale (demoSale "0xu2" 120)])
              demoToken6)
    as (tok' & Htok' & Hn & Hall & _).
  - lia.
  - exact demoWorld_saleInv.
  - repeat constructor; cbn; lia.
  - vm_compute. reflexivity.
  - vm_compute. reflexivity.
  - exists tok'. split; [exact Htok'|]. split; [exact Hn|exact Hall].
Defined.

(** ** The running average of update costs *)

Lemma averageAfter_step (a n S c : Z) :
  (0 ≤ n)%Z → (n * a ≤ S)%Z → (2 * (S - n * a) ≤ n * (n - 1))%Z →
  (n = 0 ∨ 0 ≤ a)%Z → (0 ≤ c)%Z →
  let a' := averageAfter a n c in
  ((n + 1) * a' ≤ S + c)%Z ∧
  (2 * (S + c - (n + 1) * a') ≤ (n + 1) * n)%Z ∧ (0 ≤ a')%Z.
Proof.
  intros Hn Hlo Hhi Ha Hc. unfold averageAfter. cbn zeta.
  case_decide as Hn0.
  - subst n. lia.
  - assert (0 ≤ a)%Z as Ha' by lia.
    assert (0 ≤ a * n + c)%Z as Hnum by nia.
    rewrite Z.quot_div_nonneg by lia.
    pose proof (Z.div_mod (a * n + c) (n + 1) ltac:(lia)) as Hdm.
    pose proof (Z.mod_pos_bound (a * n + c) (n + 1) ltac:(lia)) as Hmod.
    assert (0 ≤ (a * n + c) `div` (n + 1))%Z by (apply Z.div_pos; lia).
    split; [nia|]. split; [nia|done].
Qed.

Lemma averageOver_app start l1 l2 :
  averageOver start (l1 ++ l2) = averageOver (averageOver start l1) l2.
Proof. unfold averageOver. apply foldl_app. Qed.

Lemma averageOver_count costs : ∀ start,
  (averageOver start costs).2 = (start.2 + Z.of_nat (length costs))%Z.
Proof.
  induction costs as [|c costs IH]; intros [a n]; cbn; [lia|].
  unfold averageOver in IH. rewrite IH. cbn. lia.
Qed.

Lemma averageOver_bounds costs : ∀ a n S,
  Forall (λ c, 0 ≤ c)%Z costs →
  (0 ≤ n)%Z → (n * a ≤ S)%Z → (2 * (S - n * a) ≤ n * (n - 1))%Z →
  (n = 0 ∨ 0 ≤ a)%Z →
  let r := averageOver (a, n) costs in
  (r.2 * r.1 ≤ S + sumZ costs)%Z ∧
  (2 * (S + sumZ costs - r.2 * r.1) ≤ r.2 * (r.2 - 1))%Z.
Proof.
  induction costs as [|c costs IH]; intros a n S Hpos Hn Hlo Hhi Ha; cbn.
  - lia.
  - apply Forall_cons in Hpos as [Hc Hpos].
    destruct (averageAfter_step a n S c Hn Hlo Hhi Ha Hc) as (Hlo' & Hhi' & Ha').
    specialize (IH (averageAfter a n c) (n + 1)%Z (S + c)%Z Hpos).
    cbn zeta in IH. unfold averageOver in IH.
    destruct IH as [IH1 IH2]; [lia|done|lia|by right|].
    unfold sumZ in *.
    destruct (foldl _ _ costs) as [a2 n2]. cbn in *. split; lia.
Qed.

Lemma handle_controller_effect ev w w' :
  isCreation ev = false →
  exec (handle ev) w = Ok w' →
  match ev with
  | EControlLeverUpdated e =>
      ∃ c c',
        tokenControllers (store w)
          !! controllerId (ControlLeverUpdated.tokenId (params e)) = Some c ∧
        tokenControllers (store w')
        = <[TokenController.id c := c']> (tokenControllers (store w)) ∧
        TokenController.id c' = TokenController.id c ∧
        TokenController.numberOfUpdates c'
        = TokenController.numberOfUpdates c + 1 ∧
        TokenController.averageUpdateCost c'
        = averageAfter (TokenController.averageUpdateCost c)
            (TokenController.numberOfUpdates c)
            (gasUsed (transaction e) * gasPrice (transaction e))
  | _ => tokenControllers (store w') = tokenControllers (store w)
  end.
Proof.
  intros Hc Hrun. destruct ev as [e|e|e|e|e|e|e|e|e|e|e]; try done;
    cbn in Hrun.
  - destruct (handleGlobalOnly_effect (EArtistSecondSalePercentUpdated e) w)
      as (w1 & Hrun1 & _ & _ & _ & Hcs); [done|].
    cbn in Hrun1. by assert (w1 = w') as -> by congruence.
  - destruct (handleBidProposed_effect e w) as (w1 & Hrun1 & _ & Hcs & _).
    by assert (w1 = w') as -> by congruence.
  - pose proof (handleBidWithdrawn_effect e w) as H. cbn zeta in H.
    destruct (tokens (store w) !! _); [|congruence].
    destruct H as (w1 & Hrun1 & _ & Hcs & _).
    by assert (w1 = w') as -> by congruence.
  - destruct (handleBuyPriceSet_effect e w)
      as (w1 & Hrun1 & _ & _ & Hcs & _).
    by assert (w1 = w') as -> by congruence.
  - apply handleControlLeverUpdated_effect in Hrun
      as (token & c & c' & _ & Hc0 & _ & _ & _ & Hcs & Hid & Hn & Ha).
    by exists c, c'.
  - pose proof (handlePermissionUpdated_effect e w) as H. cbn zeta in H.
    destruct (tokens (store w) !! _); [|congruence].
    destruct H as (w1 & Hrun1 & _ & _ & Hcs & _).
    by assert (w1 = w') as -> by congruence.
  - destruct (handleGlobalOnly_effect (EPlatformAddressUpdated e) w)
      as (w1 & Hrun1 & _ & _ & _ & Hcs); [done|].
    cbn in Hrun1. by assert (w1 = w') as -> by congruence.
  - pose proof (handlePlatformSalePercentageUpdated_effect e w) as H.
    cbn zeta in H.
    destruct (tokens (store w) !! _); [|congruence].
    destruct H as (w1 & Hrun1 & _ & _ & Hcs & _).
    by assert (w1 = w') as -> by congruence.
  - pose proof (handleTokenSale_effect e w) as H. cbn zeta in H.
    destruct (tokens (store w) !! _); [|congruence].
    destruct (usersWith _ _ !! _); [|congruence].
    destruct H as (w1 & ? & ? & Hrun1 & Hcs & _).
    by assert (w1 = w') as -> by congruence.
  - pose proof (handleTransfer_effect e w) as H. cbn zeta in H.
    destruct (tokens (store w) !! _); [|congruence].
    destruct H as (w1 & ? & Hrun1 & _ & _ & Hcs & _).
    by assert (w1 = w') as -> by congruence.
Qed.

Lemma controllerId_inj t t' :
  (0 ≤ t)%Z → (0 ≤ t')%Z → controllerId t = controllerId t' → t = t'.
Proof.
  intros Ht Ht' Heq. unfold controllerId in Heq.
  change "-Controller" with ("-" +:+ "Controller") in Heq.
  apply dash_split in Heq as [Heq _]; [|by apply toString_noDash..].
  by apply (inj pretty).
Qed.

Lemma controller_step ev w w' tid c :
  validEvent ev → (0 ≤ tid)%Z →
  wfControllers (store w) →
  exec (handle ev) w = Ok w' →
  tokenControllers (store w) !! controllerId tid = Some c →
  wfControllers (store w') ∧
  ∃ c',
    tokenControllers (store w') !! controllerId tid = Some c' ∧
    (TokenController.averageUpdateCost c', TokenController.numberOfUpdates c')
    = averageOver
        (TokenController.averageUpdateCost c, TokenController.numberOfUpdates c)
        (leverCosts tid [ev]).
Proof.
  intros [Hc Hv] H0 Hwf Hrun Hctl.
  pose proof (handle_controller_effect ev w w' Hc Hrun) as H.
  destruct ev;
    try (unfold wfControllers; rewrite H; split; [done|]; exists c;
         split; [done|reflexivity]).
  destruct H as (c0 & c' & Hc0 & Hcs & Hid & Hn & Ha).
  pose proof (Hwf _ _ Hc0) as Hidk. cbn in Hidk, Hv.
  unfold wfControllers. rewrite Hcs. split.
  { apply map_Forall_insert_2; [congruence|done]. }
  unfold leverCosts. cbn. case_bool_decide as Heq.
  - subst tid. rewrite Hctl in Hc0. injection Hc0 as <-.
    exists c'. rewrite Hidk, lookup_insert_eq. split; [done|]. cbn.
    by rewrite Ha, Hn.
  - exists c. rewrite lookup_insert_ne; [done|].
    rewrite Hidk. intros Hk. by apply controllerId_inj in Hk.
Qed.

Lemma leverCosts_cons tid ev evs :
  leverCosts tid (ev :: evs) = leverCosts tid [ev] ++ leverCosts tid evs.
Proof. unfold leverCosts. cbn. by destruct (leverCost tid ev). Qed.

Lemma run_controller tid evs : ∀ w w' c,
  Forall validEvent evs → (0 ≤ tid)%Z →
  wfControllers (store w) →
  tokenControllers (store w) !! controllerId tid = Some c →
  run evs w = Ok w' →
  ∃ c',
    tokenControllers (store w') !! controllerId tid = Some c' ∧
    (TokenController.averageUpdateCost c', TokenController.numberOfUpdates c')
    = averageOver
        (TokenController.averageUpdateCost c, TokenController.numberOfUpdates c)
        (leverCosts tid evs).
Proof.
  induction evs as [|ev evs IH]; intros w w' c Hv H0 Hwf Hctl Hrun;
    cbn in Hrun.
  - injection Hrun as <-. by exists c.
  - destruct (exec (handle ev) w) as [w1|] eqn:H1; [|done].
    apply Forall_cons in Hv as [Hev Hv].
    destruct (controller_step ev w w1 tid c Hev H0 Hwf H1 Hctl)
      as (Hwf1 & c1 & Hctl1 & Hstep).
    destruct (IH w1 w' c1 Hv H0 Hwf1 Hctl1 Hrun) as (c' & Hctl' & Hrest).
    exists c'. split; [done|].
    by rewrite Hrest, Hstep, (leverCosts_cons tid ev evs), averageOver_app.
Qed.

(** C2, as amended: for a controller that starts with no updates, after a
    run of well-formed non-creation events whose lever updates of that
    token have the non-negative costs c1..cn (each gasUsed times gasPrice),
    the controller's count is n and its stored average is the result of
    the incremental rule [(oldAvg * oldCount + cost) / (oldCount + 1)],
    started by storing the first cost as it is.  So after one update the
    average is c1 exactly, and in general the stored average never exceeds
    the mean and falls short of it by at most (n - 1) / 2:
    [n * avg <= sum <= n * avg + n * (n - 1) / 2]. *)
Theorem running_average_incremental (tid : BigInt) (evs : list AnyEvent)
  (w w' : World) (c : TokenController.t) :
  (0 ≤ tid)%Z →
  wfControllers (store w) →
  Forall validEvent evs →
  tokenControllers (store w) !! controllerId tid = Some c →
  TokenController.numberOfUpdates c = 0 →
  Forall (λ x, 0 ≤ x)%Z (leverCosts tid evs) →
  run evs w = Ok w' →
  let costs := leverCosts tid evs in
  let n := Z.of_nat (length costs) in
  let start :=
    (TokenController.averageUpdateCost c, TokenController.numberOfUpdates c)
  in
  ∃ c',
    tokenControllers (store w') !! controllerId tid = Some c' ∧
    TokenController.numberOfUpdates c' = n ∧
    (∀ pre x, costs = pre ++ [x] →
       TokenController.averageUpdateCost c'
       = if decide (pre = []) then x
         else Z.quot
                ((averageOver start pre).1 * Z.of_nat (length pre) + x)
                (Z.of_nat (length pre) + 1)) ∧
    (n * TokenController.averageUpdateCost c' ≤ sumZ costs)%Z ∧
    (2 * (sumZ costs - n * TokenController.averageUpdateCost c')
     ≤ n * (n - 1))%Z.
Proof.
  intros H0 Hwf Hv Hctl Hn0 Hpos Hrun costs n start.
  destruct (run_controller tid evs w w' c Hv H0 Hwf Hctl Hrun)
    as (c' & Hctl' & Hfold).
  fold costs start in Hfold.
  exists c'. split; [done|].
  pose proof (averageOver_count costs start) as Hcount.
  rewrite <- Hfold in Hcount. cbn in Hcount. rewrite Hn0 in Hcount.
  split; [subst n; lia|]. split.
  - intros pre x Hcosts. rewrite Hcosts, averageOver_app in Hfold.
    pose proof (averageOver_count pre start) as Hpre.
    cbn in Hpre, Hfold. rewrite Hn0 in Hpre.
    injection Hfold as Ha _. rewrite Ha.
    unfold averageAfter. rewrite Hpre.
    destruct pre as [|p pre]; [done|].
    rewrite decide_False by (cbn; lia). rewrite decide_False by done.
    done.
  - pose proof (averageOver_bounds costs
                  (TokenController.averageUpdateCost c)
                  (TokenController.numberOfUpdates c) 0 Hpos) as Hb.
    cbn zeta in Hb. subst start. unfold BigInt in *.
    rewrite <- Hfold in Hb. cbn in Hb.
    rewrite Hcount, Hn0 in Hb. fold n in Hb.
    destruct Hb as [Hb1 Hb2]; [lia|lia|lia|by left|]. split; lia.
Qed.

Lemma demoWorld_wfControllers : wfControllers (store demoWorld).
Proof. apply (bool_decide_unpack _). vm_compute. reflexivity. Qed.

Lemma running_average_incremental_witness :
  ∃ c',
    tokenControllers
      (store (worldAfter
                [ECreatorWhitelisted demoCreate;
                 EControlLeverUpdated (demoLeverUpdate 10);
                 EControlLeverUpdated (demoLeverUpdate 20);
                 EControlLeverUpdated (demoLeverUpdate 30)]))
      !! controllerId 6 = Some c' ∧
    TokenController.numberOfUpdates c' = 3 ∧
    (3 * TokenController.averageUpdateCost c' ≤ 60)%Z ∧
    (2 * (60 - 3 * TokenController.averageUpdateCost c') ≤ 6)%Z.
Proof.
  destruct (running_average_incremental 6
              [EControlLeverUpdated (demoLeverUpdate 10);
               EControlLeverUpdated (demoLeverUpdate 20);
               EControlLeverUpdated (demoLeverUpdate 30)]
              demoWorld
              (worldAfter
                 [ECreatorWhitelisted demoCreate;
                  EControlLeverUpdated (demoLeverUpdate 10);
                  EControlLeverUpdated (demoLeverUpdate 20);
                  EControlLeverUpdated (demoLeverUpdate 30)])
              (TokenController.mk (controllerId 6) 0 0 0 None []))
    as (c' & Hc' & Hn & _ & Hlo & Hhi).
  - lia.
  - exact demoWorld_wfControllers.
  - repeat constructor; cbn; lia.
  - vm_compute. reflexivity.
  - reflexivity.
  - repeat constructor; cbn; lia.
  - vm_compute. reflexivity.
  - exists c'. split; [exact Hc'|]. split; [exact Hn|].
    split; [exact Hlo|exact Hhi].
Defined.

(** Scenario C of the specification: costs 10, 20, 30 give the averages
    10, 15, 20. *)
Example running_average_scenario_C :
  (averageOver (0, 0) [10], averageOver (0, 0) [10; 20],
   averageOver (0, 0) [10; 20; 30])
  = ((10, 1), (15, 2), (20, 3))%Z.
Proof. reflexivity. Qed.

(** C2 as stated fails: five lever updates of token 6 with costs 5, 6, 7,
    8, 9 leave the stored average at 5, while the mean of the five costs,
    at integer-division precision, is 7. *)
Lemma running_average_is_not_the_mean :
  TokenController.averageUpdateCost
    <$> tokenControllers
          (store (worldAfter
                    [ECreatorWhitelisted demoCreate;
                     EControlLeverUpdated (demoLeverUpdate 5);
                     EControlLeverUpdated (demoLeverUpdate 6);
                     EControlLeverUpdated (demoLeverUpdate 7);
                     EControlLeverUpdated (demoLeverUpdate 8);
                     EControlLeverUpdated (demoLeverUpdate 9)]))
          !! controllerId 6
  = Some 5%Z ∧
  Z.quot (sumZ [5; 6; 7; 8; 9]) 5 = 7%Z.
Proof. split; vm_compute; reflexivity. Qed.

(** ** Ownership changes *)

(** C5, as amended: a sale of a stored token whose owner is a stored
    user stores the token with [currentBuyPrice = 0] and no current bid,
    and stores the previously current bid (when one loads) inactive, with
    its id appended to the token's past bids.  A plain transfer of a stored
    token stores the token with [currentBuyPrice = 0] too, but leaves
    [currentBid], the past bids and every Bid record as they were.
    Neither handler removes a Bid record. *)
Theorem ownership_change_resets_price (w : World) (token : Token.t) :
  (∀ (e : Event TokenSale.t) (seller : User.t),
     tokens (store w) !! toString (TokenSale.tokenId (params e))
     = Some token →
     usersWith (toHexString (TokenSale.buyer (params e))) (store w)
       !! Token.owner token = Some seller →
     ∃ w' token',
       exec (handleTokenSale e) w = Ok w' ∧
       tokens (store w') !! Token.id token = Some token' ∧
       Token.currentBuyPrice token' = 0 ∧
       Token.currentBid token' = None ∧
       dom (bids (store w)) ⊆ dom (bids (store w')) ∧
       match loadedBid (store w) token with
       | Some bid =>
           ∃ bid',
             bids (store w') = <[Bid.id bid := bid']> (bids (store w)) ∧
             Bid.bidActive bid' = false ∧
             Token.pastBids token' = Token.pastBids token ++ [Bid.id bid]
       | None =>
           bids (store w') = bids (store w) ∧
           Token.pastBids token' = Token.pastBids token
       end) ∧
  (∀ e : Event Transfer.t,
     tokens (store w) !! toString (Transfer.tokenId (params e))
     = Some token →
     ∃ w' token',
       exec (handleTransfer e) w = Ok w' ∧
       tokens (store w') !! Token.id token = Some token' ∧
       Token.currentBuyPrice token' = 0 ∧
       Token.currentBid token' = Token.currentBid token ∧
       Token.pastBids token' = Token.pastBids token ∧
       bids (store w') = bids (store w)).
Proof.
  split.
  - intros e seller Hk Hseller.
    pose proof (handleTokenSale_effect e w) as H. cbn zeta in H.
    rewrite Hk, Hseller in H.
    destruct H as (w' & sale & token' & Hrun & _ & _ & Ht & _ & _ & _ & _
                   & _ & _ & _ & _ & _ & Hcur & Hprice & _ & H).
    exists w', token'. split; [done|].
    split; [by rewrite Ht, lookup_insert_eq|]. split; [done|].
    split; [done|].
    destruct (loadedBid (store w) token) as [bid|].
    + destruct H as (Hb & _ & _ & Hpast). split.
      * rewrite Hb, dom_insert_L. set_solver.
      * eexists. split; [exact Hb|]. split; [reflexivity|done].
    + destruct H as (Hb & _ & _ & Hpast). by rewrite Hb.
  - intros e Hk.
    pose proof (handleTransfer_effect e w) as H. cbn zeta in H.
    rewrite Hk in H.
    destruct H as (w' & token' & Hrun & Hb & _ & _ & Ht & _ & Hprice & Hcur
                   & Hpast & _).
    exists w', token'. split; [done|].
    split; [by rewrite Ht, lookup_insert_eq|]. done.
Qed.

Lemma ownership_change_resets_price_witness :
  ∃ w' token',
    exec (handleTransfer demoTransfer) demoWorldBid = Ok w' ∧
    tokens (store w') !! "6" = Some token' ∧
    Token.currentBuyPrice token' = 0 ∧
    Token.currentBid token' = Some "6-0xb1".
Proof.
  edestruct (proj2 (ownership_change_resets_price demoWorldBid
                      (Token.set_currentBid (Some "6-0xb1") demoToken6))
               demoTransfer)
    as (w' & token' & Hrun & Ht' & Hprice & Hcur & _);
    [vm_compute; reflexivity|].
  exists w', token'. split; [exact Hrun|]. split; [exact Ht'|].
  split; [exact Hprice|exact Hcur].
Defined.

(** C5 as stated fails for a plain transfer: transferring token 6 while the
    bid [6-0xb1] is current leaves that bid as the token's current bid,
    still active, and archives nothing. *)
Lemma transfer_keeps_current_bid :
  let w' := worldAfter [ECreatorWhitelisted demoCreate; EBidProposed demoBid1;
                        ETransfer demoTransfer] in
  exec (handleTransfer demoTransfer) demoWorldBid = Ok w' ∧
  tokens (store w') !! "6" ≫= Token.currentBid = Some "6-0xb1" ∧
  Token.pastBids <$> tokens (store w') !! "6" = Some [] ∧
  Bid.bidActive <$> bids (store w') !! "6-0xb1" = Some true.
Proof.
  cbn zeta. split; [vm_compute; reflexivity|].
  split; [vm_compute; reflexivity|].
  split; vm_compute; reflexivity.
Qed.

(** ** Token creation *)

Lemma append_length (s r : string) :
  String.length (s +:+ r) = (String.length s + String.length r)%nat.
Proof.
  induction s as [|c s IH]; [done|]. rewrite append_cons. cbn. by rewrite IH.
Qed.

Lemma append_inj_r (s1 s2 r : string) : s1 +:+ r = s2 +:+ r → s1 = s2.
Proof.
  revert s2. induction s1 as [|c s1 IH]; intros [|c2 s2] Heq;
    rewrite ?append_cons, ?append_nil_l in Heq.
  - done.
  - apply (f_equal String.length) in Heq. cbn in Heq.
    rewrite append_length in Heq. lia.
  - apply (f_equal String.length) in Heq. cbn in Heq.
    rewrite append_length in Heq. lia.
  - injection Heq as -> Heq. by rewrite (IH s2 Heq).
Qed.

Lemma controllerId_inj_any t t' : controllerId t = controllerId t' → t = t'.
Proof.
  unfold controllerId. intros Heq%append_inj_r. by apply (inj pretty).
Qed.

Lemma forEach_createLever tid l : ∀ w,
  ∃ w', forEach (createLever tid) l w = Ok (tt, w') ∧
    globalState (store w') = globalState (store w) ∧
    tokens (store w') = tokens (store w) ∧
    tokenControllers (store w') = tokenControllers (store w) ∧
    (∀ k, is_Some (tokenControlLevers (store w) !! k) →
          is_Some (tokenControlLevers (store w') !! k)) ∧
    (∀ x, x ∈ l →
          is_Some (tokenControlLevers (store w') !! leverId tid x.1)).
Proof.
  induction l as [|x l IH]; intros w; cbn.
  - eexists. split; [done|]. repeat (split; [done|]).
    intros x Hx. by inversion Hx.
  - assert (∃ w1, createLever tid x w = Ok (tt, w1) ∧
              store w1
              = with_tokenControlLevers
                  (<[leverId tid x.1 :=
                       TokenControlLever.mk (leverId tid x.1) x.2 x.2 0 None]>
                     (tokenControlLevers (store w))) (store w))
      as (w1 & H1 & Hs1) by (eexists; split; reflexivity).
    destruct (IH w1) as (w' & Hrun & Hg & Ht & Hc & Hmono & Hnew).
    unfold mbind, M_mbind, M_bind. rewrite H1, Hrun.
    exists w'. split; [done|]. rewrite Hs1 in Hg, Ht, Hc, Hmono. cbn in *.
    repeat (split; [done|]). split.
    + intros k Hk. apply Hmono.
      destruct (decide (leverId tid x.1 = k)) as [->|Hne].
      * by rewrite lookup_insert_eq.
      * by rewrite lookup_insert_ne.
    + intros y [->|Hy]%elem_of_cons; [|by apply Hnew].
      apply Hmono. by rewrite lookup_insert_eq.
Qed.

Lemma createChild_spec c tid w :
  ∃ w', createChild c tid w = Ok (tt, w') ∧
    globalState (store w') = globalState (store w) ∧
    tokens (store w') = <[toString tid := newToken c tid false]>
                          (tokens (store w)) ∧
    tokenControllers (store w')
    = <[controllerId tid :=
          TokenController.mk (controllerId tid) 0 0 0 None []]>
        (tokenControllers (store w)) ∧
    (∀ k, is_Some (tokenControlLevers (store w) !! k) →
          is_Some (tokenControlLevers (store w') !! k)) ∧
    (∀ x, x ∈ call_controlLevers c tid →
          is_Some (tokenControlLevers (store w') !! leverId tid x.1)).
Proof.
  unfold createChild. munfold.
  destruct (users (store w) !! _); cbn;
    match goal with |- context [forEach _ _ ?W] =>
      destruct (forEach_createLever tid (call_controlLevers c tid) W)
        as (w' & Hrun & Hg & Ht & Hc & Hmono & Hnew) end;
    rewrite Hrun; exists w'; cbn in *; by rewrite Hg, Ht, Hc.
Qed.

Lemma forEach_createChild c l : ∀ w,
  ∃ w', forEach (createChild c) l w = Ok (tt, w') ∧
    globalState (store w') = globalState (store w) ∧
    (∀ tid, tid ∈ l →
       tokens (store w') !! toString tid = Some (newToken c tid false) ∧
       tokenControllers (store w') !! controllerId tid
       = Some (TokenController.mk (controllerId tid) 0 0 0 None []) ∧
       ∀ x, x ∈ call_controlLevers c tid →
            is_Some (tokenControlLevers (store w') !! leverId tid x.1)) ∧
    (∀ k, (∀ tid, tid ∈ l → k ≠ toString tid) →
          tokens (store w') !! k = tokens (store w) !! k) ∧
    (∀ k, (∀ tid, tid ∈ l → k ≠ controllerId tid) →
          tokenControllers (store w') !! k
          = tokenControllers (store w) !! k) ∧
    (∀ k, is_Some (tokenControlLevers (store w) !! k) →
          is_Some (tokenControlLevers (store w') !! k)).
Proof.
  induction l as [|x l IH]; intros w; cbn.
  - eexists. split; [done|]. split; [done|].
    split; [intros ? Hx; by inversion Hx|]. done.
  - destruct (createChild_spec c x w)
      as (w1 & Hrun1 & Hg1 & Ht1 & Hc1 & Hmono1 & Hnew1).
    destruct (IH w1) as (w' & Hrun & Hg & Hin & Htout & Hcout & Hmono).
    unfold mbind, M_mbind, M_bind. rewrite Hrun1.
    exists w'. split; [done|]. split; [congruence|]. split; [|split; [|split]].
    + intros tid [->|Htid]%elem_of_cons; [|by apply Hin].
      destruct (decide (x ∈ l)) as [Hxl|Hxl]; [by apply Hin|].
      rewrite Htout, Hcout, Ht1, Hc1, !lookup_insert_eq.
      * split; [done|]. split; [done|]. intros y Hy. by apply Hmono, Hnew1.
      * intros t Ht Heq. apply controllerId_inj_any in Heq. by subst.
      * intros t Ht Heq. apply (inj pretty) in Heq. by subst.
    + intros k Hk. rewrite Htout, Ht1.
      * apply lookup_insert_ne. intros Heq. by apply (Hk x); [left|].
      * intros t Ht. apply Hk. by right.
    + intros k Hk. rewrite Hcout, Hc1.
      * apply lookup_insert_ne. intros Heq. by apply (Hk x); [left|].
      * intros t Ht. apply Hk. by right.
    + intros k Hk. by apply Hmono, Hmono1.
Qed.

(** C9 (creation modelled from the specification): a creation event for
    master id M with child count N always succeeds and leaves a master
    Token under id M with [isMaster = true]; for each of the ids
    M+1 .. M+N a child Token with [isMaster = false], one TokenController
    under [<id>-Controller] with no updates yet, and a TokenControlLever
    for every lever the contract reports for that child; no controller
    for the master; no other Token or TokenController is touched; and the
    global state's expected total supply is M + N + 1. *)
Theorem creation_creates_master_and_children
  (e : Event CreatorWhitelisted.t) (w : World) :
  let M := CreatorWhitelisted.tokenId (params e) in
  let N := CreatorWhitelisted.layerCount (params e) in
  ∃ w' g master,
    exec (handleCreatorWhitelisted e) w = Ok w' ∧
    globalState (store w') = Some g ∧
    GlobalState.latestMasterTokenId g = M ∧
    GlobalState.currentExpectedTokenSupply g = (M + N + 1)%Z ∧
    tokens (store w') !! toString M = Some master ∧
    Token.id master = toString M ∧
    Token.isMaster master = true ∧
    tokenControllers (store w') !! controllerId M
    = tokenControllers (store w) !! controllerId M ∧
    (∀ i, (1 ≤ i ≤ N)%Z →
       ∃ child controller,
         tokens (store w') !! toString (M + i) = Some child ∧
         Token.id child = toString (M + i) ∧
         Token.isMaster child = false ∧
         Token.numberOfSales child = 0 ∧
         tokenControllers (store w') !! controllerId (M + i)
         = Some controller ∧
         TokenController.id controller = controllerId (M + i) ∧
         TokenController.numberOfUpdates controller = 0 ∧
         TokenController.averageUpdateCost controller = 0 ∧
         ∀ x, x ∈ call_controlLevers (address e) (M + i) →
              is_Some (tokenControlLevers (store w')
                         !! leverId (M + i) x.1)) ∧
    (∀ k, k ≠ toString M → (∀ i, (1 ≤ i ≤ N)%Z → k ≠ toString (M + i)) →
          tokens (store w') !! k = tokens (store w) !! k) ∧
    (∀ k, (∀ i, (1 ≤ i ≤ N)%Z → k ≠ controllerId (M + i)) →
          tokenControllers (store w') !! k
          = tokenControllers (store w) !! k).
Proof.
  intros M N. unfold handleCreatorWhitelisted, createTokensFromMasterTokenId.
  fold M N. set (c := address e).
  set (ids := (λ i : nat, (M + 1 + Z.of_nat i)%Z) <$> seq 0 (Z.to_nat N)).
  assert (∀ t, t ∈ ids ↔ ∃ i, (1 ≤ i ≤ N)%Z ∧ t = (M + i)%Z) as Hids.
  { intros t. unfold ids. rewrite list_elem_of_fmap. split.
    - intros (i & -> & Hi%elem_of_seq). exists (1 + Z.of_nat i)%Z.
      split; lia.
    - intros (i & Hi & ->). exists (Z.to_nat (i - 1)). split; [lia|].
      apply elem_of_seq. lia. }
  munfold.
  destruct (globalState (store w)) as [g0|]; cbn;
    destruct (users (store w) !! _) as [u0|]; cbn;
    match goal with |- context [forEach _ _ ?W] =>
      destruct (forEach_createChild c ids W)
        as (w' & Hrun & Hg & Hin & Htout & Hcout & _) end;
    rewrite Hrun; cbn in *;
    (eexists w', _, (newToken c M true); split; [done|]);
    (split; [exact Hg|]); (split; [done|]); (split; [done|]);
    (split; [rewrite Htout;
             [apply lookup_insert_eq
             |intros tk (i & Hi & ->)%Hids Heq; apply (inj pretty) in Heq; lia]
            |]);
    (split; [done|]); (split; [done|]);
    (split; [apply Hcout; intros tk (i & Hi & ->)%Hids Heq;
             apply controllerId_inj_any in Heq; lia|]);
    (split; [intros i Hi;
             destruct (Hin (M + i)%Z) as (Ht & Hc & Hl);
             [apply Hids; by exists i|];
             by eexists _, _|]);
    (split; [intros k HkM Hk; rewrite Htout;
             [by apply lookup_insert_ne
             |intros tk (i & Hi & ->)%Hids; by apply Hk]
            |]);
    intros k Hk; apply Hcout; intros tk (i & Hi & ->)%Hids; by apply Hk.
Qed.

(** Scenario D of the specification: master id 5 with three children. *)
Example creation_scenario_D :
  let s := store demoWorld in
  (Token.isMaster <$> tokens s !! "5", Token.isMaster <$> tokens s !! "6",
   Token.isMaster <$> tokens s !! "7", Token.isMaster <$> tokens s !! "8")
  = (Some true, Some false, Some false, Some false) ∧
  dom (tokens s) = {["5"; "6"; "7"; "8"]} ∧
  dom (tokenControllers s)
  = {["6-Controller"; "7-Controller"; "8-Controller"]} ∧
  dom (tokenControlLevers s)
  = {["6-0"; "6-1"; "7-0"; "7-1"; "8-0"; "8-1"]} ∧
  GlobalState.currentExpectedTokenSupply <$> globalState s = Some 9%Z.
Proof.
  cbn zeta. split; [vm_compute; reflexivity|].
  split; [vm_compute; reflexivity|].
  split; [vm_compute; reflexivity|].
  split; vm_compute; reflexivity.
Qed.

(** ** Record-level consistency at every write *)

Lemma keeps_inv I {A} (m : M A) (Q : A → World → Prop) w :
  (I (store w) → keeps I m Q w) → keeps I m Q w.
Proof. intros H HI. by apply H. Qed.

Lemma consistent_write wr s :
  recordOk wr → consistent s → consistent (applyWrite wr s).
Proof.
  intros Hok (Hwt & Hwc & Htok & Husr & Hbid & Hsal & Hctl & Hlu & Hlev).
  destruct wr; cbn in Hok; unfold consistent, wfTokens, wfControllers; cbn;
    split_and!; try assumption; by apply map_Forall_insert_2.
Qed.

Lemma consistent_empty : consistent emptyStore.
Proof.
  unfold consistent, wfTokens, wfControllers. cbn.
  split_and!; apply map_Forall_empty.
Qed.

Lemma loaded_token s k t :
  consistent s → Some k ≫= (λ k, tokens s !! k) = Some t →
  Token.id t = k ∧ saleHistoryOk t ∧ transferHistoryOk t.
Proof.
  intros (Hwt & _ & Htok & _) H. cbn in H.
  split; [exact (Hwt _ _ H)|exact (Htok _ _ H)].
Qed.

Lemma loaded_user s k u :
  consistent s → Some k ≫= (λ k, users s !! k) = Some u → ownershipListsOk u.
Proof. intros (_ & _ & _ & Husr & _) H. exact (Husr _ _ H). Qed.

Lemma loaded_bid s o b :
  consistent s → o ≫= (λ k, bids s !! k) = Some b → bidFlagsOk b.
Proof.
  intros (_ & _ & _ & _ & Hbid & _) H. destruct o; [|done].
  exact (Hbid _ _ H).
Qed.

Lemma loaded_controller s k c :
  consistent s → Some k ≫= (λ k, tokenControllers s !! k) = Some c →
  TokenController.id c = k ∧ updateHistoryOk c.
Proof.
  intros (_ & Hwc & _ & _ & _ & _ & Hctl & _) H. cbn in H.
  split; [exact (Hwc _ _ H)|exact (Hctl _ _ H)].
Qed.

Lemma loaded_lever s k l :
  consistent s → Some k ≫= (λ k, tokenControlLevers s !! k) = Some l →
  leverOk l.
Proof. intros (_ & _ & _ & _ & _ & _ & _ & _ & Hlev) H. exact (Hlev _ _ H). Qed.

(** After a load, what the invariant says of the loaded record. *)
Ltac charvest H :=
  lazymatch type of H with
  | _ ≫= _ = Some _ =>
      apply keeps_inv;
      let HI := fresh "HI" in
      intros HI;
      first [ pose proof (loaded_token _ _ _ HI H)
            | pose proof (loaded_user _ _ _ HI H)
            | pose proof (loaded_bid _ _ _ HI H)
            | pose proof (loaded_controller _ _ _ HI H)
            | pose proof (loaded_lever _ _ _ HI H)
            | idtac ];
      clear HI
  | _ => idtac
  end.

Ltac cstep :=
  cbn beta;
  lazymatch goal with
  | |- keeps _ (_ ≫= _) _ _ => apply keeps_bind
  | |- keeps _ (mret _) _ _ => apply keeps_ret
  | |- keeps _ (abort _) _ _ => apply keeps_abort
  | |- keeps _ get_store _ _ => apply keeps_get_store
  | |- keeps _ (log_info _) _ _ =>
      apply keeps_log_info; cbn [store journal logs]
  | |- keeps _ (log_warning _) _ _ =>
      apply keeps_log_warning; cbn [store journal logs]
  | |- keeps _ (write _) _ _ =>
      apply keeps_write;
      [apply consistent_write; cbn [recordOk]|cbn [store journal logs]]
  | |- keeps _ (match (if ?c then _ else _) with _ => _ end) _ _ =>
      destruct c eqn:?
  | |- keeps _ (match ?x with _ => _ end) _ _ =>
      let H := fresh "Hld" in destruct x eqn:H; charvest H
  | |- keeps _ (let _ := _ in _) _ _ => cbv zeta
  end.

Lemma NoDup_addIfMissing x l : NoDup l → NoDup (addIfMissing x l).
Proof.
  intros Hl. unfold addIfMissing. case_decide; [done|].
  apply NoDup_app. split; [done|]. split; [|apply NoDup_singleton].
  intros y Hy ->%list_elem_of_singleton. done.
Qed.

Ltac ok_unfold :=
  unfold saleHistoryOk, transferHistoryOk, ownershipListsOk, bidFlagsOk,
    saleRecordOk, updateHistoryOk, layerUpdateOk, leverOk in *.

Ltac ok_solve :=
  ok_unfold; cbn in *;
  repeat match goal with
         | H : _ ∧ _ |- _ => destruct H
         end;
  repeat match goal with
         | |- context [if ?c then _ else _] => destruct c
         end;
  rewrite ?last_snoc, ?length_app, ?Nat2Z.inj_add; cbn;
  repeat split;
  first [ done | lia | (apply NoDup_addIfMissing; first [done|apply NoDup_nil_2]) | apply NoDup_nil_2
        | congruence | (symmetry; apply bool_decide_eq_true_2; lia) | idtac ].

Lemma linkController_consistent m x w :
  keeps consistent (linkController m x) (λ _ _, True) w.
Proof. unfold linkController. kunfold. repeat cstep; done. Qed.

Lemma reconcile_consistent w :
  keeps consistent (trySetMasterLayers ≫= λ _, linkMasterAndControllers)
    (λ _ _, True) w.
Proof.
  unfold trySetMasterLayers, linkMasterAndControllers. kunfold.
  repeat cstep; try done;
    apply keeps_forEach; intros; apply linkController_consistent.
Qed.

Ltac ctail :=
  lazymatch goal with
  | |- keeps _ (trySetMasterLayers ≫= _) _ _ => apply reconcile_consistent
  end.

Ltac cgo := repeat (cbn beta; first [ ctail | cstep ]).

Lemma handleBidProposed_consistent e w :
  keeps consistent (handleBidProposed e) (λ _ _, True) w.
Proof.
  unfold handleBidProposed. kunfold. cgo; try done.
  all: ok_solve.
Qed.

Lemma handleBidWithdrawn_consistent e w :
  keeps consistent (handleBidWithdrawn e) (λ _ _, True) w.
Proof. unfold handleBidWithdrawn. kunfold. cgo; try done. all: ok_solve. Qed.

Lemma handleBuyPriceSet_consistent e w :
  keeps consistent (handleBuyPriceSet e) (λ _ _, True) w.
Proof. unfold handleBuyPriceSet. kunfold. cgo; try done. all: ok_solve. Qed.

Lemma handlePermissionUpdated_consistent e w :
  keeps consistent (handlePermissionUpdated e) (λ _ _, True) w.
Proof.
  unfold handlePermissionUpdated. kunfold. cgo; try done. all: ok_solve.
Qed.

Lemma handlePlatformSalePercentageUpdated_consistent e w :
  keeps consistent (handlePlatformSalePercentageUpdated e) (λ _ _, True) w.
Proof.
  unfold handlePlatformSalePercentageUpdated. kunfold. cgo; try done.
  all: ok_solve.
Qed.

Lemma handleTransfer_consistent e w :
  keeps consistent (handleTransfer e) (λ _ _, True) w.
Proof. unfold handleTransfer. kunfold. cgo; try done. all: ok_solve. Qed.

Lemma handleTokenSale_consistent e w :
  keeps consistent (handleTokenSale e) (λ _ _, True) w.
Proof. unfold handleTokenSale. kunfold. cgo; try done. all: ok_solve. Qed.

Lemma handleGlobalOnly_consistent ev w :
  match ev with
  | EArtistSecondSalePercentUpdated _ | EPlatformAddressUpdated _ => True
  | _ => False
  end →
  keeps consistent (handle ev) (λ _ _, True) w.
Proof.
  destruct ev; try done; intros _; cbn [handle];
    unfold handleArtistSecondSalePercentUpdated, handlePlatformAddressUpdated;
    kunfold; cgo; done.
Qed.

Lemma updateLever_consistent tid ls ps us lu i w :
  keeps consistent (updateLever tid ls ps us lu i) (λ _ _, True) w.
Proof. unfold updateLever. kunfold. cgo; try done. all: ok_solve. Qed.

Lemma updateLever_layer tid ls ps us lu i w lu' w' :
  updateLever tid ls ps us lu i w = Ok (lu', w') →
  ∃ lv, lu' = LayerUpdate.set_leversUpdated lv lu.
Proof.
  unfold updateLever. munfold.
  destruct (ls !! i); cbn; [|done].
  destruct (ps !! i); cbn; [|done].
  destruct (tokenControlLevers (store w) !! _); cbn; [|done].
  destruct (us !! i); cbn; [|done].
  intros [= <- <-]. eauto.
Qed.

Lemma foldM_updateLever_layer tid ls ps us l : ∀ lu w lu' w',
  foldM (updateLever tid ls ps us) lu l w = Ok (lu', w') →
  ∃ lv, lu' = LayerUpdate.set_leversUpdated lv lu.
Proof.
  induction l as [|i l IH]; intros lu w lu' w'; cbn.
  - intros [= <- <-]. exists (LayerUpdate.leversUpdated lu). by destruct lu.
  - unfold mbind, M_mbind, M_bind.
    destruct (updateLever _ _ _ _ _ _ _) as [[lu1 w1]|] eqn:H1; [|done].
    intros H2. apply updateLever_layer in H1 as (lv1 & ->).
    apply IH in H2 as (lv2 & ->). by exists lv2.
Qed.

Lemma handleControlLeverUpdated_consistent e w :
  keeps consistent (handleControlLeverUpdated e) (λ _ _, True) w.
Proof.
  unfold handleControlLeverUpdated, nextAverageUpdateCost. kunfold.
  cgo; try done.
  all: apply keeps_frame;
    [apply keeps_foldM; intros; apply updateLever_consistent|].
  all: intros lu w1 Hf; apply foldM_updateLever_layer in Hf as (lv & ->).
  all: cgo; try done.
  all: ok_solve.
  all: eexists; split; [reflexivity|eassumption].
Qed.

Lemma createLever_consistent tid x w :
  keeps consistent (createLever tid x) (λ _ _, True) w.
Proof. unfold createLever. kunfold. cgo; try done. all: ok_solve. Qed.

Lemma createChild_consistent c x w :
  keeps consistent (createChild c x) (λ _ _, True) w.
Proof.
  unfold createChild, newToken. kunfold. cgo; try done.
  all: try (apply keeps_forEach; intros; apply createLever_consistent).
  all: ok_solve.
Qed.

Lemma handleCreatorWhitelisted_consistent e w :
  keeps consistent (handleCreatorWhitelisted e) (λ _ _, True) w.
Proof.
  unfold handleCreatorWhitelisted, createTokensFromMasterTokenId, newToken.
  kunfold. cgo; try done.
  all: try (apply keeps_forEach; intros; apply createChild_consistent).
  all: ok_solve.
Qed.

Lemma handle_consistent ev w :
  keeps consistent (handle ev) (λ _ _, True) w.
Proof.
  destruct ev; cbn [handle].
  - by apply (handleGlobalOnly_consistent (EArtistSecondSalePercentUpdated _)).
  - apply handleBidProposed_consistent.
  - apply handleBidWithdrawn_consistent.
  - apply handleBuyPriceSet_consistent.
  - apply handleControlLeverUpdated_consistent.
  - apply handleCreatorWhitelisted_consistent.
  - apply handlePermissionUpdated_consistent.
  - by apply (handleGlobalOnly_consistent (EPlatformAddressUpdated _)).
  - apply handlePlatformSalePercentageUpdated_consistent.
  - apply handleTokenSale_consistent.
  - apply handleTransfer_consistent.
Qed.

(** Over any run, creation events included, every single write leaves the
    records consistent. *)
Lemma run_consistent evs : ∀ w w',
  consistent (store w) → run evs w = Ok w' →
  ∃ j, journal w' = journal w ++ j ∧ store w' = replay j (store w) ∧
       stepsKeep consistent j (store w).
Proof.
  induction evs as [|ev evs IH]; intros w w' Hinv; cbn.
  - intros [= <-]. exists []. by rewrite app_nil_r.
  - pose proof (handle_consistent ev w Hinv) as Hk. unfold exec.
    destruct (handle ev w) as [[[] w1]|]; [|done].
    destruct Hk as (j1 & Hj1 & Hs1 & Hk1 & _). intros Hrun.
    assert (consistent (store w1)) as Hinv1
      by (rewrite Hs1; by apply stepsKeep_last).
    destruct (IH _ _ Hinv1 Hrun) as (j2 & Hj2 & Hs2 & Hk2).
    exists (j1 ++ j2). rewrite Hj2, Hj1, Hs2, Hs1, app_assoc.
    split; [done|]. split; [unfold replay; by rewrite foldl_app|].
    apply stepsKeep_app; [done|]. by rewrite <- Hs1.
Qed.

Lemma run_consistent_final evs w w' :
  consistent (store w) → run evs w = Ok w' → consistent (store w').
Proof.
  intros Hinv Hrun.
  destruct (run_consistent _ _ _ Hinv Hrun) as (j & _ & -> & Hk).
  by apply stepsKeep_last.
Qed.

(** X1: over any run of events, creation included, from a consistent store,
    every stored token's sale count is the length of its list of sales, its
    last sale is the last entry of that list, and its first-sale flag is set
    exactly when the count is positive. *)
Theorem token_sale_history_consistent (evs : list AnyEvent) (w w' : World) :
  consistent (store w) → run evs w = Ok w' →
  ∀ k t, tokens (store w') !! k = Some t →
    Z.of_nat (length (Token.allSales t)) = Token.numberOfSales t ∧
    Token.lastSale t = last (Token.allSales t) ∧
    Token.tokenDidHaveFirstSale t
    = bool_decide (0 < Token.numberOfSales t)%Z.
Proof.
  intros Hinv Hrun k t Hk.
  destruct (run_consistent_final _ _ _ Hinv Hrun) as (_ & _ & Htok & _).
  exact (proj1 (Htok _ _ Hk)).
Qed.

Lemma token_sale_history_consistent_witness :
  ∃ t,
    tokens (store (worldAfter [ECreatorWhitelisted demoCreate;
                               ETokenSale (demoSale "0xu1" 100);
                               ETokenSale (demoSale "0xu2" 120)])) !! "6"
    = Some t ∧
    Z.of_nat (length (Token.allSales t)) = Token.numberOfSales t ∧
    Token.lastSale t = last (Token.allSales t) ∧
    Token.tokenDidHaveFirstSale t
    = bool_decide (0 < Token.numberOfSales t)%Z.
Proof.
  eexists. split; [vm_compute; reflexivity|].
  apply (token_sale_history_consistent
           [ECreatorWhitelisted demoCreate; ETokenSale (demoSale "0xu1" 100);
            ETokenSale (demoSale "0xu2" 120)] emptyWorld
           (worldAfter [ECreatorWhitelisted demoCreate;
                        ETokenSale (demoSale "0xu1" 100);
                        ETokenSale (demoSale "0xu2" 120)])
           consistent_empty) with "6".
  - vm_compute. reflexivity.
  - vm_compute. reflexivity.
Defined.

(** X2: over any run of events from a consistent store, every stored
    token's last transfer is the last entry of its list of transfers, and
    its list of past owners holds no owner twice. *)
Theorem token_transfer_history_consistent (evs : list AnyEvent)
  (w w' : World) :
  consistent (store w) → run evs w = Ok w' →
  ∀ k t, tokens (store w') !! k = Some t →
    Token.lastTransfer t = last (Token.allTransfers t) ∧
    NoDup (Token.pastOwners t).
Proof.
  intros Hinv Hrun k t Hk.
  destruct (run_consistent_final _ _ _ Hinv Hrun) as (_ & _ & Htok & _).
  exact (proj2 (Htok _ _ Hk)).
Qed.

Lemma token_transfer_history_consistent_witness :
  ∃ t,
    tokens (store (worldAfter [ECreatorWhitelisted demoCreate;
                               ETransfer demoTransfer;
                               ETransfer demoTransfer])) !! "6"
    = Some t ∧
    Token.lastTransfer t = last (Token.allTransfers t) ∧
    NoDup (Token.pastOwners t).
Proof.
  eexists. split; [vm_compute; reflexivity|].
  apply (token_transfer_history_consistent
           [ECreatorWhitelisted demoCreate; ETransfer demoTransfer;
            ETransfer demoTransfer] emptyWorld
           (worldAfter [ECreatorWhitelisted demoCreate;
                        ETransfer demoTransfer; ETransfer demoTransfer])
           consistent_empty) with "6".
  - vm_compute. reflexivity.
  - vm_compute. reflexivity.
Defined.

(** X3: over any run of events from a consistent store, no user's list of
    owned masters or of owned controllers holds an entry twice. *)
Theorem user_ownership_lists_have_no_duplicates (evs : list AnyEvent)
  (w w' : World) :
  consistent (store w) → run evs w = Ok w' →
  ∀ k u, users (store w') !! k = Some u →
    NoDup (User.ownedMasters u) ∧ NoDup (User.ownerControllers u).
Proof.
  intros Hinv Hrun k u Hk.
  destruct (run_consistent_final _ _ _ Hinv Hrun) as (_ & _ & _ & Husr & _).
  exact (Husr _ _ Hk).
Qed.

Lemma user_ownership_lists_have_no_duplicates_witness :
  ∃ u,
    users (store (worldAfter [ECreatorWhitelisted demoCreate;
                              ETransfer demoTransfer;
                              ETransfer demoTransfer])) !! "0xu3"
    = Some u ∧
    NoDup (User.ownedMasters u) ∧ NoDup (User.ownerControllers u).
Proof.
  eexists. split; [vm_compute; reflexivity|].
  apply (user_ownership_lists_have_no_duplicates
           [ECreatorWhitelisted demoCreate; ETransfer demoTransfer;
            ETransfer demoTransfer] emptyWorld
           (worldAfter [ECreatorWhitelisted demoCreate;
                        ETransfer demoTransfer; ETransfer demoTransfer])
           consistent_empty) with "0xu3".
  - vm_compute. reflexivity.
  - vm_compute. reflexivity.
Defined.

(** X4: over any run of events from a consistent store, a stored bid that
    is active has not been accepted and carries no withdrawal timestamp. *)
Theorem active_bid_is_neither_accepted_nor_withdrawn (evs : list AnyEvent)
  (w w' : World) :
  consistent (store w) → run evs w = Ok w' →
  ∀ k b, bids (store w') !! k = Some b → Bid.bidActive b = true →
    Bid.bidAccepted b = false ∧ Bid.BidWithdrawnTimestamp b = None.
Proof.
  intros Hinv Hrun k b Hk.
  destruct (run_consistent_final _ _ _ Hinv Hrun)
    as (_ & _ & _ & _ & Hbid & _).
  exact (Hbid _ _ Hk).
Qed.

Lemma active_bid_is_neither_accepted_nor_withdrawn_witness :
  ∃ b,
    bids (store (worldAfter [ECreatorWhitelisted demoCreate;
                             EBidProposed demoBid1;
                             EBidWithdrawn demoWithdraw;
                             EBidProposed demoBid2])) !! "6-0xb2"
    = Some b ∧
    Bid.bidActive b = true ∧
    Bid.bidAccepted b = false ∧ Bid.BidWithdrawnTimestamp b = None.
Proof.
  eexists. split; [vm_compute; reflexivity|].
  split; [vm_compute; reflexivity|].
  apply (active_bid_is_neither_accepted_nor_withdrawn
           [ECreatorWhitelisted demoCreate; EBidProposed demoBid1;
            EBidWithdrawn demoWithdraw; EBidProposed demoBid2] emptyWorld
           (worldAfter [ECreatorWhitelisted demoCreate;
                        EBidProposed demoBid1; EBidWithdrawn demoWithdraw;
                        EBidProposed demoBid2])
           consistent_empty) with "6-0xb2".
  - vm_compute. reflexivity.
  - vm_compute. reflexivity.
  - vm_compute. reflexivity.
Defined.

(** X5: over any run of events from a consistent store, every stored sale
    has the id [<token>-<number>] of its token and sale number, its number
    is at least one, and it is flagged as a bid sale exactly when it
    references a bid. *)
Theorem sale_records_are_well_formed (evs : list AnyEvent) (w w' : World) :
  consistent (store w) → run evs w = Ok w' →
  ∀ k x, sales (store w') !! k = Some x →
    Sale.id x
    = Sale.tokenDetails x +:+ "-" +:+ toString (Sale.tokenSaleNumber x) ∧
    (1 ≤ Sale.tokenSaleNumber x)%Z ∧
    (Sale.isBidSale x = true ↔ is_Some (Sale.bidDetails x)).
Proof.
  intros Hinv Hrun k x Hk.
  destruct (run_consistent_final _ _ _ Hinv Hrun)
    as (_ & _ & _ & _ & _ & Hsal & _).
  exact (Hsal _ _ Hk).
Qed.

Lemma sale_records_are_well_formed_witness :
  ∃ x,
    sales (store (worldAfter [ECreatorWhitelisted demoCreate;
                              EBidProposed demoBid1;
                              ETokenSale (demoSale "0xu1" 100);
                              ETokenSale (demoSale "0xu2" 120)])) !! "6-1"
    = Some x ∧
    Sale.id x
    = Sale.tokenDetails x +:+ "-" +:+ toString (Sale.tokenSaleNumber x) ∧
    (1 ≤ Sale.tokenSaleNumber x)%Z ∧
    (Sale.isBidSale x = true ↔ is_Some (Sale.bidDetails x)).
Proof.
  eexists. split; [vm_compute; reflexivity|].
  apply (sale_records_are_well_formed
           [ECreatorWhitelisted demoCreate; EBidProposed demoBid1;
            ETokenSale (demoSale "0xu1" 100);
            ETokenSale (demoSale "0xu2" 120)] emptyWorld
           (worldAfter [ECreatorWhitelisted demoCreate;
                        EBidProposed demoBid1;
                        ETokenSale (demoSale "0xu1" 100);
                        ETokenSale (demoSale "0xu2" 120)])
           consistent_empty) with "6-1".
  - vm_compute. reflexivity.
  - vm_compute. reflexivity.
Defined.

(** X6: over any run of events from a consistent store, every stored
    controller's update count is the length of its list of updates, and its
    last update is the last entry of that list. *)
Theorem controller_update_history_consistent (evs : list AnyEvent)
  (w w' : World) :
  consistent (store w) → run evs w = Ok w' →
  ∀ k c, tokenControllers (store w') !! k = Some c →
    Z.of_nat (length (TokenController.allUpdates c))
    = TokenController.numberOfUpdates c ∧
    TokenController.lastUpdate c = last (TokenController.allUpdates c).
Proof.
  intros Hinv Hrun k c Hk.
  destruct (run_consistent_final _ _ _ Hinv Hrun)
    as (_ & _ & _ & _ & _ & _ & Hctl & _).
  exact (Hctl _ _ Hk).
Qed.

Lemma controller_update_history_consistent_witness :
  ∃ c,
    tokenControllers
      (store (worldAfter [ECreatorWhitelisted demoCreate;
                          EControlLeverUpdated (demoLeverUpdate 10);
                          EControlLeverUpdated (demoLeverUpdate 20)]))
      !! "6-Controller"
    = Some c ∧
    Z.of_nat (length (TokenController.allUpdates c))
    = TokenController.numberOfUpdates c ∧
    TokenController.lastUpdate c = last (TokenController.allUpdates c).
Proof.
  eexists. split; [vm_compute; reflexivity|].
  apply (controller_update_history_consistent
           [ECreatorWhitelisted demoCreate;
            EControlLeverUpdated (demoLeverUpdate 10);
            EControlLeverUpdated (demoLeverUpdate 20)] emptyWorld
           (worldAfter [ECreatorWhitelisted demoCreate;
                        EControlLeverUpdated (demoLeverUpdate 10);
                        EControlLeverUpdated (demoLeverUpdate 20)])
           consistent_empty) with "6-Controller".
  - vm_compute. reflexivity.
  - vm_compute. reflexivity.
Defined.

(** X7: over any run of events from a consistent store, every stored layer
    update records [gasUsed * gasPrice] as its cost, is numbered from one,
    is keyed [<token>-<number>] and names the controller of that token;
    and every stored lever names a latest update exactly when its update
    count is not zero. *)
Theorem layer_updates_and_levers_well_formed (evs : list AnyEvent)
  (w w' : World) :
  consistent (store w) → run evs w = Ok w' →
  (∀ k u, layerUpdates (store w') !! k = Some u →
     LayerUpdate.costInWei u
     = (LayerUpdate.gasUsed u * LayerUpdate.gasPrice u)%Z ∧
     (1 ≤ LayerUpdate.updateNumber u)%Z ∧
     ∃ tokenId : BigInt,
       LayerUpdate.id u
       = toString tokenId +:+ "-" +:+ toString (LayerUpdate.updateNumber u) ∧
       LayerUpdate.layer u = controllerId tokenId) ∧
  (∀ k l, tokenControlLevers (store w') !! k = Some l →
     (0 ≤ TokenControlLever.numberOfUpdates l)%Z ∧
     (TokenControlLever.latestUpdate l = None
      ↔ TokenControlLever.numberOfUpdates l = 0)).
Proof.
  intros Hinv Hrun.
  destruct (run_consistent_final _ _ _ Hinv Hrun)
    as (_ & _ & _ & _ & _ & _ & _ & Hlu & Hlev).
  split; [exact Hlu|exact Hlev].
Qed.

Lemma layer_updates_and_levers_well_formed_witness :
  let s := store (worldAfter [ECreatorWhitelisted demoCreate;
                              EControlLeverUpdated (demoLeverUpdate 10);
                              EControlLeverUpdated (demoLeverUpdate 20)]) in
  (∀ k u, layerUpdates s !! k = Some u →
     LayerUpdate.costInWei u
     = (LayerUpdate.gasUsed u * LayerUpdate.gasPrice u)%Z ∧
     (1 ≤ LayerUpdate.updateNumber u)%Z ∧
     ∃ tokenId : BigInt,
       LayerUpdate.id u
       = toString tokenId +:+ "-" +:+ toString (LayerUpdate.updateNumber u) ∧
       LayerUpdate.layer u = controllerId tokenId) ∧
  (∀ k l, tokenControlLevers s !! k = Some l →
     (0 ≤ TokenControlLever.numberOfUpdates l)%Z ∧
     (TokenControlLever.latestUpdate l = None
      ↔ TokenControlLever.numberOfUpdates l = 0)).
Proof.
  cbn zeta.
  apply (layer_updates_and_levers_well_formed
           [ECreatorWhitelisted demoCreate;
            EControlLeverUpdated (demoLeverUpdate 10);
            EControlLeverUpdated (demoLeverUpdate 20)] emptyWorld).
  - exact consistent_empty.
  - vm_compute. reflexivity.
Defined.

(** ** Stepping through a handler to its outcome *)

Lemma wp_ret {A} (a : A) (Q : A → World → Prop) E w :
  Q a w → wp (mret a) Q E w.
Proof. done. Qed.

Lemma wp_bind {A B} (m : M A) (f : A → M B) (Q : B → World → Prop) E w :
  wp m (λ a w1, wp (f a) Q E w1) E w → wp (m ≫= f) Q E w.
Proof.
  unfold wp, mbind, M_mbind, M_bind. by destruct (m w) as [[a w1]|].
Qed.

Lemma wp_abort {A} e (Q : A → World → Prop) (E : Abort → Prop) w :
  E e → wp (abort e) Q E w.
Proof. done. Qed.

Lemma wp_get_store (Q : Store → World → Prop) E w :
  Q (store w) w → wp get_store Q E w.
Proof. done. Qed.

Lemma wp_log_info msg (Q : unit → World → Prop) E w :
  Q tt (mkWorld (store w) (journal w) (logs w ++ [(LInfo, msg)])) →
  wp (log_info msg) Q E w.
Proof. done. Qed.

Lemma wp_log_warning msg (Q : unit → World → Prop) E w :
  Q tt (mkWorld (store w) (journal w) (logs w ++ [(LWarning, msg)])) →
  wp (log_warning msg) Q E w.
Proof. done. Qed.

Lemma wp_write wr (Q : unit → World → Prop) E w :
  Q tt (mkWorld (applyWrite wr (store w)) (journal w ++ [wr]) (logs w)) →
  wp (write wr) Q E w.
Proof. done. Qed.

Lemma wp_mono {A} (m : M A) (Q Q' : A → World → Prop) (E E' : Abort → Prop)
  w :
  (∀ a w', Q a w' → Q' a w') → (∀ e, E e → E' e) →
  wp m Q E w → wp m Q' E' w.
Proof.
  unfold wp. intros HQ HE. destruct (m w) as [[a w']|]; [apply HQ|apply HE].
Qed.

(** The closing reconciliation always returns, and touches nothing but the
    derived links. *)
Lemma wp_reconcile (Q : unit → World → Prop) E w :
  (∀ j l' ml cm,
     Q tt (mkWorld (with_controllerMaster cm (with_masterLayers ml (store w)))
             (journal w ++ j) l')) →
  wp (trySetMasterLayers ≫= λ _, linkMasterAndControllers) Q E w.
Proof.
  intros HQ. unfold wp, mbind, M_mbind, M_bind.
  destruct (reconcile_tail w) as ([s' j' l'] & -> & ml & cm & j & Hs & Hj & _).
  cbn in Hs, Hj. subst j' s'. apply HQ.
Qed.

(** A loop whose body keeps [P] and never aborts keeps [P]. *)
Lemma wp_forEach {A} (P : World → Prop) (f : A → M unit) l :
  (∀ x w, P w → wp (f x) (λ _ w', P w') (λ _, False) w) →
  ∀ w, P w → wp (forEach f l) (λ _ w', P w') (λ _, False) w.
Proof.
  intros Hf. induction l as [|x l IH]; intros w HP; cbn; [done|].
  apply wp_bind.
  apply (wp_mono _ (λ _ w', P w') _ (λ _, False));
    [intros _ w1; apply IH|done|by apply Hf].
Qed.

(** The lever loop touches nothing but levers, and the layer update it
    threads changes in its list of levers only. *)
Lemma wp_leverLoop tid ls ps us l lu (Q : LayerUpdate.t → World → Prop)
  (E : Abort → Prop) w :
  (∀ e, E e) →
  (∀ w' lv lvs,
     store w' = with_tokenControlLevers lv (store w) → logs w' = logs w →
     Q (LayerUpdate.set_leversUpdated lvs lu) w') →
  wp (foldM (updateLever tid ls ps us) lu l) Q E w.
Proof.
  intros HE HQ. unfold wp.
  destruct (foldM _ _ _ _) as [[lu' w']|] eqn:Hf; [|done].
  destruct (foldM_updateLever_layer _ _ _ _ _ _ _ _ _ Hf) as (lvs & ->).
  destruct (foldM_updateLever_frame _ _ _ _ _ _ _ _ _ Hf)
    as (lv & Hs & _ & Hl).
  by eapply HQ.
Qed.

Ltac wstep :=
  cbn beta;
  lazymatch goal with
  | |- wp (_ ≫= _) _ _ _ => apply wp_bind
  | |- wp (mret _) _ _ _ => apply wp_ret
  | |- wp (abort _) _ _ _ => apply wp_abort
  | |- wp get_store _ _ _ => apply wp_get_store
  | |- wp (log_info _) _ _ _ => apply wp_log_info; cbn [store journal logs]
  | |- wp (log_warning _) _ _ _ =>
      apply wp_log_warning; cbn [store journal logs]
  | |- wp (write _) _ _ _ => apply wp_write; cbn [store journal logs]
  | |- wp (match (if ?c then _ else _) with _ => _ end) _ _ _ =>
      destruct c eqn:?
  | |- wp (match ?x with _ => _ end) _ _ _ =>
      destruct x eqn:?; ksimpl_loads
  | |- wp (let _ := _ in _) _ _ _ => cbv zeta
  end.

Ltac wtail :=
  lazymatch goal with
  | |- wp (trySetMasterLayers ≫= _) _ _ _ =>
      apply wp_reconcile; intros ? ? ? ?; cbn [store journal logs]
  end.

Ltac wloop :=
  lazymatch goal with
  | |- wp (foldM _ _ _) _ _ _ => apply wp_leverLoop; [done|]
  end;
  let w' := fresh "w'" in
  let s' := fresh "s'" in
  let l' := fresh "l'" in
  let Hs := fresh "Hs" in
  let Hl := fresh "Hl" in
  intros [s' ? l'] ? ? Hs Hl; cbn in Hs, Hl; subst s' l'.

Ltac wgo := repeat (cbn beta; first [ wtail | wloop | wstep ]).

(** ** The running total of sale prices *)

Lemma handle_total_noncreation ev w :
  isCreation ev = false →
  wp (handle ev)
    (λ _ w', totalSales (store w')
             = (totalSales (store w) + salePriceOf ev)%Z)
    (λ _, True) w.
Proof.
  destruct ev; intros Hc; try done; cbn [handle salePriceOf].
  all: unfold handleArtistSecondSalePercentUpdated, handleBidProposed,
    handleBidWithdrawn, handleBuyPriceSet, handleControlLeverUpdated,
    handlePermissionUpdated, handlePlatformAddressUpdated,
    handlePlatformSalePercentageUpdated, handleTokenSale, handleTransfer,
    nextAverageUpdateCost.
  all: kunfold; wgo; try done.
  all: unfold totalSales; cbn; rewrite ?Heqo; cbn; try lia.
Qed.

Lemma createChild_globalState c g x w :
  globalState (store w) = g →
  wp (createChild c x) (λ _ w', globalState (store w') = g) (λ _, False) w.
Proof.
  intros Hg. unfold createChild, createLever. kunfold. wgo.
  all: apply (wp_forEach (λ w', globalState (store w') = g)); [|done].
  all: intros; by wgo.
Qed.

Lemma wp_createChildren c l (Q : unit → World → Prop) E w :
  (∀ w', globalState (store w') = globalState (store w) → Q tt w') →
  wp (forEach (createChild c) l) Q E w.
Proof.
  intros HQ.
  apply (wp_mono _ (λ _ w', globalState (store w') = globalState (store w))
           _ (λ _, False)); [intros []; apply HQ|done|].
  apply (wp_forEach (λ w', globalState (store w') = globalState (store w)));
    [|done].
  intros. by apply createChild_globalState.
Qed.

Lemma handleCreatorWhitelisted_total e w :
  wp (handleCreatorWhitelisted e)
    (λ _ w', totalSales (store w') = totalSales (store w)) (λ _, False) w.
Proof.
  unfold handleCreatorWhitelisted, createTokensFromMasterTokenId.
  kunfold. wgo.
  all: apply wp_createChildren; cbn; intros w' Hw'.
  all: unfold totalSales; by rewrite Hw', ?Heqo.
Qed.

Lemma handle_total ev w w' :
  exec (handle ev) w = Ok w' →
  totalSales (store w') = (totalSales (store w) + salePriceOf ev)%Z.
Proof.
  unfold exec. intros H.
  destruct (isCreation ev) eqn:Hc.
  - destruct ev; try done. pose proof (handleCreatorWhitelisted_total e w) as Hw.
    unfold wp in Hw. cbn [handle] in H.
    destruct (handleCreatorWhitelisted e w) as [[[] w1]|]; [|done].
    injection H as <-. cbn. lia.
  - pose proof (handle_total_noncreation ev w Hc) as Hw. unfold wp in Hw.
    destruct (handle ev w) as [[[] w1]|]; [|done]. by injection H as <-.
Qed.

(** X8: over any run of events, the running total of the global state
    grows by exactly the prices of the sale events processed; no other
    event changes it. *)
Theorem total_sale_amount_is_sum_of_sale_prices (evs : list AnyEvent)
  (w w' : World) :
  run evs w = Ok w' →
  totalSales (store w')
  = (totalSales (store w) + sumZ (salePriceOf <$> evs))%Z.
Proof.
  revert w. induction evs as [|ev evs IH]; intros w; cbn.
  - intros [= <-]. lia.
  - destruct (exec (handle ev) w) as [w1|] eqn:H1; [|done].
    intros Hrun. rewrite (IH _ Hrun), (handle_total _ _ _ H1).
    unfold sumZ, totalSales, BigInt in *. cbn. lia.
Qed.

Lemma total_sale_amount_is_sum_of_sale_prices_witness :
  totalSales (store (worldAfter [ECreatorWhitelisted demoCreate;
                                 ETokenSale (demoSale "0xu1" 100);
                                 EBidProposed demoBid1;
                                 ETokenSale (demoSale "0xu2" 120)]))
  = (totalSales (store emptyWorld)
     + sumZ (salePriceOf <$> [ECreatorWhitelisted demoCreate;
                              ETokenSale (demoSale "0xu1" 100);
                              EBidProposed demoBid1;
                              ETokenSale (demoSale "0xu2" 120)]))%Z.
Proof.
  apply (total_sale_amount_is_sum_of_sale_prices
           [ECreatorWhitelisted demoCreate; ETokenSale (demoSale "0xu1" 100);
            EBidProposed demoBid1; ETokenSale (demoSale "0xu2" 120)]
           emptyWorld).
  vm_compute. reflexivity.
Defined.

Lemma exec_wp (m : M unit) (Q : unit → World → Prop) w w' :
  wp m Q (λ _, True) w → exec m w = Ok w' → Q tt w'.
Proof.
  unfold wp, exec. destruct (m w) as [[[] w1]|]; [|done].
  by intros HQ [= <-].
Qed.

(** ** Who a sale is booked on *)

Lemma handleTokenSale_users (e : Event TokenSale.t) (w : World) :
  let tid := TokenSale.tokenId (params e) in
  let kb := toHexString (TokenSale.buyer (params e)) in
  wp (handleTokenSale e)
    (λ _ w',
       ∃ token seller,
         tokens (store w) !! toString tid = Some token ∧
         usersWith kb (store w) !! Token.owner token = Some seller ∧
         let buyer := fetchedUser kb (store w) in
         let sid := saleKey tid (Token.numberOfSales token + 1) in
         users (store w')
         = <[User.id seller := User.set_sells (User.sells seller ++ [sid])
                                 seller]>
             (<[User.id buyer := User.set_buys (User.buys buyer ++ [sid])
                                   buyer]>
                (usersWith kb (store w))))
    (λ _, True) w.
Proof.
  intros tid kb. subst tid kb. unfold handleTokenSale. kunfold. wgo; try done.
  all: cbn; unfold usersWith, fetchedUser, saleKey.
  all: repeat match goal with
         | H : users (store _) !! _ = _ |- _ => rewrite H
         end; cbn.
  all: eexists _, _; split; [done|]; split; [eassumption|]; done.
Qed.

Lemma usersWith_lookup a s k u :
  wfUsers s → usersWith a s !! k = Some u → User.id u = k.
Proof.
  unfold usersWith. intros Hwf.
  destruct (users s !! a) eqn:Ha; [apply Hwf|].
  destruct (decide (a = k)) as [->|Hne].
  - rewrite lookup_insert_eq. by intros [= <-].
  - rewrite lookup_insert_ne by done. apply Hwf.
Qed.

Lemma usersWith_fetched a s : usersWith a s !! a = Some (fetchedUser a s).
Proof.
  unfold usersWith, fetchedUser.
  destruct (users s !! a) eqn:Ha; cbn; [done|]. by rewrite lookup_insert_eq.
Qed.

(** X9: a sale that returns books the sale on the seller's list of sells and
    on the buyer's list of buys, and touches no other user.  The seller is
    saved after the buyer: when the buyer is the token's current owner, the
    record that ends up stored has the sale among its sells but not among
    its buys. *)
Theorem sale_is_booked_on_buyer_and_seller (e : Event TokenSale.t)
  (w w' : World) :
  let tid := TokenSale.tokenId (params e) in
  let kb := toHexString (TokenSale.buyer (params e)) in
  wfUsers (store w) →
  exec (handleTokenSale e) w = Ok w' →
  ∃ token seller,
    tokens (store w) !! toString tid = Some token ∧
    usersWith kb (store w) !! Token.owner token = Some seller ∧
    let ks := Token.owner token in
    let buyer := fetchedUser kb (store w) in
    let sid := saleKey tid (Token.numberOfSales token + 1) in
    users (store w') !! ks
    = Some (User.set_sells (User.sells seller ++ [sid]) seller) ∧
    (kb ≠ ks →
     users (store w') !! kb
     = Some (User.set_buys (User.buys buyer ++ [sid]) buyer)) ∧
    (kb = ks →
     User.buys <$> users (store w') !! kb = Some (User.buys buyer)) ∧
    (∀ k, k ≠ kb → k ≠ ks → users (store w') !! k = users (store w) !! k).
Proof.
  intros tid kb Hwf Hrun.
  destruct (exec_wp _ _ _ _ (handleTokenSale_users e w) Hrun)
    as (token & seller & Htok & Hsel & Hu).
  exists token, seller. split; [done|]. split; [done|]. cbn zeta in Hu |- *.
  fold kb in Hsel, Hu. fold tid in Hu.
  pose proof (usersWith_lookup _ _ _ _ Hwf Hsel) as Hids.
  pose proof (usersWith_lookup _ _ _ _ Hwf (usersWith_fetched kb (store w)))
    as Hidb.
  rewrite Hu, Hids, Hidb. split; [by rewrite lookup_insert_eq|].
  split; [|split].
  - intros Hne. rewrite lookup_insert_ne by done.
    by rewrite lookup_insert_eq.
  - intros Heq. rewrite <- Heq, lookup_insert_eq. cbn.
    rewrite <- Heq, usersWith_fetched in Hsel. by injection Hsel as <-.
  - intros k Hkb Hks. rewrite !lookup_insert_ne by done.
    unfold usersWith. destruct (users (store w) !! kb); [done|].
    by rewrite lookup_insert_ne.
Qed.

Lemma demoWorld_wfUsers : wfUsers (store demoWorld).
Proof. apply (bool_decide_unpack _). vm_compute. reflexivity. Qed.

Lemma sale_is_booked_on_buyer_and_seller_witness :
  ∃ token seller,
    tokens (store demoWorld) !! toString 6 = Some token ∧
    usersWith "0xu1" (store demoWorld) !! Token.owner token = Some seller ∧
    users (store (worldAfter [ECreatorWhitelisted demoCreate;
                              ETokenSale (demoSale "0xu1" 100)]))
      !! Token.owner token
    = Some (User.set_sells (User.sells seller ++ [saleKey 6 (Token.numberOfSales token + 1)])
              seller).
Proof.
  destruct (sale_is_booked_on_buyer_and_seller (demoSale "0xu1" 100)
              demoWorld
              (worldAfter [ECreatorWhitelisted demoCreate;
                           ETokenSale (demoSale "0xu1" 100)]))
    as (token & seller & Htok & Hsel & Hks & _).
  - exact demoWorld_wfUsers.
  - vm_compute. reflexivity.
  - exists token, seller. split; [exact Htok|]. split; [exact Hsel|].
    exact Hks.
Defined.

(** ** What a transfer records *)

Lemma handleTransfer_full (e : Event Transfer.t) (w : World) :
  let tid := Transfer.tokenId (params e) in
  let kt := toHexString (Transfer.to (params e)) in
  let kf := toHexString (Transfer.from (params e)) in
  wp (handleTransfer e)
    (λ _ w',
       ∃ token,
         tokens (store w) !! toString tid = Some token ∧
         let s1 := with_users (usersWith kt (store w)) (store w) in
         let toU := fetchedUser kt (store w) in
         let fromU := fetchedUser kf s1 in
         let trk := toString tid +:+ "-" +:+ toHexString (hash (transaction e)) in
         let tr :=
           TokenTransfer.mk trk (Token.id token) (User.id toU) (User.id fromU)
             (timestamp (block e)) in
         let token' :=
           Token.set_pastOwners
             (addIfMissing (User.id fromU) (Token.pastOwners token))
             (Token.set_allTransfers (Token.allTransfers token ++ [trk])
                (Token.set_lastTransfer (Some trk)
                   (Token.set_currentBuyPrice 0
                      (Token.set_owner (User.id toU)
                         (Token.set_permissionedAddress
                            (call_permissionedControllers (address e) tid
                               (Transfer.to (params e))) token))))) in
         let toU' :=
           if Token.isMaster token
           then User.set_ownedMasters
                  (addIfMissing (Token.id token +:+ "-Master")
                     (User.ownedMasters toU)) toU
           else User.set_ownerControllers
                  (addIfMissing (Token.id token +:+ "-Controller")
                     (User.ownerControllers toU)) toU in
         tokens (store w') = <[Token.id token := token']> (tokens (store w)) ∧
         tokenTransfers (store w')
         = <[trk := tr]> (tokenTransfers (store w)) ∧
         users (store w')
         = <[User.id fromU := fromU]>
             (<[User.id toU := toU']> (usersWith kf s1)) ∧
         bids (store w') = bids (store w) ∧
         sales (store w') = sales (store w))
    (λ _, True) w.
Proof.
  intros tid kt kf. subst tid kt kf. unfold handleTransfer. kunfold.
  wgo; try done.
  all: cbn; unfold usersWith, fetchedUser, getPermissionedAddress; cbn.
  all: repeat match goal with
         | H : users (store _) !! _ = _ |- _ => rewrite H
         | H : <[_:=_]> (users (store _)) !! _ = _ |- _ => rewrite H
         end; cbn.
  all: eexists; split; [done|].
  all: destruct (Token.isMaster _); by repeat split.
Qed.

Lemma fetchedUser_id a s : wfUsers s → User.id (fetchedUser a s) = a.
Proof.
  intros Hwf. unfold fetchedUser. destruct (users s !! a) eqn:Ha; cbn; [|done].
  exact (Hwf _ _ Ha).
Qed.

Lemma wfUsers_usersWith a s :
  wfUsers s → wfUsers (with_users (usersWith a s) s).
Proof.
  intros Hwf k u Hk. cbn in Hk. by apply (usersWith_lookup a s).
Qed.

(** X10: a transfer that returns stores a TokenTransfer record under the key
    [<tokenId>-<txHash>] naming the token, the receiver and the sender, makes
    it the token's last transfer and the last entry of its list of
    transfers, makes the receiver the owner, takes the permissioned address
    from the contract, and adds the sender to the past owners unless the
    sender is already listed.  No other token changes. *)
Theorem transfer_is_recorded (e : Event Transfer.t) (w w' : World) :
  let tid := Transfer.tokenId (params e) in
  let kt := toHexString (Transfer.to (params e)) in
  let kf := toHexString (Transfer.from (params e)) in
  let trk := toString tid +:+ "-" +:+ toHexString (hash (transaction e)) in
  wfTokens (store w) → wfUsers (store w) →
  exec (handleTransfer e) w = Ok w' →
  ∃ token token',
    tokens (store w) !! toString tid = Some token ∧
    tokens (store w') !! toString tid = Some token' ∧
    Token.owner token' = kt ∧
    Token.lastTransfer token' = Some trk ∧
    Token.allTransfers token' = Token.allTransfers token ++ [trk] ∧
    Token.pastOwners token' = addIfMissing kf (Token.pastOwners token) ∧
    kf ∈ Token.pastOwners token' ∧
    Token.permissionedAddress token'
    = call_permissionedControllers (address e) tid (Transfer.to (params e)) ∧
    tokenTransfers (store w') !! trk
    = Some (TokenTransfer.mk trk (toString tid) kt kf (timestamp (block e))) ∧
    (∀ k, k ≠ toString tid → tokens (store w') !! k = tokens (store w) !! k).
Proof.
  intros tid kt kf trk Hwt Hwu Hrun.
  destruct (exec_wp _ _ _ _ (handleTransfer_full e w) Hrun)
    as (token & Htok & Ht & Htr & _).
  cbn zeta in Ht, Htr. fold tid kt kf in Ht, Htr, Htok.
  pose proof (Hwt _ _ Htok) as Hid. cbn in Hid.
  rewrite (fetchedUser_id kt _ Hwu) in Ht, Htr.
  rewrite (fetchedUser_id kf _ (wfUsers_usersWith kt _ Hwu)) in Ht, Htr.
  rewrite Hid in Ht, Htr.
  eexists token, _. split; [done|]. rewrite Ht, Htr.
  split; [by rewrite lookup_insert_eq|]. cbn.
  do 4 (split; [done|]). split.
  { unfold addIfMissing. case_decide; [done|]. set_solver. }
  split; [done|]. split; [by rewrite lookup_insert_eq|].
  intros k Hk. by rewrite lookup_insert_ne.
Qed.

Lemma transfer_is_recorded_witness :
  ∃ token token',
    tokens (store demoWorld) !! toString 6 = Some token ∧
    tokens (store (worldAfter [ECreatorWhitelisted demoCreate;
                               ETransfer demoTransfer])) !! toString 6
    = Some token' ∧
    Token.owner token' = "0xu3" ∧
    Token.pastOwners token' = addIfMissing "0xartist" (Token.pastOwners token).
Proof.
  destruct (transfer_is_recorded demoTransfer demoWorld
              (worldAfter [ECreatorWhitelisted demoCreate;
                           ETransfer demoTransfer]))
    as (token & token' & H1 & H2 & H3 & _ & _ & H4 & _).
  - apply (bool_decide_unpack _). vm_compute. reflexivity.
  - exact demoWorld_wfUsers.
  - vm_compute. reflexivity.
  - exists token, token'. split; [exact H1|]. split; [exact H2|].
    split; [exact H3|exact H4].
Defined.

(** X11: a transfer that returns adds the token to the receiver's list of
    owned masters (a master token) or owned controllers (any other token),
    unless it is already listed, and touches no user besides the receiver
    and the sender.  The sender is saved after the receiver, as loaded: when
    the receiver is the sender, the record that ends up stored is the
    unchanged one. *)
Theorem transfer_updates_receiver_lists (e : Event Transfer.t)
  (w w' : World) :
  let tid := Transfer.tokenId (params e) in
  let kt := toHexString (Transfer.to (params e)) in
  let kf := toHexString (Transfer.from (params e)) in
  wfUsers (store w) →
  exec (handleTransfer e) w = Ok w' →
  ∃ token,
    tokens (store w) !! toString tid = Some token ∧
    let receiver := fetchedUser kt (store w) in
    let sender :=
      fetchedUser kf (with_users (usersWith kt (store w)) (store w)) in
    users (store w') !! kf = Some sender ∧
    (kt ≠ kf →
     users (store w') !! kt
     = Some (if Token.isMaster token
             then User.set_ownedMasters
                    (addIfMissing (Token.id token +:+ "-Master")
                       (User.ownedMasters receiver)) receiver
             else User.set_ownerControllers
                    (addIfMissing (Token.id token +:+ "-Controller")
                       (User.ownerControllers receiver)) receiver)) ∧
    (kt = kf → sender = receiver) ∧
    (∀ k, k ≠ kt → k ≠ kf → users (store w') !! k = users (store w) !! k).
Proof.
  intros tid kt kf Hwu Hrun.
  destruct (exec_wp _ _ _ _ (handleTransfer_full e w) Hrun)
    as (token & Htok & _ & _ & Hu & _).
  cbn zeta in Hu |- *. fold tid kt kf in Hu, Htok.
  exists token. split; [done|].
  rewrite Hu, (fetchedUser_id kt _ Hwu),
    (fetchedUser_id kf _ (wfUsers_usersWith kt _ Hwu)).
  split; [by rewrite lookup_insert_eq|]. split; [|split].
  - intros Hne. rewrite lookup_insert_ne by done.
    by rewrite lookup_insert_eq.
  - intros <-. unfold fetchedUser at 1. cbn.
    by rewrite usersWith_fetched.
  - intros k Hkt Hkf. rewrite !lookup_insert_ne by done.
    unfold usersWith; cbn. unfold usersWith.
    destruct (users (store w) !! kt) eqn:E1; cbn;
      rewrite ?lookup_insert_ne by done.
    + destruct (users (store w) !! kf); [done|].
      by rewrite lookup_insert_ne.
    + destruct (decide (kt = kf)) as [<-|Hne].
      * by rewrite lookup_insert_eq, lookup_insert_ne.
      * rewrite lookup_insert_ne by done.
        destruct (users (store w) !! kf); rewrite !lookup_insert_ne by done;
          done.
Qed.

Lemma transfer_updates_receiver_lists_witness :
  ∃ token,
    tokens (store demoWorld) !! toString 6 = Some token ∧
    users (store (worldAfter [ECreatorWhitelisted demoCreate;
                              ETransfer demoTransfer])) !! "0xartist"
    = Some (fetchedUser "0xartist"
              (with_users (usersWith "0xu3" (store demoWorld))
                 (store demoWorld))).
Proof.
  destruct (transfer_updates_receiver_lists demoTransfer demoWorld
              (worldAfter [ECreatorWhitelisted demoCreate;
                           ETransfer demoTransfer]))
    as (token & H1 & H2 & _).
  - exact demoWorld_wfUsers.
  - vm_compute. reflexivity.
  - exists token. split; [exact H1|exact H2].
Defined.

(** ** Withdrawal leaves the bid in place *)

(** X12: a withdrawal does not clear the token's current bid.  On a token
    whose current bid loads, a withdrawal followed by a new proposal
    appends the withdrawn bid to the token's past bids twice: once at the
    withdrawal, and once more when the proposal supersedes it. *)
Theorem withdrawn_bid_is_archived_again (e1 : Event BidWithdrawn.t)
  (e2 : Event BidProposed.t) (w : World) (token : Token.t) (old : Bid.t) :
  let tid := BidWithdrawn.tokenId (params e1) in
  BidProposed.tokenId (params e2) = tid →
  wfTokens (store w) →
  tokens (store w) !! toString tid = Some token →
  loadedBid (store w) token = Some old →
  ∃ w1 w2 token1 token2,
    exec (handleBidWithdrawn e1) w = Ok w1 ∧
    exec (handleBidProposed e2) w1 = Ok w2 ∧
    tokens (store w1) !! toString tid = Some token1 ∧
    Token.currentBid token1 = Token.currentBid token ∧
    Token.pastBids token1 = Token.pastBids token ++ [Bid.id old] ∧
    tokens (store w2) !! toString tid = Some token2 ∧
    Token.currentBid token2 = Some (bidKey tid (hash (transaction e2))) ∧
    Token.pastBids token2
    = Token.pastBids token ++ [Bid.id old; Bid.id old].
Proof.
  intros tid Htid Hwt Htok Hl.
  pose proof (Hwt _ _ Htok) as Hid. cbn in Hid.
  pose proof (handleBidWithdrawn_effect e1 w) as H1. cbn zeta in H1.
  fold tid in H1. rewrite Htok, Hl in H1.
  destruct H1 as (w1 & Hrun1 & _ & _ & Hb1 & Ht1).
  set (token1 := Token.set_pastBids (Token.pastBids token ++ [Bid.id old])
                   token) in *.
  assert (tokens (store w1) !! toString tid = Some token1) as Htok1.
  { cbn in Ht1. by rewrite Ht1, Hid, lookup_insert_eq. }
  assert (∃ old1, loadedBid (store w1) token1 = Some old1 ∧
                  Bid.id old1 = Bid.id old) as (old1 & Hl1 & Hid1).
  { unfold loadedBid in Hl |- *. cbn.
    destruct (Token.currentBid token) as [k|]; [cbn in *|done].
    rewrite Hb1. cbn. destruct (decide (Bid.id old = k)) as [<-|Hne].
    - rewrite lookup_insert_eq. by eexists.
    - rewrite lookup_insert_ne by done. by eexists. }
  pose proof (handleBidProposed_effect e2 w1) as H2. cbn zeta in H2.
  rewrite Htid in H2. rewrite Htok1, Hl1 in H2.
  destruct H2 as (w2 & Hrun2 & _ & _ & _ & Ht2 & _).
  eexists w1, w2, token1, _. split; [done|]. split; [done|].
  split; [done|]. split; [done|]. split; [done|].
  split.
  { rewrite Ht2. change (Token.id token1) with (Token.id token).
    by rewrite Hid, lookup_insert_eq. }
  cbn.
  split; [done|]. by rewrite Hid1, <- app_assoc.
Qed.

Lemma withdrawn_bid_is_archived_again_witness :
  ∃ w1 w2 token1 token2,
    exec (handleBidWithdrawn demoWithdraw) demoWorldBid = Ok w1 ∧
    exec (handleBidProposed demoBid2) w1 = Ok w2 ∧
    tokens (store w1) !! toString 6 = Some token1 ∧
    Token.currentBid token1 = Some "6-0xb1" ∧
    tokens (store w2) !! toString 6 = Some token2 ∧
    Token.pastBids token2 = ["6-0xb1"; "6-0xb1"].
Proof.
  destruct (withdrawn_bid_is_archived_again demoWithdraw demoBid2
              demoWorldBid
              (Token.set_currentBid (Some "6-0xb1") demoToken6)
              (proposedBid demoBid1 (store demoWorld)))
    as (w1 & w2 & token1 & token2 & H1 & H2 & H3 & H4 & _ & H5 & _ & H6).
  - reflexivity.
  - apply (bool_decide_unpack _). vm_compute. reflexivity.
  - vm_compute. reflexivity.
  - vm_compute. reflexivity.
  - exists w1, w2, token1, token2. split; [exact H1|]. split; [exact H2|].
    split; [exact H3|]. split; [exact H4|]. split; [exact H5|exact H6].
Defined.

(** ** When a handler returns *)

Lemma wp_returns {A} (m : M A) w :
  wp m (λ _ _, True) (λ _, False) w → ∃ a w', m w = Ok (a, w').
Proof. unfold wp. destruct (m w) as [[a w']|]; [by eauto|done]. Qed.

Lemma wp_returned {A} (m : M A) (P : Prop) w :
  wp m (λ _ _, P) (λ _, True) w → (∃ a w', m w = Ok (a, w')) → P.
Proof. unfold wp. intros H (a & w' & Hm). by rewrite Hm in H. Qed.

Lemma exec_returns (m : M unit) w :
  (∃ w', exec m w = Ok w') ↔ (∃ a w', m w = Ok (a, w')).
Proof.
  unfold exec. split.
  - intros [w' H]. destruct (m w) as [[a w1]|]; [by eauto|done].
  - intros (a & w' & Hm). rewrite Hm. by eauto.
Qed.

(** X13: once the token of the event is stored, a bid proposal, a
    withdrawal, a price setting, a permission update, a platform-percentage
    update and a transfer return normally, whatever else the store holds -
    a withdrawal whose current bid is not stored and a permission update by
    someone who is not the owner included. *)
Theorem handlers_return_on_stored_token (ev : AnyEvent) (w : World)
  (tid : BigInt) :
  match ev with
  | EBidProposed _ | EBidWithdrawn _ | EBuyPriceSet _ | EPermissionUpdated _
  | EPlatformSalePercentageUpdated _ | ETransfer _ => True
  | _ => False
  end →
  eventTokenId ev = Some tid →
  is_Some (tokens (store w) !! toString tid) →
  ∃ w', exec (handle ev) w = Ok w'.
Proof.
  intros Hkind Hev [t Ht].
  destruct ev as [e|e|e|e|e|e|e|e|e|e|e]; try done; cbn in Hev |- *;
    injection Hev as <-; apply exec_returns, wp_returns.
  - unfold handleBidProposed. kunfold. wgo; done.
  - unfold handleBidWithdrawn. kunfold. wgo; try done; congruence.
  - unfold handleBuyPriceSet. kunfold. wgo; done.
  - unfold handlePermissionUpdated. kunfold. wgo; try done; congruence.
  - unfold handlePlatformSalePercentageUpdated. kunfold.
    wgo; try done; congruence.
  - unfold handleTransfer. kunfold. wgo; try done; congruence.
Qed.

Lemma handlers_return_on_stored_token_witness :
  ∃ w', exec (handle (EBidWithdrawn demoWithdraw)) demoWorld = Ok w'.
Proof.
  apply (handlers_return_on_stored_token (EBidWithdrawn demoWithdraw)
           demoWorld 6).
  - exact I.
  - reflexivity.
  - vm_compute. by eexists.
Defined.

(** The token a handler has loaded is the one the hypothesis names. *)
Ltac same_token Htok :=
  match type of Htok with
  | _ = Some ?tk =>
      match goal with
      | H : tokens (store _) !! _ = Some ?t |- _ =>
          tryif constr_eq t tk then fail
          else (assert (t = tk) by congruence; subst t)
      end
  end.

(** X14: once the token of the event is stored, a sale returns normally
    exactly when, after the buyer's record has been fetched or created, a
    user record of the token's owner is stored; otherwise it aborts on the
    missing seller. *)
Theorem sale_on_stored_token_returns_exactly_when_seller_stored
  (e : Event TokenSale.t) (w : World) (token : Token.t) :
  tokens (store w) !! toString (TokenSale.tokenId (params e)) = Some token →
  (∃ w', exec (handleTokenSale e) w = Ok w') ↔
  is_Some (usersWith (toHexString (TokenSale.buyer (params e))) (store w)
             !! Token.owner token).
Proof.
  intros Htok. rewrite exec_returns. split.
  - apply wp_returned. unfold handleTokenSale. kunfold. wgo; try done.
    all: same_token Htok.
    all: unfold usersWith.
    all: repeat match goal with
           | H : users (store _) !! _ = _ |- _ => rewrite H
           end; by eauto.
  - intros [seller Hs]. apply wp_returns.
    unfold handleTokenSale. kunfold. wgo; try done.
    all: try same_token Htok.
    all: unfold usersWith in Hs.
    all: repeat match goal with
           | H : users (store _) !! _ = _ |- _ => rewrite H in *
           end; congruence.
Qed.

Lemma sale_on_stored_token_returns_exactly_when_seller_stored_witness :
  (∃ w', exec (handleTokenSale (demoSale "0xu1" 100)) demoWorld = Ok w') ↔
  is_Some (usersWith "0xu1" (store demoWorld) !! Token.owner demoToken6).
Proof.
  apply (sale_on_stored_token_returns_exactly_when_seller_stored
           (demoSale "0xu1" 100) demoWorld demoToken6).
  vm_compute. reflexivity.
Defined.

(** ** The lever loop *)

Lemma updateLever_spec tid ls ps us lu i w :
  updateLever tid ls ps us lu i w
  = match ls !! i with
    | None => Err IndexOutOfRange
    | Some lv =>
        match ps !! i with
        | None => Err IndexOutOfRange
        | Some p =>
            match tokenControlLevers (store w) !! leverId tid lv with
            | None => Err NullReference
            | Some l =>
                match us !! i with
                | None => Err IndexOutOfRange
                | Some u =>
                    let l' := leverAfter (LayerUpdate.id lu) p u l in
                    Ok (LayerUpdate.set_leversUpdated
                          (LayerUpdate.leversUpdated lu
                           ++ [TokenControlLever.id l]) lu,
                        mkWorld
                          (with_tokenControlLevers
                             (<[TokenControlLever.id l := l']>
                                (tokenControlLevers (store w))) (store w))
                          (journal w ++ [WTokenControlLever l']) (logs w))
                end
            end
        end
    end.
Proof.
  unfold updateLever, leverAfter. munfold.
  destruct (ls !! i); cbn; [|done].
  destruct (ps !! i); cbn; [|done].
  destruct (tokenControlLevers (store w) !! _); cbn; [|done].
  by destruct (us !! i).
Qed.

Lemma wfLevers_update s k l l' :
  wfLevers s → tokenControlLevers s !! k = Some l →
  TokenControlLever.id l' = TokenControlLever.id l →
  wfLevers
    (with_tokenControlLevers
       (<[TokenControlLever.id l := l']> (tokenControlLevers s)) s).
Proof.
  intros Hwf Hl Hid k' x. cbn.
  destruct (decide (TokenControlLever.id l = k')) as [<-|Hk].
  - rewrite lookup_insert_eq. by intros [= <-].
  - rewrite lookup_insert_ne by done. apply Hwf.
Qed.

Lemma leverLoop_returns tid ls ps us : ∀ n a lu w,
  wfLevers (store w) → (a + n ≤ length ps)%nat →
  (∃ r, foldM (updateLever tid ls ps us) lu (seq a n) w = Ok r) ↔
  (∀ i, (a ≤ i < a + n)%nat →
     ∃ lv, ls !! i = Some lv ∧ is_Some (us !! i) ∧
           is_Some (tokenControlLevers (store w) !! leverId tid lv)).
Proof.
  induction n as [|n IH]; intros a lu w Hwf Hlen; cbn.
  { split; [intros _ i; lia|by eauto]. }
  unfold mbind, M_mbind, M_bind. rewrite updateLever_spec.
  destruct (lookup_lt_is_Some_2 ps a) as [p Hp]; [lia|]. rewrite Hp.
  split.
  - intros [r Hr].
    destruct (ls !! a) as [lv|] eqn:Hlv; [|done].
    destruct (tokenControlLevers (store w) !! leverId tid lv) as [l|] eqn:Hl;
      [|done].
    destruct (us !! a) as [u|] eqn:Hu; [|done]. cbn zeta in Hr.
    pose proof (Hwf _ _ Hl) as Hid. cbn in Hid.
    pose proof (wfLevers_update _ _ _ (leverAfter (LayerUpdate.id lu) p u l)
                  Hwf Hl eq_refl) as Hwf1.
    intros i Hi. destruct (decide (i = a)) as [->|Hne].
    { exists lv. by rewrite Hu, Hl. }
    cbv beta iota in Hr.
    destruct (proj1 (IH (S a) _
                       (mkWorld
                          (with_tokenControlLevers
                             (<[TokenControlLever.id l :=
                                  leverAfter (LayerUpdate.id lu) p u l]>
                                (tokenControlLevers (store w))) (store w))
                          (journal w
                           ++ [WTokenControlLever
                                 (leverAfter (LayerUpdate.id lu) p u l)])
                          (logs w))
                       Hwf1 ltac:(lia)) (ex_intro _ r Hr) i)
      as (lv' & Hlv' & Hu' & Hl'); [lia|].
    exists lv'. split; [done|]. split; [done|]. cbn in Hl'.
    rewrite Hid in Hl'. destruct (decide (leverId tid lv = leverId tid lv'))
      as [<-|Hk]; [by rewrite Hl|]. by rewrite lookup_insert_ne in Hl'.
  - intros Hall.
    destruct (Hall a ltac:(lia)) as (lv & -> & [u ->] & [l Hl]).
    rewrite Hl. cbn zeta.
    pose proof (Hwf _ _ Hl) as Hid. cbn in Hid.
    apply IH; [|lia|].
    + by apply (wfLevers_update (store w) (leverId tid lv)).
    + intros i Hi. destruct (Hall i ltac:(lia)) as (lv' & ? & ? & Hl').
      exists lv'. split; [done|]. split; [done|]. cbn. rewrite Hid.
      destruct (decide (leverId tid lv = leverId tid lv')) as [<-|Hk].
      * by rewrite lookup_insert_eq.
      * by rewrite lookup_insert_ne.
Qed.

(** X15: on a store whose levers sit under their ids and which holds the
    token of the event, a lever update returns normally exactly when the
    token's controller is stored with an update count other than -1 (the
    count the running average would divide by is then not zero), and the
    lever loop finds, at every index of [previousValues], a lever id, an
    updated value and the stored lever. *)
Theorem lever_update_on_stored_token_returns_exactly_when
  (e : Event ControlLeverUpdated.t) (w : World) :
  let tid := ControlLeverUpdated.tokenId (params e) in
  wfLevers (store w) →
  is_Some (tokens (store w) !! toString tid) →
  (∃ w', exec (handleControlLeverUpdated e) w = Ok w') ↔
  (∃ c, tokenControllers (store w) !! controllerId tid = Some c ∧
        TokenController.numberOfUpdates c ≠ (-1)%Z) ∧
  leversPresent tid (ControlLeverUpdated.leverIds (params e))
    (ControlLeverUpdated.previousValues (params e))
    (ControlLeverUpdated.updatedValues (params e)) (store w).
Proof.
  intros tid Hwf [token Htok]. subst tid.
  assert (∀ lu g j l,
    (∃ r, foldM (updateLever (ControlLeverUpdated.tokenId (params e))
                   (ControlLeverUpdated.leverIds (params e))
                   (ControlLeverUpdated.previousValues (params e))
                   (ControlLeverUpdated.updatedValues (params e))) lu
            (seq 0 (length (ControlLeverUpdated.previousValues (params e))))
            (mkWorld (with_globalState g (store w)) j l) = Ok r) ↔
    leversPresent (ControlLeverUpdated.tokenId (params e))
      (ControlLeverUpdated.leverIds (params e))
      (ControlLeverUpdated.previousValues (params e))
      (ControlLeverUpdated.updatedValues (params e)) (store w)) as Hloop.
  { intros lu g j l. rewrite leverLoop_returns; [|exact Hwf|cbn; lia].
    unfold leversPresent. cbn. split; intros H i Hi; apply H; lia. }
  unfold handleControlLeverUpdated, nextAverageUpdateCost, controllerId.
  munfold.
  destruct (globalState (store w)) as [g|]; cbn; rewrite Htok; cbn.
  all: destruct (tokenControllers (store w) !! _) as [c|]; cbn;
    [|split; [by intros [? ?]|by intros ((? & ? & _) & _)]].
  all: destruct (decide (TokenController.numberOfUpdates c = 0)) as [H0|H0];
    cbn.
  all: try (case_decide as H1; cbn;
       [split; [by intros [? ?]|intros ((? & [= <-] & ?) & _); lia]|]).
  all: match goal with
       | |- context [foldM ?f ?lu ?l ?W] =>
           pose proof (Hloop lu) as Hl; destruct (foldM f lu l W)
             as [[lu1 w1]|] eqn:Hf
       end; cbn.
  all: split.
  all: try (intros _; split;
            [eexists; split; [done|lia]|]; eapply Hl; by eauto).
  all: try by eauto.
  all: try by intros [? ?].
  all: intros (_ & Hp); eapply Hl in Hp; destruct Hp as [r Hr];
    by rewrite Hf in Hr.
Qed.

Lemma append_inj_l (s r1 r2 : string) : s +:+ r1 = s +:+ r2 → r1 = r2.
Proof.
  induction s as [|c s IH]; rewrite ?append_cons, ?append_nil_l; [done|].
  intros [= H]. by apply IH.
Qed.

Lemma leverId_inj tid x y : leverId tid x = leverId tid y → x = y.
Proof.
  unfold leverId. intros H%append_inj_l%append_inj_l. by apply (inj pretty).
Qed.

Lemma leverLoop_effect tid ls ps us : ∀ n a lu w lu' w',
  wfLevers (store w) →
  foldM (updateLever tid ls ps us) lu (seq a n) w = Ok (lu', w') →
  NoDup (take n (drop a ls)) →
  wfLevers (store w') ∧
  LayerUpdate.leversUpdated lu'
  = LayerUpdate.leversUpdated lu ++ (leverId tid <$> take n (drop a ls)) ∧
  (∀ i lv, (a ≤ i < a + n)%nat → ls !! i = Some lv →
     ∃ p u l, ps !! i = Some p ∧ us !! i = Some u ∧
       tokenControlLevers (store w) !! leverId tid lv = Some l ∧
       tokenControlLevers (store w') !! leverId tid lv
       = Some (leverAfter (LayerUpdate.id lu) p u l)) ∧
  (∀ k, k ∉ (leverId tid <$> take n (drop a ls)) →
     tokenControlLevers (store w') !! k = tokenControlLevers (store w) !! k).
Proof.
  induction n as [|n IH]; intros a lu w lu' w' Hwf; cbn.
  { intros [= <- <-] _. rewrite app_nil_r. split; [done|]. split; [done|].
    split; [intros; lia|done]. }
  unfold mbind, M_mbind, M_bind. rewrite updateLever_spec.
  destruct (ls !! a) as [lv|] eqn:Hlv; [|done].
  destruct (ps !! a) as [p|] eqn:Hp; [|done].
  destruct (tokenControlLevers (store w) !! leverId tid lv) as [l|] eqn:Hl;
    [|done].
  destruct (us !! a) as [u|] eqn:Hu; [|done]. cbv beta iota zeta.
  pose proof (Hwf _ _ Hl) as Hid. cbn in Hid.
  pose proof (wfLevers_update _ _ _ (leverAfter (LayerUpdate.id lu) p u l)
                Hwf Hl eq_refl) as Hwf1.
  rewrite (drop_S _ _ _ Hlv). cbn [take fmap list_fmap].
  intros Hf [Hnin Hnd]%NoDup_cons.
  eapply IH in Hf as (Hwf' & Hlu & Hupd & Hframe); [|exact Hwf1|exact Hnd].
  cbn in Hlu, Hupd, Hframe. rewrite Hid in *.
  assert (leverId tid lv ∉ leverId tid <$> take n (drop (S a) ls)) as Hkn.
  { intros (y & Hy & Hin)%list_elem_of_fmap.
    apply leverId_inj in Hy as <-. done. }
  split; [done|]. split; [by rewrite Hlu, <- app_assoc|]. split.
  - intros i lv' Hi Hlv'. destruct (decide (i = a)) as [->|Hne].
    + assert (lv' = lv) as -> by congruence.
      exists p, u, l. split; [done|]. split; [done|]. split; [done|].
      by rewrite (Hframe _ Hkn), lookup_insert_eq.
    + destruct (Hupd i lv' ltac:(lia) Hlv') as (p' & u' & l1 & ? & ? & H1 & H2).
      assert (lv' ∈ take n (drop (S a) ls)) as Hin.
      { apply list_elem_of_lookup. exists (i - S a)%nat.
        rewrite lookup_take_lt by lia. rewrite lookup_drop.
        by replace (S a + (i - S a))%nat with i by lia. }
      assert (leverId tid lv ≠ leverId tid lv') as Hk.
      { intros ->%leverId_inj. done. }
      rewrite lookup_insert_ne in H1 by done. by exists p', u', l1.
  - intros k Hk. apply not_elem_of_cons in Hk as [Hk1 Hk2].
    rewrite (Hframe _ Hk2). by rewrite lookup_insert_ne.
Qed.

Lemma wp_leverLoop_effect tid ls ps us lu (Q : LayerUpdate.t → World → Prop)
  (E : Abort → Prop) w :
  wfLevers (store w) → NoDup (take (length ps) ls) → (∀ e, E e) →
  (∀ w' lv,
     store w' = with_tokenControlLevers lv (store w) →
     (∀ i x, (i < length ps)%nat → ls !! i = Some x →
        ∃ p u l, ps !! i = Some p ∧ us !! i = Some u ∧
          tokenControlLevers (store w) !! leverId tid x = Some l ∧
          lv !! leverId tid x = Some (leverAfter (LayerUpdate.id lu) p u l)) →
     (∀ k, k ∉ (leverId tid <$> take (length ps) ls) →
        lv !! k = tokenControlLevers (store w) !! k) →
     Q (LayerUpdate.set_leversUpdated
          (LayerUpdate.leversUpdated lu
           ++ (leverId tid <$> take (length ps) ls)) lu) w') →
  wp (foldM (updateLever tid ls ps us) lu (seq 0 (length ps))) Q E w.
Proof.
  intros Hwf Hnd HE HQ. unfold wp.
  destruct (foldM _ _ _ _) as [[lu' w']|] eqn:Hf; [|done].
  destruct (foldM_updateLever_layer _ _ _ _ _ _ _ _ _ Hf) as (lvs & ->).
  destruct (foldM_updateLever_frame _ _ _ _ _ _ _ _ _ Hf)
    as (lv & Hs & _ & _).
  destruct (leverLoop_effect _ _ _ _ _ _ _ _ _ _ Hwf Hf Hnd)
    as (_ & Hlu & Hupd & Hframe).
  cbn in Hlu. rewrite Hlu. rewrite Hs in Hupd, Hframe. cbn in Hupd, Hframe.
  eapply HQ; [exact Hs| |exact Hframe].
  intros i x Hi Hx. apply (Hupd i x); [lia|done].
Qed.

Lemma exec_wp_all (m : M unit) (P : World → Prop) w :
  wp m (λ _ w', P w') (λ _, True) w → ∀ w', exec m w = Ok w' → P w'.
Proof. intros H w'. by apply (exec_wp m (λ _ w', P w')). Qed.

(** X16: on a store whose levers sit under their ids, a lever update that
    returns and whose lever ids (as many as there are previous values) are
    pairwise distinct stores a layer update [<tokenId>-<n+1>] listing those
    levers in order with the cost [gasUsed * gasPrice]; every listed lever
    gets the previous and updated value at its index, one more update and
    that layer update as its latest; no other lever changes, and neither
    does any user, bid, sale or transfer. *)
Theorem lever_update_effect (e : Event ControlLeverUpdated.t) (w w' : World) :
  let tid := ControlLeverUpdated.tokenId (params e) in
  let ls := ControlLeverUpdated.leverIds (params e) in
  let ps := ControlLeverUpdated.previousValues (params e) in
  let us := ControlLeverUpdated.updatedValues (params e) in
  wfLevers (store w) →
  NoDup (take (length ps) ls) →
  exec (handleControlLeverUpdated e) w = Ok w' →
  ∃ c,
    tokenControllers (store w) !! controllerId tid = Some c ∧
    let n := (TokenController.numberOfUpdates c + 1)%Z in
    let luid := toString tid +:+ "-" +:+ toString n in
    layerUpdates (store w') !! luid
    = Some (LayerUpdate.mk luid n (gasPrice (transaction e))
              (gasUsed (transaction e))
              (gasUsed (transaction e) * gasPrice (transaction e))
              (ControlLeverUpdated.priorityTip (params e))
              (TokenController.id c)
              (leverId tid <$> take (length ps) ls)) ∧
    (∀ i x, (i < length ps)%nat → ls !! i = Some x →
       ∃ p u l, ps !! i = Some p ∧ us !! i = Some u ∧
         tokenControlLevers (store w) !! leverId tid x = Some l ∧
         tokenControlLevers (store w') !! leverId tid x
         = Some (leverAfter luid p u l)) ∧
    (∀ k, k ∉ (leverId tid <$> take (length ps) ls) →
       tokenControlLevers (store w') !! k
       = tokenControlLevers (store w) !! k) ∧
    users (store w') = users (store w) ∧
    bids (store w') = bids (store w) ∧
    sales (store w') = sales (store w) ∧
    tokenTransfers (store w') = tokenTransfers (store w).
Proof.
  intros tid ls ps us Hwf Hnd. subst tid ls ps us. revert w'.
  apply exec_wp_all. unfold handleControlLeverUpdated, nextAverageUpdateCost.
  kunfold.
  repeat (cbn beta;
          lazymatch goal with
          | |- wp (foldM _ _ _) _ _ _ => fail
          | _ => wstep
          end); try done.
  all: apply wp_leverLoop_effect; [exact Hwf|exact Hnd|done|].
  all: intros [s1 j1 l1] lv Hs Hupd Hframe; cbn in Hs; subst s1.
  all: wgo.
  all: eexists; split; [eassumption|]; cbn.
  all: split; [by rewrite lookup_insert_eq|].
  all: split; [exact Hupd|]. all: split; [exact Hframe|]. all: done.
Qed.

Lemma demoWorld_wfLevers : wfLevers (store demoWorld).
Proof. apply (bool_decide_unpack _). vm_compute. reflexivity. Qed.

Lemma lever_update_on_stored_token_returns_exactly_when_witness :
  (∃ w', exec (handleControlLeverUpdated (demoLeverUpdate 10)) demoWorld
         = Ok w') ↔
  (∃ c, tokenControllers (store demoWorld) !! controllerId 6 = Some c ∧
        TokenController.numberOfUpdates c ≠ (-1)%Z) ∧
  leversPresent 6 [0%Z] [7%Z] [8%Z] (store demoWorld).
Proof.
  apply (lever_update_on_stored_token_returns_exactly_when
           (demoLeverUpdate 10) demoWorld).
  - exact demoWorld_wfLevers.
  - vm_compute. by eexists.
Defined.

Lemma lever_update_effect_witness :
  ∃ c,
    tokenControllers (store demoWorld) !! controllerId 6 = Some c ∧
    ∀ i x, (i < 1)%nat → [0%Z] !! i = Some x →
      ∃ p u l, [7%Z] !! i = Some p ∧ [8%Z] !! i = Some u ∧
        tokenControlLevers (store demoWorld) !! leverId 6 x = Some l ∧
        tokenControlLevers
          (store (worldAfter [ECreatorWhitelisted demoCreate;
                              EControlLeverUpdated (demoLeverUpdate 10)]))
          !! leverId 6 x
        = Some (leverAfter
                  (toString 6 +:+ "-"
                   +:+ toString (TokenController.numberOfUpdates c + 1))
                  p u l).
Proof.
  destruct (lever_update_effect (demoLeverUpdate 10) demoWorld
              (worldAfter [ECreatorWhitelisted demoCreate;
                           EControlLeverUpdated (demoLeverUpdate 10)]))
    as (c & Hc & _ & Hupd & _).
  - exact demoWorld_wfLevers.
  - apply NoDup_singleton.
  - vm_compute. reflexivity.
  - exists c. split; [exact Hc|exact Hupd].
Defined.

(** ** Keys *)

(** X17: the composite keys are unambiguous.  For unsigned token ids, the
    key of a bid determines its token and transaction hash, the key of a
    sale its token and sale number, the key of a lever its token and lever
    number, and the key of a controller its token. *)
Theorem composite_keys_are_unambiguous (t t' : BigInt) :
  (0 ≤ t)%Z → (0 ≤ t')%Z →
  (∀ h h', bidKey t h = bidKey t' h' → t = t' ∧ h = h') ∧
  (∀ n n', saleKey t n = saleKey t' n' → t = t' ∧ n = n') ∧
  (∀ x x', leverId t x = leverId t' x' → t = t' ∧ x = x') ∧
  (controllerId t = controllerId t' → t = t').
Proof.
  intros Ht Ht'. split_and!.
  - intros h h' Heq. unfold bidKey, toHex in Heq.
    apply dash_split in Heq as [Heq1 Heq2]; [|by apply toString_noDash..].
    split; [by apply (inj pretty)|done].
  - intros n n'. by apply saleKey_inj.
  - intros x x' Heq. unfold leverId in Heq.
    apply dash_split in Heq as [Heq1 Heq2]; [|by apply toString_noDash..].
    split; by apply (inj pretty).
  - by apply controllerId_inj.
Qed.

Lemma composite_keys_are_unambiguous_witness :
  (∀ h h', bidKey 6 h = bidKey 16 h' → 6%Z = 16%Z ∧ h = h') ∧
  (∀ n n', saleKey 6 n = saleKey 16 n' → 6%Z = 16%Z ∧ n = n') ∧
  (∀ x x', leverId 6 x = leverId 16 x' → 6%Z = 16%Z ∧ x = x') ∧
  (controllerId 6 = controllerId 16 → 6%Z = 16%Z).
Proof. apply (composite_keys_are_unambiguous 6 16); lia. Defined.

(** ** Updates of one field *)

(** X18: a price setting and a platform-percentage update change nothing
    but the fields they set, on the one token of the event: every user,
    bid, sale, transfer, controller, lever and layer update, and every other
    token, is left as it was. *)
Theorem field_updates_touch_nothing_else (w w' : World) :
  (∀ e token,
     tokens (store w) !! toString (BuyPriceSet.tokenId (params e))
     = Some token →
     exec (handleBuyPriceSet e) w = Ok w' →
     tokens (store w')
     = <[Token.id token :=
           Token.set_currentBuyPrice (BuyPriceSet.price (params e)) token]>
         (tokens (store w)) ∧
     users (store w') = users (store w) ∧
     bids (store w') = bids (store w) ∧
     sales (store w') = sales (store w) ∧
     tokenTransfers (store w') = tokenTransfers (store w) ∧
     tokenControllers (store w') = tokenControllers (store w) ∧
     tokenControlLevers (store w') = tokenControlLevers (store w) ∧
     layerUpdates (store w') = layerUpdates (store w)) ∧
  (∀ e token,
     tokens (store w)
       !! toString (PlatformSalePercentageUpdated.tokenId (params e))
     = Some token →
     exec (handlePlatformSalePercentageUpdated e) w = Ok w' →
     tokens (store w')
     = <[Token.id token :=
           Token.set_platformSecondSalePercentage
             (PlatformSalePercentageUpdated.platformSecondPercentage
                (params e))
             (Token.set_platformFirstSalePercentage
                (PlatformSalePercentageUpdated.platformFirstPercentage
                   (params e)) token)]>
         (tokens (store w)) ∧
     users (store w') = users (store w) ∧
     bids (store w') = bids (store w) ∧
     sales (store w') = sales (store w) ∧
     tokenTransfers (store w') = tokenTransfers (store w) ∧
     tokenControllers (store w') = tokenControllers (store w) ∧
     tokenControlLevers (store w') = tokenControlLevers (store w) ∧
     layerUpdates (store w') = layerUpdates (store w)).
Proof.
  split; intros e token Htok; revert w'; apply exec_wp_all.
  - unfold handleBuyPriceSet. kunfold. wgo; try done; try congruence.
    all: simplify_eq; done.
  - unfold handlePlatformSalePercentageUpdated. kunfold.
    wgo; try done; try congruence.
    all: simplify_eq; done.
Qed.

(** ** No dangling references *)

Lemma grows_refl s : grows s s.
Proof. by repeat split. Qed.

Lemma grows_write wr s d : grows s d → grows s (applyWrite wr d).
Proof.
  intros (H1 & H2 & H3 & H4 & H5 & H6 & H7 & H8).
  destruct wr; unfold grows, resolves in *; cbn; split_and!; try done;
    intros key Hkey; apply lookup_insert_is_Some'; right; auto.
Qed.

Lemma grows_links ml cm s d :
  grows s d → grows s (with_controllerMaster cm (with_masterLayers ml d)).
Proof. done. Qed.

Lemma Forall_resolves {A} (m m' : gmap string A) l :
  (∀ k, resolves m k → resolves m' k) →
  Forall (resolves m) l → Forall (resolves m') l.
Proof. intros H Hl. eapply Forall_impl; [exact Hl|exact H]. Qed.

Lemma writeRefsOk_mono s d wr :
  grows s d → writeRefsOk s wr → writeRefsOk d wr.
Proof.
  intros (H1 & H2 & H3 & H4 & H5 & H6 & H7 & H8).
  destruct wr; cbn; try done;
    unfold tokenRefsOk, userRefsOk, bidRefsOk, saleRefsOk, transferRefsOk,
      controllerRefsOk, layerUpdateRefsOk, leverRefsOk;
    intros H; destruct_and?; split_and?;
    eauto using Forall_resolves.
Qed.

Lemma refsIn_base s d : grows s d → noDangling s → refsIn d s.
Proof.
  intros Hg (R1 & R2 & R3 & R4 & R5 & R6 & R7 & R8).
  unfold refsIn. split_and!; intros key x Hk.
  - apply (writeRefsOk_mono s d (WToken x) Hg), (R1 _ _ Hk).
  - apply (writeRefsOk_mono s d (WUser x) Hg), (R2 _ _ Hk).
  - apply (writeRefsOk_mono s d (WBid x) Hg), (R3 _ _ Hk).
  - apply (writeRefsOk_mono s d (WSale x) Hg), (R4 _ _ Hk).
  - apply (writeRefsOk_mono s d (WTokenTransfer x) Hg), (R5 _ _ Hk).
  - apply (writeRefsOk_mono s d (WTokenController x) Hg), (R6 _ _ Hk).
  - apply (writeRefsOk_mono s d (WLayerUpdate x) Hg), (R7 _ _ Hk).
  - apply (writeRefsOk_mono s d (WTokenControlLever x) Hg), (R8 _ _ Hk).
Qed.

Lemma refsIn_write d wr s :
  refsIn d s → writeRefsOk d wr → refsIn d (applyWrite wr s).
Proof.
  intros (R1 & R2 & R3 & R4 & R5 & R6 & R7 & R8) Hwr.
  destruct wr; unfold refsIn; cbn in *; split_and!; try assumption;
    by apply map_Forall_insert_2.
Qed.

Lemma refsIn_links d ml cm s :
  refsIn d s → refsIn d (with_controllerMaster cm (with_masterLayers ml s)).
Proof. done. Qed.

Lemma refsIn_dom_links d ml cm s :
  refsIn d s → refsIn (with_controllerMaster cm (with_masterLayers ml d)) s.
Proof. done. Qed.

Lemma noDangling_empty : noDangling emptyStore.
Proof. unfold noDangling, refsIn. cbn. split_and!; apply map_Forall_empty. Qed.

Ltac nd_grows :=
  lazymatch goal with
  | |- grows _ (with_controllerMaster _ (with_masterLayers _ _)) =>
      apply grows_links; nd_grows
  | |- grows _ (applyWrite _ _) => apply grows_write; nd_grows
  | |- grows _ _ => apply grows_refl
  end.

Ltac nd_peel :=
  lazymatch goal with
  | |- refsIn _ (with_controllerMaster _ (with_masterLayers _ _)) =>
      apply refsIn_links; nd_peel
  | |- refsIn _ (applyWrite _ _) => apply refsIn_write; [nd_peel|]
  | |- refsIn _ (store _) => apply refsIn_base; [assumption|assumption]
  end.

Lemma loaded_refs s :
  noDangling s →
  (∀ k t, tokens s !! k = Some t → writeRefsOk s (WToken t)) ∧
  (∀ k u, users s !! k = Some u → writeRefsOk s (WUser u)) ∧
  (∀ o b, o ≫= (λ k, bids s !! k) = Some b → writeRefsOk s (WBid b)) ∧
  (∀ k c, tokenControllers s !! k = Some c →
          writeRefsOk s (WTokenController c)) ∧
  (∀ k l, tokenControlLevers s !! k = Some l →
          writeRefsOk s (WTokenControlLever l)).
Proof.
  intros (R1 & R2 & R3 & _ & _ & R6 & _ & R8). split_and!.
  - exact R1.
  - exact R2.
  - intros [k|] b H; [exact (R3 _ _ H)|done].
  - exact R6.
  - exact R8.
Qed.

(** What the invariant says of the records loaded from [store w], carried
    over to the final store [F]. *)
Ltac nd_harvest Hnd Hg :=
  let L := fresh "L" in
  pose proof (loaded_refs _ Hnd) as L;
  destruct L as (?L1 & ?L2 & ?L3 & ?L4 & ?L5);
  repeat match goal with
         | H : tokens (store _) !! _ = Some ?t |- _ =>
             lazymatch goal with
             | _ : tokenRefsOk _ t |- _ => fail
             | _ =>
                 let R := fresh "R" in
                 pose proof (writeRefsOk_mono _ _ (WToken t) Hg (L1 _ _ H))
                   as R; cbn [writeRefsOk] in R
             end
         | H : users (store _) !! _ = Some ?u |- _ =>
             lazymatch goal with
             | _ : userRefsOk _ u |- _ => fail
             | _ =>
                 let R := fresh "R" in
                 pose proof (writeRefsOk_mono _ _ (WUser u) Hg (L2 _ _ H))
                   as R; cbn [writeRefsOk] in R
             end
         | H : _ ≫= (λ k, bids (store _) !! k) = Some ?b |- _ =>
             lazymatch goal with
             | _ : bidRefsOk _ b |- _ => fail
             | _ =>
                 let R := fresh "R" in
                 pose proof (writeRefsOk_mono _ _ (WBid b) Hg (L3 _ _ H))
                   as R; cbn [writeRefsOk] in R
             end
         | H : tokenControllers (store _) !! _ = Some ?c |- _ =>
             lazymatch goal with
             | _ : controllerRefsOk _ c |- _ => fail
             | _ =>
                 let R := fresh "R" in
                 pose proof (writeRefsOk_mono _ _ (WTokenController c) Hg
                               (L4 _ _ H)) as R; cbn [writeRefsOk] in R
             end
         | H : tokenControlLevers (store _) !! _ = Some ?l |- _ =>
             lazymatch goal with
             | _ : leverRefsOk _ l |- _ => fail
             | _ =>
                 let R := fresh "R" in
                 pose proof (writeRefsOk_mono _ _ (WTokenControlLever l) Hg
                               (L5 _ _ H)) as R; cbn [writeRefsOk] in R
             end
         end;
  clear L1 L2 L3 L4 L5.

(** A user loaded after another one was created is that new user or was
    stored before. *)
Ltac nd_cases :=
  repeat match goal with
         | H : _ !! _ = Some _ |- _ =>
             apply lookup_insert_Some in H;
             destruct H as [[? <-]|[? H]]
         end;
  cbn [Token.isMaster Token.set_owner Token.set_currentBuyPrice
       Token.set_permissionedAddress Token.set_pastOwners
       Token.set_lastTransfer Token.set_allTransfers];
  repeat match goal with
         | |- context [if ?c then _ else _] => destruct c
         end.

(** The final store [F] of a handler, named, with what it has grown
    from. *)
Ltac nd_start Hnd :=
  nd_cases;
  lazymatch goal with
  | |- noDangling ?S =>
      let F := fresh "F" in
      let Hg := fresh "Hg" in
      set (F := S);
      lazymatch type of Hnd with
      | noDangling ?S0 =>
          assert (grows S0 F) as Hg by (subst F; nd_grows)
      end;
      nd_harvest Hnd Hg;
      unfold noDangling;
      pose proof (refsIn_base _ _ Hg Hnd);
      unfold F at 2; nd_peel; cbn [writeRefsOk]; try exact I
  end.

(** A key resolves in the final store: it is that of a record written by
    the handler, or it resolved before. *)
Ltac nd_res F Hg :=
  first
    [ assumption
    | unfold resolves; unfold F; cbn; rewrite ?lookup_insert_is_Some';
      repeat first [ left; reflexivity | right ];
      first [ eassumption | by eexists ] ].

Ltac nd_solve F Hg :=
  unfold tokenRefsOk, userRefsOk, bidRefsOk, saleRefsOk, transferRefsOk,
    controllerRefsOk, layerUpdateRefsOk, leverRefsOk in *;
  cbn [Token.owner Token.pastOwners Token.currentBid Token.pastBids
       Token.lastSale Token.allSales Token.lastTransfer Token.allTransfers
       Token.set_owner Token.set_currentBuyPrice Token.set_currentBid
       Token.set_permissionedAddress Token.set_numberOfSales
       Token.set_tokenDidHaveFirstSale Token.set_platformFirstSalePercentage
       Token.set_platformSecondSalePercentage Token.set_pastBids
       Token.set_pastOwners Token.set_lastTransfer Token.set_allTransfers
       Token.set_lastSale Token.set_allSales
       User.bids User.buys User.sells User.set_bids User.set_buys
       User.set_sells User.set_ownedMasters User.set_ownerControllers
       Bid.bidder Bid.tokenDetails Bid.set_bidActive Bid.set_bidAccepted
       Bid.set_BidWithdrawnTimestamp
       Sale.buyer Sale.seller Sale.tokenDetails Sale.bidDetails
       Sale.set_isBidSale Sale.set_bidDetails
       TokenTransfer.to TokenTransfer.from TokenTransfer.tokenDetails
       TokenController.lastUpdate TokenController.allUpdates
       TokenController.set_numberOfUpdates
       TokenController.set_numRemainingUpdates
       TokenController.set_averageUpdateCost TokenController.set_lastUpdate
       TokenController.set_allUpdates
       LayerUpdate.layer LayerUpdate.leversUpdated
       LayerUpdate.set_leversUpdated
       TokenControlLever.latestUpdate
       Token.isMaster Token.id User.id Bid.id Sale.id TokenTransfer.id
       TokenController.id LayerUpdate.id TokenControlLever.id] in *;
  repeat match goal with
         | |- context [if ?c then _ else _] => destruct c
         end;
  cbn [User.bids User.buys User.sells User.set_ownedMasters
       User.set_ownerControllers];
  destruct_and?; split_and?;
  repeat match goal with
         | |- ∀ k, Some _ = Some k → _ => intros ? [= <-]
         | |- ∀ k, None = Some k → _ => by intros ? [=]
         | |- Forall _ (_ ++ [_]) =>
             apply Forall_app; split; [|apply Forall_singleton]
         | |- Forall _ [] => by apply Forall_nil
         | |- Forall _ (addIfMissing _ _) =>
             unfold addIfMissing; case_decide
         end;
  try assumption; try nd_res F Hg.

Lemma handleBidWithdrawn_noDangling e w :
  noDangling (store w) →
  wp (handleBidWithdrawn e) (λ _ w', noDangling (store w')) (λ _, True) w.
Proof.
  intros Hnd. unfold handleBidWithdrawn. kunfold. wgo; try done.
  all: nd_start Hnd. all: nd_solve F Hg.
Qed.

Lemma handleBidProposed_noDangling e w :
  noDangling (store w) →
  wp (handleBidProposed e) (λ _ w', noDangling (store w')) (λ _, True) w.
Proof.
  intros Hnd. unfold handleBidProposed. kunfold. wgo; try done.
  all: nd_start Hnd. all: nd_solve F Hg.
Qed.

Lemma handleBuyPriceSet_noDangling e w :
  noDangling (store w) →
  wp (handleBuyPriceSet e) (λ _ w', noDangling (store w')) (λ _, True) w.
Proof.
  intros Hnd. unfold handleBuyPriceSet. kunfold. wgo; try done.
  all: nd_start Hnd. all: nd_solve F Hg.
Qed.

Lemma handlePermissionUpdated_noDangling e w :
  noDangling (store w) →
  wp (handlePermissionUpdated e) (λ _ w', noDangling (store w'))
    (λ _, True) w.
Proof.
  intros Hnd. unfold handlePermissionUpdated. kunfold. wgo; try done.
  all: nd_start Hnd. all: nd_solve F Hg.
Qed.

Lemma handlePlatformSalePercentageUpdated_noDangling e w :
  noDangling (store w) →
  wp (handlePlatformSalePercentageUpdated e)
    (λ _ w', noDangling (store w')) (λ _, True) w.
Proof.
  intros Hnd. unfold handlePlatformSalePercentageUpdated. kunfold.
  wgo; try done.
  all: nd_start Hnd. all: nd_solve F Hg.
Qed.

Lemma handleGlobalOnly_noDangling ev w :
  match ev with
  | EArtistSecondSalePercentUpdated _ | EPlatformAddressUpdated _ => True
  | _ => False
  end →
  noDangling (store w) →
  wp (handle ev) (λ _ w', noDangling (store w')) (λ _, True) w.
Proof.
  destruct ev; try done; intros _ Hnd; cbn [handle];
    unfold handleArtistSecondSalePercentUpdated, handlePlatformAddressUpdated;
    kunfold; wgo; try done.
  all: nd_start Hnd.
Qed.

Lemma handleTransfer_noDangling e w :
  noDangling (store w) →
  wp (handleTransfer e) (λ _ w', noDangling (store w')) (λ _, True) w.
Proof.
  intros Hnd. unfold handleTransfer. kunfold. wgo; try done.
  all: nd_start Hnd. all: nd_solve F Hg.
Qed.

Lemma handleTokenSale_noDangling e w :
  noDangling (store w) →
  wp (handleTokenSale e) (λ _ w', noDangling (store w')) (λ _, True) w.
Proof.
  intros Hnd. unfold handleTokenSale. kunfold. wgo; try done.
  all: nd_start Hnd. all: nd_solve F Hg.
Qed.

(** The lever loop, as far as references go: no lever is lost, the
    levers listed on the layer update are stored, and a lever either names
    the layer update being built or is as it was. *)
Lemma foldM_updateLever_refs tid ls ps us l : ∀ lu w lu' w',
  foldM (updateLever tid ls ps us) lu l w = Ok (lu', w') →
  ∃ lv lvs,
    store w' = with_tokenControlLevers lv (store w) ∧
    lu' = LayerUpdate.set_leversUpdated lvs lu ∧
    (∀ k, resolves (tokenControlLevers (store w)) k → resolves lv k) ∧
    (Forall (resolves (tokenControlLevers (store w)))
       (LayerUpdate.leversUpdated lu) → Forall (resolves lv) lvs) ∧
    (∀ k x, lv !! k = Some x →
       TokenControlLever.latestUpdate x = Some (LayerUpdate.id lu) ∨
       tokenControlLevers (store w) !! k = Some x).
Proof.
  induction l as [|i l IH]; intros lu w lu' w'; cbn.
  - intros [= <- <-].
    exists (tokenControlLevers (store w)), (LayerUpdate.leversUpdated lu).
    split_and!; [by destruct (store w)|by destruct lu|done|done|by right].
  - unfold mbind, M_mbind, M_bind. rewrite updateLever_spec.
    destruct (ls !! i); cbn; [|done].
    destruct (ps !! i); cbn; [|done].
    destruct (tokenControlLevers (store w) !! _) as [lever|] eqn:Hl;
      cbn; [|done].
    destruct (us !! i); cbn; [|done].
    intros H2. apply IH in H2 as (lv & lvs & Hs & -> & Hg & Hf & Hx).
    cbn in Hs, Hg, Hf, Hx.
    exists lv, lvs. split_and!.
    + rewrite Hs. by destruct (store w).
    + done.
    + intros k Hk. apply Hg, lookup_insert_is_Some'. by right.
    + intros H. apply Hf, Forall_app. split.
      * eapply Forall_impl; [exact H|].
        intros k Hk. apply lookup_insert_is_Some'. by right.
      * apply Forall_singleton, lookup_insert_is_Some'. by left.
    + intros k x Hk. destruct (Hx _ _ Hk) as [H|H]; [by left|].
      apply lookup_insert_Some in H as [[_ <-]|[_ H]]; [by left|by right].
Qed.

Lemma wp_leverLoop_refs tid ls ps us l lu (Q : LayerUpdate.t → World → Prop)
  (E : Abort → Prop) w :
  (∀ e, E e) →
  LayerUpdate.leversUpdated lu = [] →
  (∀ w' lv lvs,
     store w' = with_tokenControlLevers lv (store w) →
     (∀ k, resolves (tokenControlLevers (store w)) k → resolves lv k) →
     Forall (resolves lv) lvs →
     (∀ k x, lv !! k = Some x →
        TokenControlLever.latestUpdate x = Some (LayerUpdate.id lu) ∨
        tokenControlLevers (store w) !! k = Some x) →
     Q (LayerUpdate.set_leversUpdated lvs lu) w') →
  wp (foldM (updateLever tid ls ps us) lu l) Q E w.
Proof.
  intros HE Hnil HQ. unfold wp.
  destruct (foldM _ _ _ _) as [[lu' w']|] eqn:Hf; [|done].
  destruct (foldM_updateLever_refs _ _ _ _ _ _ _ _ _ Hf)
    as (lv & lvs & Hs & -> & Hg & Hfa & Hx).
  apply (HQ w' lv lvs); try done. apply Hfa. by rewrite Hnil.
Qed.

Ltac wloop_refs :=
  lazymatch goal with
  | |- wp (foldM _ _ _) _ _ _ => apply wp_leverLoop_refs; [done|done|]
  end;
  let s' := fresh "s'" in
  let Hs := fresh "Hs" in
  intros [s' ? ?] ? ? Hs ? ? ?; cbn in Hs; subst s'.

(** The store a lever update leaves: the levers of the loop, then the
    layer update, the controller and the token. *)
Lemma noDangling_leverUpdate s g lv lu c t :
  noDangling s →
  (∀ k, resolves (tokenControlLevers s) k → resolves lv k) →
  Forall (resolves lv) (LayerUpdate.leversUpdated lu) →
  (∀ k x, lv !! k = Some x →
     TokenControlLever.latestUpdate x = Some (LayerUpdate.id lu) ∨
     tokenControlLevers s !! k = Some x) →
  LayerUpdate.layer lu = TokenController.id c →
  (∀ k, TokenController.lastUpdate c = Some k →
        k = LayerUpdate.id lu ∨ resolves (layerUpdates s) k) →
  Forall (λ k, k = LayerUpdate.id lu ∨ resolves (layerUpdates s) k)
    (TokenController.allUpdates c) →
  tokenRefsOk s t →
  noDangling
    (applyWrite (WToken t)
       (applyWrite (WTokenController c)
          (applyWrite (WLayerUpdate lu)
             (with_tokenControlLevers lv
                (applyWrite (WGlobalState g) s))))).
Proof.
  intros Hnd Hlv Hlvs Hx Hlayer Hlast Hall Ht. unfold noDangling.
  match goal with
  | |- refsIn ?S _ =>
      set (F := S) at 1; assert (F = S) as HF by reflexivity; clearbody F
  end.
  assert (grows s F) as Hg.
  { rewrite HF. unfold grows, resolves in *. cbn. split_and!; try done;
      intros key Hkey; rewrite ?lookup_insert_is_Some'; auto. }
  assert (resolves (layerUpdates F) (LayerUpdate.id lu)) as Hlu.
  { rewrite HF. cbn. apply lookup_insert_is_Some'. by left. }
  pose proof (refsIn_base _ _ Hg Hnd) as HB.
  repeat apply refsIn_write.
  - destruct HB as (B1 & B2 & B3 & B4 & B5 & B6 & B7 & B8).
    unfold refsIn. cbn. split_and!; try done.
    intros k x Hk key Hkey. destruct (Hx _ _ Hk) as [H|H].
    + rewrite Hkey in H. by injection H as ->.
    + by apply (B8 _ _ H).
  - split.
    + rewrite Hlayer, HF. cbn. apply lookup_insert_is_Some'. by left.
    + eapply Forall_impl; [exact Hlvs|]. intros k Hk. by rewrite HF.
  - split.
    + intros k Hk. destruct (Hlast _ Hk) as [->|Hr]; [done|].
      by apply Hg.
    + eapply Forall_impl; [exact Hall|]. cbn.
      intros k [->|Hr]; [done|]. by apply Hg.
  - apply (writeRefsOk_mono s F (WToken t) Hg Ht).
Qed.

Lemma handleControlLeverUpdated_noDangling e w :
  noDangling (store w) →
  wp (handleControlLeverUpdated e) (λ _ w', noDangling (store w'))
    (λ _, True) w.
Proof.
  intros Hnd. unfold handleControlLeverUpdated, nextAverageUpdateCost.
  kunfold. repeat (cbn beta; first [ wloop_refs | wstep ]); try done.
  all: pose proof (loaded_refs _ Hnd) as (L1 & L2 & L3 & L4 & L5).
  all: apply noDangling_leverUpdate; try done.
  all: try by eapply L1.
  all: cbn.
  all: try (intros k [= <-]; by left).
  all: apply Forall_app; split; [|apply Forall_singleton; by left].
  all: match goal with
       | H : tokenControllers _ !! _ = Some _ |- _ =>
           destruct (L4 _ _ H) as [_ HL]
       end.
  all: eapply Forall_impl; [exact HL|]; intros k Hk; by right.
Qed.

Lemma createLever_noDangling tid l w :
  noDangling (store w) →
  wp (createLever tid l) (λ _ w', noDangling (store w')) (λ _, False) w.
Proof.
  intros Hnd. unfold createLever. kunfold. wgo.
  nd_start Hnd. all: nd_solve F Hg.
Qed.

Lemma createChild_noDangling c x w :
  noDangling (store w) →
  wp (createChild c x) (λ _ w', noDangling (store w')) (λ _, False) w.
Proof.
  intros Hnd. unfold createChild. kunfold. wgo.
  all: apply (wp_forEach (λ w', noDangling (store w')));
    [intros; by apply createLever_noDangling|].
  all: cbn [store]; unfold newToken.
  all: nd_start Hnd. all: nd_solve F Hg.
Qed.

Lemma handleCreatorWhitelisted_noDangling e w :
  noDangling (store w) →
  wp (handleCreatorWhitelisted e) (λ _ w', noDangling (store w'))
    (λ _, True) w.
Proof.
  intros Hnd.
  apply (wp_mono _ (λ _ w', noDangling (store w')) _ (λ _, False));
    [done|done|].
  unfold handleCreatorWhitelisted, createTokensFromMasterTokenId.
  kunfold. wgo.
  all: apply (wp_forEach (λ w', noDangling (store w')));
    [intros; by apply createChild_noDangling|].
  all: cbn [store]; unfold newToken.
  all: nd_start Hnd. all: nd_solve F Hg.
Qed.

Lemma handle_noDangling ev w :
  noDangling (store w) →
  wp (handle ev) (λ _ w', noDangling (store w')) (λ _, True) w.
Proof.
  intros Hnd. destruct ev.
  - by apply handleGlobalOnly_noDangling.
  - by apply handleBidProposed_noDangling.
  - by apply handleBidWithdrawn_noDangling.
  - by apply handleBuyPriceSet_noDangling.
  - by apply handleControlLeverUpdated_noDangling.
  - by apply handleCreatorWhitelisted_noDangling.
  - by apply handlePermissionUpdated_noDangling.
  - by apply handleGlobalOnly_noDangling.
  - by apply handlePlatformSalePercentageUpdated_noDangling.
  - by apply handleTokenSale_noDangling.
  - by apply handleTransfer_noDangling.
Qed.

(** X19: over any run of events, creation and lever updates included, no
    stored record is left with a dangling reference: the owner, past
    owners, bids, sales and transfers a token names, the bids and sales a
    user names, the bidder and token of a bid, the buyer, seller, token and
    bid of a sale, the two parties and the token of a transfer, the layer
    updates a controller or a lever names, and the controller and levers a
    layer update names are all stored, provided this held at the start. *)
Theorem no_dangling_references (evs : list AnyEvent) (w w' : World) :
  noDangling (store w) → run evs w = Ok w' → noDangling (store w').
Proof.
  revert w. induction evs as [|ev evs IH]; intros w Hnd; cbn.
  - by intros [= <-].
  - destruct (exec (handle ev) w) as [w1|] eqn:Hex; [|done].
    apply IH. revert w1 Hex. apply exec_wp_all.
    by apply handle_noDangling.
Qed.

Lemma no_dangling_references_witness :
  noDangling
    (store (worldAfter [ECreatorWhitelisted demoCreate;
                        EBidProposed demoBid1;
                        ETokenSale (demoSale "0xu1" 100);
                        EControlLeverUpdated (demoLeverUpdate 10)])).
Proof.
  apply (no_dangling_references
           [ECreatorWhitelisted demoCreate; EBidProposed demoBid1;
            ETokenSale (demoSale "0xu1" 100);
            EControlLeverUpdated (demoLeverUpdate 10)] emptyWorld).
  - exact noDangling_empty.
  - vm_compute. reflexivity.
Defined.

(** ** Handlers that cannot fail *)

(** X20: the two global settings and a creation return on every store,
    whatever it holds; a global setting stores the global state alone,
    with the field of the event set to the event's value and, when a
    global state is already stored, every other field as it was. *)
Theorem settings_and_creation_always_return (w : World) :
  (∀ e, ∃ g w',
     exec (handleArtistSecondSalePercentUpdated e) w = Ok w' ∧
     store w' = applyWrite (WGlobalState g) (store w) ∧
     GlobalState.artistSecondSalePercentage g
     = ArtistSecondSalePercentUpdated.artistSecondPercentage (params e) ∧
     ∀ g0, globalState (store w) = Some g0 →
       g = GlobalState.set_artistSecondSalePercentage
             (ArtistSecondSalePercentUpdated.artistSecondPercentage
                (params e)) g0) ∧
  (∀ e, ∃ g w',
     exec (handlePlatformAddressUpdated e) w = Ok w' ∧
     store w' = applyWrite (WGlobalState g) (store w) ∧
     GlobalState.platformAddress g
     = PlatformAddressUpdated.platformAddress (params e) ∧
     ∀ g0, globalState (store w) = Some g0 →
       g = GlobalState.set_platformAddress
             (PlatformAddressUpdated.platformAddress (params e)) g0) ∧
  (∀ e, ∃ w', exec (handleCreatorWhitelisted e) w = Ok w').
Proof.
  split_and!; intros e.
  - unfold handleArtistSecondSalePercentUpdated. munfold.
    destruct (globalState (store w)) as [g0|]; cbn;
      eexists _, _; split_and!; try reflexivity; by intros ? [= <-].
  - unfold handlePlatformAddressUpdated. munfold.
    destruct (globalState (store w)) as [g0|]; cbn;
      eexists _, _; split_and!; try reflexivity; by intros ? [= <-].
  - apply exec_returns, wp_returns.
    apply (wp_mono _ (λ _ w', totalSales (store w') = totalSales (store w))
             _ (λ _, False)); [done|done|].
    apply handleCreatorWhitelisted_total.
Qed.

(** * The earlier handler set *)

Ltac lunfold :=
  unfold Legacy.refreshGlobalState, Legacy.getOrInitialiseGlobalState,
    Legacy.getOrInitialiseToken, Legacy.createOrFetchUserString,
    Legacy.Token_load, Legacy.User_load, Legacy.Bid_load,
    Legacy.TokenController_load, Legacy.TokenControlLever_load, Legacy.load,
    Legacy.GlobalState_load, Legacy.GlobalState_save, Legacy.Token_save,
    Legacy.User_save, Legacy.Bid_save, Legacy.Sale_save,
    Legacy.TokenController_save, Legacy.TokenControlLever_save,
    Legacy.LayerUpdate_save, Legacy.modify, Legacy.get_store,
    Legacy.log_warning, Legacy.log_info, Legacy.log_critical, Legacy.abort,
    Legacy.deref, Legacy.index;
  unfold mbind, mret, Legacy.M_mbind, Legacy.M_mret, Legacy.M_bind,
    Legacy.M_ret.




(** ** A sale in the earlier handler set *)

Ltac legacy_sale_go Hwf Ht Hs Hne :=
  unfold Legacy.handleTokenSale; lunfold;
  let Hb := fresh "Hb" in
  let buyer := fresh "buyer" in
  destruct (Legacy.globalState (Legacy.store _)); cbn;
  (destruct (Legacy.users (Legacy.store _) !! toHexString _)
     as [buyer|] eqn:Hb; cbn);
  rewrite Ht; cbn;
  rewrite ?lookup_insert_ne by (intros ?; by apply Hne);
  rewrite Hs; cbn;
  (destruct (option_bind _ _ _ (Legacy.Token.currentBid _))
     as [bid|]; cbn;
   [destruct (bidMatchesSale bid _ _); cbn|]);
  try (pose proof (Hwf _ _ Hb) as Hidb; cbn in Hidb);
  pose proof (Hwf _ _ Hs) as Hids; cbn in Hids.

Lemma not_NoDup_again {A} (x : A) (l1 l2 : list A) :
  x ∈ l1 ++ l2 →
  ¬ NoDup ((l1 ++ [x]) ++ l2) ∧ ¬ NoDup (l1 ++ (l2 ++ [x])).
Proof.
  intros Hin. split; intros Hnd.
  - apply NoDup_app in Hnd as (H1 & H2 & _).
    apply NoDup_app in H1 as (_ & H1 & _).
    apply elem_of_app in Hin as [Hx|Hx].
    + apply (H1 x Hx). by apply list_elem_of_singleton.
    + apply (H2 x); [|done]. apply elem_of_app. right.
      by apply list_elem_of_singleton.
  - apply NoDup_app in Hnd as (_ & H1 & H2).
    apply NoDup_app in H2 as (_ & H2 & _).
    apply elem_of_app in Hin as [Hx|Hx].
    + apply (H1 x Hx). apply elem_of_app. right.
      by apply list_elem_of_singleton.
    + apply (H2 x Hx). by apply list_elem_of_singleton.
Qed.

(** X23: a sale of the earlier handler set appends the token to the
    buyer's list of owned masters or controllers without looking whether it
    is listed: a buyer who lists the token already (having owned it before)
    lists it twice afterwards.  Stated for a stored token whose owner is
    stored and is not the buyer, on a store with users under their ids; the
    handler then hands over to the re-link routine, whatever that is. *)
Theorem legacy_sale_lists_the_token_again
  (e : Event TokenSale.t) (w : Legacy.World) (token : Legacy.Token.t)
  (seller : User.t) :
  let tid := TokenSale.tokenId (params e) in
  let kb := toHexString (TokenSale.buyer (params e)) in
  let u0 := default (User.mk kb [] [] [] [] [])
              (Legacy.users (Legacy.store w) !! kb) in
  let entry :=
    if Legacy.Token.isMaster token
    then Legacy.Token.id token +:+ "-Master"
    else Legacy.Token.id token +:+ "-Controller" in
  Legacy.wfUsers (Legacy.store w) →
  Legacy.tokens (Legacy.store w) !! toString tid = Some token →
  Legacy.users (Legacy.store w) !! Legacy.Token.owner token = Some seller →
  Legacy.Token.owner token ≠ kb →
  ∃ w1 u',
    (∀ link, Legacy.handleTokenSale link e w = link tid w1) ∧
    Legacy.users (Legacy.store w1) !! kb = Some u' ∧
    User.ownedMasters u'
    = (if Legacy.Token.isMaster token
       then User.ownedMasters u0 ++ [entry] else User.ownedMasters u0) ∧
    User.ownerControllers u'
    = (if Legacy.Token.isMaster token
       then User.ownerControllers u0 else User.ownerControllers u0 ++ [entry])
    ∧
    (entry ∈ User.ownedMasters u0 ++ User.ownerControllers u0 →
     ¬ NoDup (User.ownedMasters u' ++ User.ownerControllers u')).
Proof.
  intros tid kb u0 entry Hwf Ht Hs Hne. subst tid kb u0 entry.
  legacy_sale_go Hwf Ht Hs Hne.
  all: destruct (Legacy.Token.isMaster token); cbn.
  all: eexists _, _; (split; [intros link; reflexivity|]); cbn.
  all: rewrite Hids, ?Hidb.
  all: rewrite lookup_insert_ne by done; rewrite lookup_insert_eq.
  all: (split; [reflexivity|]); cbn.
  all: split_and!; try reflexivity.
  all: intros Hin;
    first [ by apply elem_of_nil in Hin
          | exact (proj1 (not_NoDup_again _ _ _ Hin))
          | exact (proj2 (not_NoDup_again _ _ _ Hin)) ].
Qed.

Lemma legacy_sale_lists_the_token_again_witness :
  ∃ w1 u',
    (∀ link, Legacy.handleTokenSale link (demoSale "0xu1" 120)
               Legacy.demoWorld = link 6 w1) ∧
    Legacy.users (Legacy.store w1) !! "0xu1" = Some u' ∧
    User.ownedMasters u' = [] ∧
    User.ownerControllers u' = ["6-Controller"; "6-Controller"] ∧
    ("6-Controller" ∈ [] ++ ["6-Controller"] →
     ¬ NoDup (User.ownedMasters u' ++ User.ownerControllers u')).
Proof.
  apply (legacy_sale_lists_the_token_again (demoSale "0xu1" 120)
           Legacy.demoWorld
           Legacy.demoToken Legacy.demoSeller).
  - apply (bool_decide_unpack _). vm_compute. reflexivity.
  - vm_compute. reflexivity.
  - vm_compute. reflexivity.
  - vm_compute. discriminate.
Defined.

(** X24: what a sale of the earlier handler set records.  The token keeps
    the price of its last sale (not the sale), gets the buyer as owner,
    one more sale, a zero buy price and no current bid; the sale is stored
    under [<tokenId>-<number>] with the new count as its number, and it is
    a bid sale naming the token's current bid exactly when that bid is
    stored with the sale price as amount and the buyer as bidder; the
    current bid, when stored, is saved inactive, and accepted in that case
    only.  Stated under the hypotheses of X23. *)
Theorem legacy_sale_records_price_and_sale
  (e : Event TokenSale.t) (w : Legacy.World) (token : Legacy.Token.t)
  (seller : User.t) :
  let tid := TokenSale.tokenId (params e) in
  let kb := toHexString (TokenSale.buyer (params e)) in
  let price := TokenSale.salePrice (params e) in
  let n := Legacy.Token.numberOfSales token + 1 in
  let bid := Legacy.Token.currentBid token
             ≫= (λ k, Legacy.bids (Legacy.store w) !! k) in
  let accepted :=
    from_option (λ b, bidMatchesSale b price (TokenSale.buyer (params e)))
      false bid in
  Legacy.wfUsers (Legacy.store w) →
  Legacy.tokens (Legacy.store w) !! toString tid = Some token →
  Legacy.users (Legacy.store w) !! Legacy.Token.owner token = Some seller →
  Legacy.Token.owner token ≠ kb →
  ∃ w1,
    (∀ link, Legacy.handleTokenSale link e w = link tid w1) ∧
    Legacy.tokens (Legacy.store w1)
    = <[Legacy.Token.id token :=
          Legacy.Token.mk (Legacy.Token.id token) kb 0 None
            (getPermissionedAddress (address e) tid
               (TokenSale.buyer (params e)))
            price n true (Legacy.Token.isMaster token)
            (Legacy.Token.platformFirstSalePercentage token)
            (Legacy.Token.platformSecondSalePercentage token)]>
        (Legacy.tokens (Legacy.store w)) ∧
    Legacy.sales (Legacy.store w1)
    = <[toString tid +:+ "-" +:+ toString n :=
          Sale.mk (toString tid +:+ "-" +:+ toString n)
            (Legacy.Token.id token) kb (Legacy.Token.owner token) price
            (timestamp (block e)) n accepted
            (if accepted then Bid.id <$> bid else None)]>
        (Legacy.sales (Legacy.store w)) ∧
    Legacy.bids (Legacy.store w1)
    = match bid with
      | Some b =>
          <[Bid.id b :=
              Bid.set_bidActive false
                (if accepted then Bid.set_bidAccepted true b else b)]>
            (Legacy.bids (Legacy.store w))
      | None => Legacy.bids (Legacy.store w)
      end.
Proof.
  intros tid kb price n bid accepted Hwf Ht Hs Hne.
  subst tid kb price n bid accepted.
  legacy_sale_go Hwf Ht Hs Hne.
  all: eexists; (split; [intros link; reflexivity|]); cbn.
  all: rewrite Hids, ?Hidb; cbn.
  all: split_and!; reflexivity.
Qed.

Lemma legacy_sale_records_price_and_sale_witness :
  ∃ w1,
    (∀ link, Legacy.handleTokenSale link (demoSale "0xu1" 120)
               Legacy.demoWorld = link 6 w1) ∧
    Legacy.tokens (Legacy.store w1)
    = <["6" := Legacy.Token.mk "6" "0xu1" 0 None None 120 2 true false 10 1]>
        (Legacy.tokens (Legacy.store Legacy.demoWorld)) ∧
    Legacy.sales (Legacy.store w1)
    = <["6-2" := Sale.mk "6-2" "6" "0xu1" "0xu2" 120 5 2 true
                   (Some "6-0xb1")]>
        (Legacy.sales (Legacy.store Legacy.demoWorld)) ∧
    Legacy.bids (Legacy.store w1)
    = <["6-0xb1" := Bid.mk "6-0xb1" "6" 120 "0xu1" 2 false true None]>
        (Legacy.bids (Legacy.store Legacy.demoWorld)).
Proof.
  apply (legacy_sale_records_price_and_sale (demoSale "0xu1" 120)
           Legacy.demoWorld Legacy.demoToken Legacy.demoSeller).
  - apply (bool_decide_unpack _). vm_compute. reflexivity.
  - vm_compute. reflexivity.
  - vm_compute. reflexivity.
  - vm_compute. discriminate.
Defined.

(** ** A proposal in the earlier handler set *)

(** X25: a proposal of the earlier handler set on a stored token (users
    under their ids) stores the new bid active under [<tokenId>-<txHash>],
    after saving the token's current bid, when stored, inactive; makes the
    new bid the token's current bid, changing nothing else of the token;
    and appends it to the bids of the bidder, whose record is created when
    missing.  It keeps no list of past bids. *)
Theorem legacy_proposal_supersedes_current_bid
  (e : Event BidProposed.t) (w : Legacy.World) (token : Legacy.Token.t) :
  let tid := BidProposed.tokenId (params e) in
  let kb := toHexString (BidProposed.bidder (params e)) in
  let key := toString tid +:+ "-" +:+ toHex (hash (transaction e)) in
  let u0 := default (User.mk kb [] [] [] [] [])
              (Legacy.users (Legacy.store w) !! kb) in
  Legacy.wfUsers (Legacy.store w) →
  Legacy.tokens (Legacy.store w) !! toString tid = Some token →
  ∃ w1,
    (∀ link, Legacy.handleBidProposed link e w = link tid w1) ∧
    Legacy.tokens (Legacy.store w1)
    = <[Legacy.Token.id token :=
          Legacy.Token.set_currentBid (Some key) token]>
        (Legacy.tokens (Legacy.store w)) ∧
    Legacy.bids (Legacy.store w1)
    = <[key := Bid.mk key (toString tid) (BidProposed.bidAmount (params e))
                 kb (timestamp (block e)) true false None]>
        (match Legacy.Token.currentBid token
               ≫= (λ k, Legacy.bids (Legacy.store w) !! k) with
         | Some old =>
             <[Bid.id old := Bid.set_bidActive false old]>
               (Legacy.bids (Legacy.store w))
         | None => Legacy.bids (Legacy.store w)
         end) ∧
    Legacy.users (Legacy.store w1)
    = <[kb := User.set_bids (User.bids u0 ++ [key]) u0]>
        (Legacy.users (Legacy.store w)) ∧
    Legacy.sales (Legacy.store w1) = Legacy.sales (Legacy.store w).
Proof.
  intros tid kb key u0 Hwf Ht. subst tid kb key u0.
  unfold Legacy.handleBidProposed. lunfold.
  destruct (Legacy.globalState (Legacy.store w)); cbn.
  all: rewrite Ht; cbn.
  all: destruct (Legacy.users (Legacy.store w) !! toHexString _)
    as [user|] eqn:Hu; cbn.
  all: destruct (option_bind _ _ _ (Legacy.Token.currentBid token))
    as [old|]; cbn.
  all: try (pose proof (Hwf _ _ Hu) as Hid; cbn in Hid).
  all: eexists; (split; [intros link; reflexivity|]); cbn.
  all: rewrite ?Hid, ?insert_insert_eq; split_and!; reflexivity.
Qed.

Lemma legacy_proposal_supersedes_current_bid_witness :
  ∃ w1,
    (∀ link, Legacy.handleBidProposed link demoBid2 Legacy.demoWorld
             = link 6 w1) ∧
    Legacy.tokens (Legacy.store w1)
    = <["6" := Legacy.Token.set_currentBid (Some "6-0xb2")
                 Legacy.demoToken]>
        (Legacy.tokens (Legacy.store Legacy.demoWorld)) ∧
    Legacy.bids (Legacy.store w1)
    = <["6-0xb2" := Bid.mk "6-0xb2" "6" 150 "0xu2" 3 true false None]>
        (<["6-0xb1" := Bid.set_bidActive false Legacy.demoBid]>
           (Legacy.bids (Legacy.store Legacy.demoWorld))) ∧
    Legacy.users (Legacy.store w1)
    = <["0xu2" := User.set_bids ["6-0xb2"] Legacy.demoSeller]>
        (Legacy.users (Legacy.store Legacy.demoWorld)) ∧
    Legacy.sales (Legacy.store w1)
    = Legacy.sales (Legacy.store Legacy.demoWorld).
Proof.
  apply (legacy_proposal_supersedes_current_bid demoBid2 Legacy.demoWorld
           Legacy.demoToken).
  - apply (bool_decide_unpack _). vm_compute. reflexivity.
  - vm_compute. reflexivity.
Defined.
